(** * Gameweek planning engine of fpl-mcp: a shallow embedding

    The definitions below follow [src/app/tools/analysis.py] function by
    function, together with what the planner and summary endpoints of
    [src/app/api/routes.py] compute on the data they fetched: the baseline
    picks, the validation block, the transfer suggestions and the captain
    candidates.

    Modelling conventions.
    - A Python [float] is a rational number of [Q] and float arithmetic is
      exact rational arithmetic; NaN and the infinities are outside the model.
      The statements proved below rest on the order of the values, or are
      evaluated at inputs for which binary64 arithmetic is exact as well.
    - [math.exp] is the one operation taken from outside the repository: the
      record [libm] stands for it, as a function with positive values.
    - A dict that is only looked up is a [gmap]; a dict whose iteration order
      is observed ([ep_by_player], [candidate_scores]) is an association list
      in insertion order ([dict_set], [dict_get]).
    - A JSON record is a Rocq record.  An integer key is an [option Z]:
      where the code reads it with [int(d.get(key))], [None] stands for every
      value on which that conversion raises (a missing key or null: TypeError;
      a text that is no integer: ValueError); where the code reads it with
      [int(d.get(key, v) or v)], [None] is the missing key or null, which both
      give the default.  A key read with [int(d.get(key, v))] is a [json_int],
      since there a missing key gives the default and null raises.  A numeric
      field kept as text by the upstream API is a [field]; the ownership
      field is a [raw_number], which adds the one value on which [float]
      raises an exception that the code does not catch.  A pick carries its
      four keys, as the upstream API ships them.
    - Code that can raise returns [option] ([None] is the exception). *)

From Stdlib Require Import QArith Qround Lqa Sorted.
From stdpp Require Import gmap strings list fin_maps pretty sorting.

Open Scope Z_scope.

(** ** Python values and builtins *)

(** [x < y] and [x <= y] on floats. *)
Definition fltb (x y : Q) : bool := negb (Qle_bool y x).
Definition fleb (x y : Q) : bool := Qle_bool x y.

(** [min(a, b)] and [max(a, b)]: the first argument wins a tie. *)
Definition py_min (a b : Q) : Q := if fltb b a then b else a.
Definition py_max (a b : Q) : Q := if fltb a b then b else a.

(** [sum(xs)] over floats. *)
Definition py_sum (xs : list Q) : Q := foldl Qplus 0%Q xs.

(** [round(x)] to an integer, ties to even, and [round(x, 2)]. *)
Definition round_half_even (q : Q) : Z :=
  let f := Qfloor q in
  let r := (q - inject_Z f)%Q in
  if fltb r (1 # 2) then f
  else if fltb (1 # 2) r then f + 1
  else if Z.even f then f else f + 1.

Definition round2 (q : Q) : Q := (inject_Z (round_half_even (q * 100)) / 100)%Q.

(** [list.sort(key=..., reverse=...)]: a stable insertion sort that, like
    Python's, only ever asks whether one key is strictly below another.
    [goes_before reverse y x] says that [y] has to stay in front of an [x]
    that stood before it in the input. *)
Section py_sort.
Context {A K : Type} (ltb : K → K → bool) (key : A → K).

Definition goes_before (reverse : bool) (y x : A) : bool :=
  if reverse then ltb (key x) (key y) else ltb (key y) (key x).

Fixpoint sort_insert (reverse : bool) (x : A) (l : list A) : list A :=
  match l with
  | [] => [x]
  | y :: l' =>
      if goes_before reverse y x then y :: sort_insert reverse x l'
      else x :: l
  end.

Definition py_sort_by (reverse : bool) (l : list A) : list A :=
  foldr (sort_insert reverse) [] l.

(** [max(xs, key=...)]: the first element whose key is maximal. *)
Definition py_max_by (x0 : A) (xs : list A) : A :=
  foldl (λ best x, if ltb (key best) (key x) then x else best) x0 xs.

(** A list in which no element has to move in front of its left neighbour:
    the sort leaves such a list alone. *)
Fixpoint in_order (reverse : bool) (l : list A) : Prop :=
  match l with
  | [] => True
  | x :: l' =>
      match l' with
      | [] => True
      | y :: _ => goes_before reverse y x = false
      end ∧ in_order reverse l'
  end.
End py_sort.

Definition py_sort {A} (key : A → Q) (reverse : bool) (l : list A) : list A :=
  py_sort_by fltb key reverse l.

(** [list.remove(x)]: drops the first occurrence. *)
Fixpoint list_remove (x : Z) (l : list Z) : list Z :=
  match l with
  | [] => []
  | y :: l' => if decide (x = y) then l' else y :: list_remove x l'
  end.

(** Insertion-ordered dicts with integer keys. *)
Fixpoint dict_set {V} (k : Z) (v : V) (d : list (Z * V)) : list (Z * V) :=
  match d with
  | [] => [(k, v)]
  | (k', v') :: d' =>
      if decide (k = k') then (k, v) :: d' else (k', v') :: dict_set k v d'
  end.

Fixpoint dict_get {V} (k : Z) (d : list (Z * V)) : option V :=
  match d with
  | [] => None
  | (k', v') :: d' => if decide (k = k') then Some v' else dict_get k d'
  end.

(** [d.setdefault(k, []).append(x)] *)
Definition setdefault_append {K V} `{Countable K}
    (k : K) (x : V) (m : gmap K (list V)) : gmap K (list V) :=
  <[ k := default [] (m !! k) ++ [x] ]> m.

(** A left fold whose step can raise. *)
Fixpoint foldlM {A B} (f : B → A → option B) (b : B) (l : list A) : option B :=
  match l with
  | [] => Some b
  | x :: l' => b' ← f b x; foldlM f b' l'
  end.

(** ** Data model *)

(** A numeric field that the upstream API ships as text: [float(raw)] is
    guarded by [try/except (TypeError, ValueError)] everywhere it is read. *)
Inductive field :=
| Absent                (* the key is missing or holds None *)
| Malformed             (* float(raw) raises TypeError or ValueError *)
| Num (q : Q).          (* float(raw) returns q *)

(** [float(raw) if raw is not None else 0.0], inside its [try]. *)
Definition parse_field (raw : field) : Q :=
  match raw with
  | Num q => q
  | Absent | Malformed => 0%Q
  end.

(** The ownership value as [ownership_index] meets it: a [field], or an
    integer beyond the float range.  On the latter [float(raw)] raises
    OverflowError, which [except (TypeError, ValueError)] does not catch. *)
Inductive raw_number :=
| Field (f : field)
| Overflows.

(** The same expression with its [try/except (TypeError, ValueError)]
    around it: [None] is the exception that gets through. *)
Definition guarded_float (raw : raw_number) : option Q :=
  match raw with
  | Field f => Some (parse_field f)
  | Overflows => None
  end.

Record element := {
  id : option Z;
  element_type : option Z;
  team : option Z;
  now_cost : option Z;
  form : field;
  ict_index : field;
  minutes : option Q;
  selected_by_percent : raw_number;
}.

(** The [{}] that [elem_by_id.get(eid, {})] falls back to. *)
Definition no_element : element :=
  {| id := None; element_type := None; team := None; now_cost := None;
     form := Absent; ict_index := Absent; minutes := None;
     selected_by_percent := Field Absent |}.

Record team_rec := { team_id : option Z; strength : option Z }.

Record fixture := { team_h : option Z; team_a : option Z }.

Record fixture_row := {
  was_home : bool;
  opponent_team : option Z;
  opponent_strength : option Z;
}.

Record pick := {
  pick_element : Z;
  multiplier : Z;
  is_captain : bool;
  is_vice_captain : bool;
}.

(** [int(x or d)] for an optional integer: None and 0 both give [d]. *)
Definition int_or (d : Z) (x : option Z) : Z :=
  match x with
  | Some v => if decide (v = 0) then d else v
  | None => d
  end.

(** [{int(e.get("id")): e for e in elements}]; [int(None)] raises. *)
Definition index_by {A} (key : A → option Z) (xs : list A) : option (gmap Z A) :=
  foldlM (λ m x, k ← key x; Some (<[ k := x ]> m)) ∅ xs.

(** ** Scoring primitives *)

(** [math.exp] comes from outside the repository and is a parameter of
    the model: any function whose value at every argument is a positive
    rational, given by its numerator and its denominator. *)
Record libm := {
  exp_num : Q → positive;
  exp_den : Q → positive;
}.

Definition exp (M : libm) (x : Q) : Q := Z.pos (exp_num M x) # exp_den M x.

Definition _nz (x : option Q) (default : Q) : Q :=
  match x with
  | Some v => v
  | None => default
  end.

Definition _norm (x lo hi : Q) : Q :=
  if Qeq_bool hi lo then 0%Q
  else
    let '(lo_, hi_) := if fleb lo hi then (lo, hi) else (hi, lo) in
    let v := ((x - lo_) / (hi_ - lo_))%Q in
    if fltb v 0 then 0%Q
    else if fltb 1 v then 1%Q
    else v.

Definition position_table : gmap Z string :=
  {[ 1 := "GK"; 2 := "DEF"; 3 := "MID"; 4 := "FWD" ]}.

Definition position_code (element_type : Z) : string :=
  default "MID" (position_table !! element_type).

Definition MIN_BY_POS : gmap string nat :=
  {[ "GK" := 1; "DEF" := 3; "MID" := 2; "FWD" := 1 ]}%nat.
Definition MAX_BY_POS : gmap string nat :=
  {[ "GK" := 1; "DEF" := 5; "MID" := 5; "FWD" := 3 ]}%nat.

(** [sum(1 for i in ids if positions.get(i) == pos)] *)
Definition count_pos (positions : gmap Z string) (pos : string) (ids : list Z) : nat :=
  length (filter (λ i, positions !! i = Some pos) ids).

Definition formation_str (ids : list Z) (positions : gmap Z string) : string :=
  pretty (count_pos positions "DEF" ids) +:+ "-" +:+
  pretty (count_pos positions "MID" ids) +:+ "-" +:+
  pretty (count_pos positions "FWD" ids).

Section scoring.
Variable M : libm.

Definition _sigmoid (x : Q) : Q :=
  if fleb 50 x then 1%Q
  else if fleb x (-50) then 0%Q
  else (1 / (1 + exp M (- x)))%Q.

Definition expected_points_delta
    (player : element) (opponent_strength : Z) (recent_minutes : Q) : Q :=
  let form := parse_field (form player) in
  let ict := parse_field (ict_index player) in
  let form_n := _norm form 0 10 in
  let ict_n := _norm ict 0 20 in
  let mix := ((6 # 10) * form_n + (4 # 10) * ict_n)%Q in
  let m := _sigmoid ((recent_minutes - 120) / 60)%Q in
  let d := _norm (inject_Z opponent_strength) 5 1 in
  (6 * mix * m * d)%Q.

Definition aggregate_epdelta_for_fixtures
    (player : element) (fixtures_rows : list fixture_row)
    (teams_idx : gmap Z team_rec) : Q :=
  let pid_minutes := py_min (_nz (minutes player) 0) 180 in
  let total :=
    foldl (λ total fx,
             let opp_strength := int_or 3 (opponent_strength fx) in
             (total + expected_points_delta player opp_strength pid_minutes)%Q)
          0%Q fixtures_rows in
  if (1 <? length fixtures_rows)%nat then (total * (11 # 10))%Q else total.
End scoring.

(** ** Squad selector *)

Definition by_pos_init : gmap string (list (Z * Q)) :=
  {[ "GK" := []; "DEF" := []; "MID" := []; "FWD" := [] ]}.

(** The first loop of [choose_starting_xi]. *)
Definition group_by_pos (ep_by_player : list (Z * Q)) (positions : gmap Z string)
    : gmap string (list (Z * Q)) :=
  foldl (λ by_pos '(pid, ep),
           setdefault_append (default "MID" (positions !! pid)) (pid, ep) by_pos)
        by_pos_init ep_by_player.

(** Step B for one position: meet its minimum. *)
Definition meet_minimum (by_pos : gmap string (list (Z * Q)))
    (st : list Z * gmap string nat) (pos : string)
    : option (list Z * gmap string nat) :=
  let '(selected, counts) := st in
  need ← MIN_BY_POS !! pos;
  grp ← by_pos !! pos;
  c ← counts !! pos;
  let pool := filter (λ pid, pid ∉ selected) grp.*1 in
  Some (selected ++ take need pool,
        <[ pos := (c + min (length pool) need)%nat ]> counts).

(** Step C: the loop over the sorted candidates, with its [break]. *)
Fixpoint fill_remaining (positions : gmap Z string) (candidates : list (Z * Q))
    (selected : list Z) (counts : gmap string nat)
    : option (list Z * gmap string nat) :=
  match candidates with
  | [] => Some (selected, counts)
  | (pid, _) :: rest =>
      if (11 <=? length selected)%nat then Some (selected, counts)
      else
        pos ← positions !! pid;
        c ← counts !! pos;
        mx ← MAX_BY_POS !! pos;
        if (c <? mx)%nat
        then fill_remaining positions rest (selected ++ [pid]) (<[ pos := (c + 1)%nat ]> counts)
        else fill_remaining positions rest selected counts
  end.

Definition choose_starting_xi
    (ep_by_player : list (Z * Q)) (positions : gmap Z string)
    : option (list Z * list Z) :=
  let by_pos := py_sort snd true <$> group_by_pos ep_by_player positions in
  let counts : gmap string nat :=
    {[ "GK" := 0; "DEF" := 0; "MID" := 0; "FWD" := 0 ]}%nat in
  (* A) exactly one GK *)
  gks ← by_pos !! "GK";
  let '(selected, counts) :=
    match gks with
    | (gk, _) :: _ => ([gk], <[ "GK" := 1%nat ]> counts)
    | [] => ([], counts)
    end in
  (* B) meet minima for outfield *)
  '(selected, counts) ← foldlM (meet_minimum by_pos) (selected, counts) ["DEF"; "MID"; "FWD"];
  (* C) fill remaining to 11 respecting MAX *)
  defs ← by_pos !! "DEF";
  mids ← by_pos !! "MID";
  fwds ← by_pos !! "FWD";
  let candidates :=
    filter (λ x : Z * Q, x.1 ∉ selected) (defs ++ mids ++ fwds) in
  let candidates := py_sort snd true candidates in
  '(selected, counts) ← fill_remaining positions candidates selected counts;
  (* Bench = all others (order: outfield ascending EP, GK last) *)
  let all_ids := ep_by_player.*1 in
  let bench := filter (λ pid, pid ∉ selected) all_ids in
  let outfield_bench := filter (λ pid, positions !! pid ≠ Some "GK") bench in
  let gk_bench := filter (λ pid, positions !! pid = Some "GK") bench in
  let outfield_bench :=
    py_sort (λ pid, default 0%Q (dict_get pid ep_by_player)) false outfield_bench in
  Some (selected, take 3 outfield_bench ++ take 1 gk_bench).

(** ** Captaincy and chips *)

Definition recommend_captain_from_ids
    (starting_ids : list Z) (per_player_ep : list (Z * Q))
    (ownership_idx : gmap Z Q) (positions : gmap Z string) (mode : string)
    : Z * Z :=
  let starters := filter (λ pid, positions !! pid ≠ Some "GK") starting_ids in
  let scored :=
    (λ pid,
       let own := default 0%Q (ownership_idx !! pid) in
       let base := default 0%Q (dict_get pid per_player_ep) in
       let score :=
         if decide (mode = "safe")
         then (base * (1 + py_min own 80 / 100))%Q
         else (base * (1 + py_max 0 (20 - py_min own 20) / 25))%Q in
       (pid, score, base)) <$> starters in
  match scored with
  | [] => (0, 0)
  | _ :: _ =>
      match py_sort (λ x : Z * Q * Q, x.1.2) true scored with
      | [] => (0, 0)
      | ((top_pid, top_score, top_base) :: rest) as scored =>
          let top_pid :=
            if fltb top_base (8 # 10)
            then (py_max_by fltb (λ x : Z * Q * Q, x.2)
                    (top_pid, top_score, top_base) rest).1.1
            else top_pid in
          let vice_pid :=
            default 0 (head (filter (λ pid, pid ≠ top_pid) scored.*1.*1)) in
          (top_pid, vice_pid)
      end
  end.

Record chip_eval := {
  bench_boost_gain : Q;
  triple_captain_gain : Q;
}.

Definition evaluate_chips
    (per_player_ep : list (Z * Q)) (captain_id : Z) (bench_ids : list Z)
    : chip_eval :=
  let bench_ep :=
    py_sum ((λ pid, default 0%Q (dict_get pid per_player_ep)) <$> bench_ids) in
  let cap_ep := default 0%Q (dict_get captain_id per_player_ep) in
  {| bench_boost_gain := bench_ep; triple_captain_gain := cap_ep |}.

(** ** Gameweek planner *)

(** The entries of the action list.  Each constructor carries the keys of
    its dict that depend on the input; the constant keys are functions of the
    constructor ([action_type], [action_group]).  The free-text [reason] and the
    fixture context copied into a swap ([factors], [in_fixture],
    [out_fixture]) are presentation only and are left out, as are the two
    summary strings of the plan. *)
Inductive action :=
| Swap (priority : Z) (bundle_id : string) (in_player out_player : Z)
       (ep_in ep_out delta_ep : Q)
| SetCaptain (priority : Z) (player : Z) (old_player : option Z)
             (ep_new : Q) (ep_old : option Q) (delta_ep : Q)
             (captain_mode : string)
| SetVice (priority : Z) (player : Z) (old_player : option Z)
| Chip (priority : Z) (chip : string) (reason_code : option string)
       (bench_boost_gain triple_captain_gain : Q)
       (bench_boost_threshold triple_captain_threshold : Q).

Definition action_type (a : action) : string :=
  match a with
  | Swap _ _ _ _ _ _ _ => "swap"
  | SetCaptain _ _ _ _ _ _ _ => "set_captain"
  | SetVice _ _ _ => "set_vice"
  | Chip _ _ _ _ _ _ _ => "chip"
  end.

Definition action_group (a : action) : string :=
  match a with
  | Swap _ _ _ _ _ _ _ => "lineup"
  | SetCaptain _ _ _ _ _ _ _ | SetVice _ _ _ => "captaincy"
  | Chip _ _ _ _ _ _ _ => "chip"
  end.

Definition action_priority (a : action) : Z :=
  match a with
  | Swap p _ _ _ _ _ _ | SetCaptain p _ _ _ _ _ _ | SetVice p _ _
  | Chip p _ _ _ _ _ _ => p
  end.

Definition action_bundle_id (a : action) : option string :=
  match a with
  | Swap _ b _ _ _ _ _ => Some b
  | _ => None
  end.

Definition action_reason_code (a : action) : option string :=
  match a with
  | Swap _ _ _ _ _ _ _ => Some "higher_ep"
  | SetCaptain _ _ _ _ _ _ _ => Some "highest_captain_score"
  | SetVice _ _ _ => Some "second_best_captain"
  | Chip _ _ reason_code _ _ _ _ => reason_code
  end.

Definition action_chip (a : action) : option string :=
  match a with
  | Chip _ chip _ _ _ _ _ => Some chip
  | _ => None
  end.

Record plan := {
  formation_current : string;
  formation_optimal : string;
  current_start : list Z;
  current_bench : list Z;
  optimal_start : list Z;
  optimal_bench : list Z;
  captain : Z;
  vice_captain : Z;
  ep_total_current : Q;
  ep_total_optimal : Q;
  ep_gain_lineup : Q;
  bench_ep_total : Q;
  plan_chip_eval : chip_eval;
  per_player_ep : list (Z * Q);
  actions : list action;
}.

Definition no_team : team_rec := {| team_id := None; strength := None |}.

(** [ep_by_player.get(pid, 0.0)] *)
Definition ep_of (ep_by_player : list (Z * Q)) (pid : Z) : Q :=
  default 0%Q (dict_get pid ep_by_player).

(** Positions per player, for all picked players. *)
Definition positions_of (picks : list pick) (elem_by_id : gmap Z element)
    : gmap Z string :=
  foldl (λ positions p,
           let eid := pick_element p in
           let e := default no_element (elem_by_id !! eid) in
           <[ eid := position_code (int_or 0 (element_type e)) ]> positions)
        ∅ picks.

(** Fixtures per team in this gameweek. *)
Definition fixtures_by_team_of (fixtures_gw : list fixture) (team_idx : gmap Z team_rec)
    : gmap Z (list fixture_row) :=
  foldl (λ by_team fx,
           let th := int_or 0 (team_h fx) in
           let ta := int_or 0 (team_a fx) in
           let by_team :=
             setdefault_append th
               {| was_home := true; opponent_team := Some ta;
                  opponent_strength :=
                    Some (int_or 3 (strength (default no_team (team_idx !! ta)))) |}
               by_team in
           setdefault_append ta
             {| was_home := false; opponent_team := Some th;
                opponent_strength :=
                  Some (int_or 3 (strength (default no_team (team_idx !! th)))) |}
             by_team)
        ∅ fixtures_gw.

(** The promotion loop of the goalkeeper repair, with its [break]. *)
Fixpoint promote_first (outfield_bench current_start current_bench : list Z)
    : list Z * list Z :=
  match outfield_bench with
  | [] => (current_start, current_bench)
  | pid :: rest =>
      if bool_decide (pid ∉ current_start) && (length current_start <? 11)%nat
      then (current_start ++ [pid], list_remove pid current_bench)
      else promote_first rest current_start current_bench
  end.

(** Coerce to legal: with more than one GK in the current XI, bench the
    lower-EP ones and promote the best outfielder from the bench. *)
Definition repair_current (positions : gmap Z string) (ep_by_player : list (Z * Q))
    (current_start current_bench : list Z) : list Z * list Z :=
  let current_gks := filter (λ pid, positions !! pid = Some "GK") current_start in
  if (1 <? length current_gks)%nat then
    let current_gks := py_sort (ep_of ep_by_player) true current_gks in
    let '(current_start, current_bench) :=
      foldl (λ '(cs, cb) g, (list_remove g cs, cb ++ [g]))
            (current_start, current_bench) (drop 1 current_gks) in
    let outfield_bench :=
      filter (λ pid, positions !! pid ≠ Some "GK") current_bench in
    let outfield_bench := py_sort (ep_of ep_by_player) true outfield_bench in
    promote_first outfield_bench current_start current_bench
  else (current_start, current_bench).

Definition is_legal_start (positions : gmap Z string) (starters : list Z) : bool :=
  if negb (length starters =? 11)%nat then false
  else
    let g := count_pos positions "GK" starters in
    let d := count_pos positions "DEF" starters in
    let m := count_pos positions "MID" starters in
    let f := count_pos positions "FWD" starters in
    if negb (g =? 1)%nat then false
    else if ((d <? MIN_BY_POS !!! "DEF") || (m <? MIN_BY_POS !!! "MID")
             || (f <? MIN_BY_POS !!! "FWD"))%nat then false
    else if ((MAX_BY_POS !!! "DEF" <? d) || (MAX_BY_POS !!! "MID" <? m)
             || (MAX_BY_POS !!! "FWD" <? f))%nat then false
    else true.

(** Candidate pairs (in, out, delta) with an EP gain of at least 0.20. *)
Definition swap_pairs (ep_by_player : list (Z * Q)) (start_in bench_out : list Z)
    : list (Z * Z * Q) :=
  i ← start_in;
  o ← bench_out;
  let delta := (ep_of ep_by_player i - ep_of ep_by_player o)%Q in
  if fleb (20 # 100) delta then [(i, o, delta)] else [].

Record swap_state := {
  chosen_pairs : list (Z * Z * Q);
  used_in : gset Z;
  used_out : gset Z;
  trial_start : list Z;
}.

(** Greedy legality-preserving selection of swaps. *)
Definition choose_pairs (positions : gmap Z string) (current_start : list Z)
    (pairs : list (Z * Z * Q)) : list (Z * Z * Q) :=
  chosen_pairs
    (foldl (λ st '(i, o, d),
              if bool_decide (i ∈ used_in st) || bool_decide (o ∈ used_out st)
              then st
              else
                let nxt := filter (λ pid, pid ≠ o) (trial_start st) ++ [i] in
                if is_legal_start positions nxt
                then {| chosen_pairs := chosen_pairs st ++ [(i, o, d)];
                        used_in := {[ i ]} ∪ used_in st;
                        used_out := {[ o ]} ∪ used_out st;
                        trial_start := nxt |}
                else st)
           {| chosen_pairs := []; used_in := ∅; used_out := ∅;
              trial_start := current_start |}
           pairs).

(** The swap actions: one bundle, priorities 10, 11, ... *)
Definition swap_actions (gw : Z) (ep_by_player : list (Z * Q))
    (chosen : list (Z * Z * Q)) : list action :=
  let bundle_id := "lineup-" +:+ pretty gw +:+ "-1" in
  (foldl (λ '(actions, prio) '(i, o, d),
            (actions ++ [Swap prio bundle_id i o
                           (round2 (ep_of ep_by_player i))
                           (round2 (ep_of ep_by_player o))
                           (round2 d)],
             prio + 1))
         ([], 10) chosen).1.

(** [x if x else None] and the truth value of an optional id. *)
Definition truthy (x : option Z) : option Z :=
  match x with
  | Some v => if decide (v = 0) then None else Some v
  | None => None
  end.

Definition captaincy_actions (ep_by_player : list (Z * Q)) (mode : string)
    (captain vice : Z) (curr_cap curr_vc : option Z) : list action :=
  (if bool_decide (captain ≠ 0 ∧ Some captain ≠ curr_cap) then
     let old_ep := match truthy curr_cap with
                   | Some c => ep_of ep_by_player c
                   | None => 0%Q
                   end in
     [SetCaptain 50 captain (truthy curr_cap)
        (round2 (ep_of ep_by_player captain))
        ((λ c, round2 (ep_of ep_by_player c)) <$> truthy curr_cap)
        (round2 (ep_of ep_by_player captain - old_ep))
        mode]
   else []) ++
  (if bool_decide (vice ≠ 0 ∧ Some vice ≠ curr_vc) then
     [SetVice 60 vice (truthy curr_vc)]
   else []).

Definition chip_action (ce : chip_eval) : action :=
  let bench_boost_threshold := 12%Q in
  let triple_captain_threshold := 4%Q in
  let '(chip_type, why_code) :=
    if fleb bench_boost_threshold (bench_boost_gain ce)
    then ("BB", "bench_boost_value")
    else if fleb triple_captain_threshold (triple_captain_gain ce)
    then ("TC", "triple_captain_value")
    else ("NONE", "below_threshold") in
  Chip 90 chip_type
       (if decide (why_code = "below_threshold") then Some "below_threshold" else None)
       (round2 (bench_boost_gain ce)) (round2 (triple_captain_gain ce))
       bench_boost_threshold triple_captain_threshold.

Section planner.
Variable M : libm.

(** EPΔ per player, rounded to 2 decimals. *)
Definition ep_by_player_of (picks : list pick) (elem_by_id : gmap Z element)
    (team_idx : gmap Z team_rec)
    (fixtures_by_team : gmap Z (list fixture_row)) : list (Z * Q) :=
  foldl (λ ep_by_player p,
           let eid := pick_element p in
           let e := default no_element (elem_by_id !! eid) in
           let team_id := int_or 0 (team e) in
           let fx_rows := default [] (fixtures_by_team !! team_id) in
           let ep := aggregate_epdelta_for_fixtures M e fx_rows team_idx in
           dict_set eid (round2 ep) ep_by_player)
        [] picks.

Definition plan_gameweek
    (picks : list pick) (elements : list element) (teams : list team_rec)
    (fixtures_gw : list fixture) (gw : Z) (ownership_idx : gmap Z Q)
    (mode : string) : option plan :=
  elem_by_id ← index_by id elements;
  team_idx ← index_by team_id teams;
  let positions := positions_of picks elem_by_id in
  let fixtures_by_team := fixtures_by_team_of fixtures_gw team_idx in
  let ep_by_player := ep_by_player_of picks elem_by_id team_idx fixtures_by_team in
  (* Current start/bench from picks *)
  let current_start :=
    pick_element <$> filter (λ p, 0 < multiplier p) picks in
  let current_bench :=
    pick_element <$> filter (λ p, multiplier p ≤ 0) picks in
  let '(current_start, current_bench) :=
    repair_current positions ep_by_player current_start current_bench in
  (* Optimal XI and bench *)
  '(optimal_start, optimal_bench) ← choose_starting_xi ep_by_player positions;
  let formation_current := formation_str current_start positions in
  let formation_optimal := formation_str optimal_start positions in
  let ep_total_current := py_sum (ep_of ep_by_player <$> current_start) in
  let ep_total_optimal := py_sum (ep_of ep_by_player <$> optimal_start) in
  let ep_gain_lineup := (ep_total_optimal - ep_total_current)%Q in
  let bench_ep_total := py_sum (ep_of ep_by_player <$> optimal_bench) in
  let '(captain, vice) :=
    recommend_captain_from_ids optimal_start ep_by_player ownership_idx positions mode in
  let chip_eval := evaluate_chips ep_by_player captain optimal_bench in
  let curr_cap := head (pick_element <$> filter (λ p, is_captain p = true) picks) in
  let curr_vc := head (pick_element <$> filter (λ p, is_vice_captain p = true) picks) in
  (* Greedy pairing of start_in vs bench_out by EP gain *)
  let start_in := filter (λ pid, pid ∉ current_start) optimal_start in
  let bench_out := filter (λ pid, pid ∉ optimal_start) current_start in
  let pairs :=
    py_sort (λ t : Z * Z * Q, t.2) true (swap_pairs ep_by_player start_in bench_out) in
  let chosen := choose_pairs positions current_start pairs in
  let actions :=
    swap_actions gw ep_by_player chosen ++
    captaincy_actions ep_by_player mode captain vice curr_cap curr_vc ++
    [chip_action chip_eval] in
  Some {| formation_current := formation_current;
          formation_optimal := formation_optimal;
          current_start := current_start;
          current_bench := current_bench;
          optimal_start := optimal_start;
          optimal_bench := optimal_bench;
          captain := captain;
          vice_captain := vice;
          ep_total_current := ep_total_current;
          ep_total_optimal := ep_total_optimal;
          ep_gain_lineup := ep_gain_lineup;
          bench_ep_total := bench_ep_total;
          plan_chip_eval := chip_eval;
          per_player_ep := ep_by_player;
          actions := actions |}.
End planner.

(** ** Ownership index *)

(** [idx[int(e.get("id"))] = float(raw)], the parse guarded by its [try].
    Two exceptions get through: [int(e.get("id"))] stands outside the [try]
    and raises on a record whose id is missing, null (TypeError) or no
    integer (ValueError), that is on [id e = None]; and the OverflowError of
    [float(raw)] on an integer beyond the float range is not among the
    exceptions that the [try] catches. *)
Definition ownership_index (elements : list element) : option (gmap Z Q) :=
  foldlM (λ idx e,
            pid ← id e;
            v ← guarded_float (selected_by_percent e);
            Some (<[ pid := v ]> idx))
         ∅ elements.

(** ** Transfer advisor *)

Record pick_row := {
  row_element : Z;
  row_multiplier : Z;
  row_player : option element;        (* None: no such player *)
  row_fixture : option fixture_row;   (* None: the empty dict *)
}.

Record player_meta_rec := {
  meta_now_cost : Z;
  meta_element_type : Z;
  meta_team : Z;
}.

Definition player_meta (elem_by_id : gmap Z element) (element_id : Z)
    : player_meta_rec :=
  let e := default no_element (elem_by_id !! element_id) in
  {| meta_now_cost := int_or 0 (now_cost e);
     meta_element_type := int_or 0 (element_type e);
     meta_team := int_or 0 (team e) |}.

Record suggestion := {
  sug_out : Z;
  sug_in : Z;
  epdelta_out : Q;
  epdelta_in : Q;
}.

(** The running simulated state of the outer loop.  [st_in_meta] is the
    Python variable [in_meta]: the inner loop rebinds it at every candidate it
    visits, and the bookkeeping after the loop reads whatever it holds then. *)
Record transfer_state := {
  suggestions : list suggestion;
  squad_ids : gset Z;
  team_counts : gmap Z Z;
  st_bank : Z;
  st_in_meta : option player_meta_rec;
}.

(** The inner loop: filter legal candidates by constraints. *)
Definition legal_candidates_of (elem_by_id : gmap Z element)
    (candidate_scores : list (Z * Q)) (team_counts : gmap Z Z)
    (bank allowance : Z) (out_pos : string) (out_cost out_team : Z) (out_epd : Q)
    (in_meta0 : option player_meta_rec)
    : list (Z * Q) * option player_meta_rec :=
  foldl (λ '(legal, _) '(in_id, in_epd),
           let in_meta := player_meta elem_by_id in_id in
           let keep :=
             if bool_decide (position_code (meta_element_type in_meta) ≠ out_pos)
             then false
             else
               let in_team := meta_team in_meta in
               let team_count := default 0 (team_counts !! in_team) in
               if bool_decide (in_team ≠ out_team) && (3 <=? team_count) then false
               else
                 let in_cost := meta_now_cost in_meta in
                 if bank + allowance <? in_cost - out_cost then false
                 else if fleb in_epd out_epd then false
                 else true in
           (if keep then legal ++ [(in_id, in_epd)] else legal, Some in_meta))
        ([], in_meta0) candidate_scores.

(** One round of the outer loop, for the sell candidate [out_id]. *)
Definition suggest_step (elem_by_id : gmap Z element)
    (current_scored candidate_scores : list (Z * Q)) (allowance : Z)
    (st : transfer_state) (out_id : Z) : option transfer_state :=
  let out_meta := player_meta elem_by_id out_id in
  let out_pos := position_code (meta_element_type out_meta) in
  let out_cost := meta_now_cost out_meta in
  let out_team := meta_team out_meta in
  let out_epd := default 0%Q (dict_get out_id current_scored) in
  let '(legal_candidates, in_meta) :=
    legal_candidates_of elem_by_id candidate_scores (team_counts st)
      (st_bank st) allowance out_pos out_cost out_team out_epd (st_in_meta st) in
  match py_sort snd true legal_candidates with
  | [] =>
      Some {| suggestions := suggestions st; squad_ids := squad_ids st;
              team_counts := team_counts st; st_bank := st_bank st;
              st_in_meta := in_meta |}
  | (in_id, in_epd) :: _ =>
      in_meta ← in_meta;
      let team_counts :=
        <[ out_team := Z.max 0 (default 0 (team_counts st !! out_team) - 1) ]>
          (team_counts st) in
      let team_counts :=
        <[ meta_team in_meta := default 0 (team_counts !! meta_team in_meta) + 1 ]>
          team_counts in
      Some {| suggestions :=
                suggestions st ++
                [{| sug_out := out_id; sug_in := in_id;
                    epdelta_out := out_epd; epdelta_in := in_epd |}];
              squad_ids := {[ in_id ]} ∪ (squad_ids st ∖ {[ out_id ]});
              team_counts := team_counts;
              st_bank := st_bank st - (meta_now_cost in_meta - out_cost);
              st_in_meta := Some in_meta |}
  end.

Section transfers.
Variable M : libm.

(** EPΔ for the starting XI only. *)
Definition current_scored_of (pick_rows : list pick_row) : list (Z * Q) :=
  foldl (λ scored row,
           if bool_decide (row_multiplier row ≤ 0) then scored
           else
             match row_player row, row_fixture row with
             | Some player, Some fx =>
                 let opp := int_or 3 (opponent_strength fx) in
                 let minutes_proxy := py_min (_nz (minutes player) 0) 180 in
                 scored ++
                 [(row_element row,
                   expected_points_delta M player opp minutes_proxy)]
             | _, _ => scored
             end)
        [] pick_rows.

(** Candidate scores against a neutral opponent. *)
Definition candidate_scores_of (elements : list element) (squad_ids : gset Z)
    : option (list (Z * Q)) :=
  foldlM (λ scores e,
            pid ← id e;
            if bool_decide (pid ∈ squad_ids) then Some scores
            else
              let minutes_proxy := py_min (_nz (minutes e) 0) 180 in
              Some (dict_set pid (expected_points_delta M e 3 minutes_proxy) scores))
         [] elements.

Definition suggest_transfers
    (pick_rows : list pick_row) (elements : list element)
    (ownership_idx : gmap Z Q) (mode : string) (bank bank_allowance : Z)
    : option (list suggestion) :=
  elem_by_id ← index_by id elements;
  let squad_ids : gset Z := list_to_set (row_element <$> pick_rows) in
  let team_counts : gmap Z Z :=
    foldl (λ counts pid,
             let tm := meta_team (player_meta elem_by_id pid) in
             <[ tm := default 0 (counts !! tm) + 1 ]> counts)
          ∅ (base.elements squad_ids) in
  let current_scored := py_sort snd false (current_scored_of pick_rows) in
  let to_replace := (take 3 current_scored).*1 in
  candidate_scores ← candidate_scores_of elements squad_ids;
  st ← foldlM (suggest_step elem_by_id current_scored candidate_scores bank_allowance)
        {| suggestions := []; squad_ids := squad_ids;
           team_counts := team_counts; st_bank := bank;
           st_in_meta := None |}
        to_replace;
  Some (suggestions st).
End transfers.

(** ** Linking the picks to their fixtures *)

(** An integer key that is read with [dict.get(key, d)] and passed to
    [int(...)] at once: a missing key gives the default, an explicit null
    raises TypeError. *)
Inductive json_int :=
| Missing
| Null
| Int (z : Z).

Definition get_int (d : Z) (x : json_int) : option Z :=
  match x with
  | Missing => Some d
  | Null => None
  | Int z => Some z
  end.

(** A fixture and a team of the bootstrap, as the upstream API ships them.
    [link_fixtures_for_manager] reads [team_h], [team_a] and [strength]
    with [int(d.get(key, v))]. *)
Record raw_fixture := {
  fx_event : option Z;
  fx_team_h : json_int;
  fx_team_a : json_int;
}.

Record raw_team := {
  rt_id : option Z;
  rt_strength : json_int;
}.

(** [plan_gameweek] reads the same three keys with [int(d.get(key, v) or v)],
    for which null is as good as a missing key: it sees a team as a
    [team_rec] and a fixture as a [fixture]. *)
Definition int_key (x : json_int) : option Z :=
  match x with
  | Int z => Some z
  | Missing | Null => None
  end.

Definition team_view (t : raw_team) : team_rec :=
  {| team_id := rt_id t; strength := int_key (rt_strength t) |}.

Definition fixture_view (f : raw_fixture) : fixture :=
  {| team_h := int_key (fx_team_h f); team_a := int_key (fx_team_a f) |}.

(** A row of the result: the pick with its two added keys.  [lr_player] is
    [None] for the null player, [lr_fixture_row] is [None] for the empty
    dict. *)
Record linked_row := {
  lr_pick : pick;
  lr_player : option element;
  lr_fixture_row : option fixture_row;
}.

(** The row as the analysis functions read it. *)
Definition as_pick_row (r : linked_row) : pick_row :=
  {| row_element := pick_element (lr_pick r);
     row_multiplier := multiplier (lr_pick r);
     row_player := lr_player r;
     row_fixture := lr_fixture_row r |}.

(** [{int(t.get("id")): int(t.get("strength", 3)) for t in teams}] *)
Definition team_strength_of (teams : list raw_team) : option (gmap Z Z) :=
  foldlM (λ m t,
            k ← rt_id t;
            s ← get_int 3 (rt_strength t);
            Some (<[ k := s ]> m))
         ∅ teams.

(** Fixtures by event; a fixture without event is skipped. *)
Definition fixtures_by_event_of (fixtures : list raw_fixture)
    : gmap Z (list raw_fixture) :=
  foldl (λ by_event f,
           match fx_event f with
           | None => by_event
           | Some ev => setdefault_append ev f by_event
           end)
        ∅ fixtures.

(** The search for the fixture of a team, with its two [break]s: the first
    fixture met in which the team plays, at home ([true]) or away, and the
    opponent.  Both team keys of a fixture are converted before they are
    compared, so a null in a fixture that the search reaches raises. *)
Fixpoint find_fixture (team_id : Z) (gw_fixtures : list raw_fixture)
    : option (option (bool * Z)) :=
  match gw_fixtures with
  | [] => Some None
  | f :: rest =>
      th ← get_int (-1) (fx_team_h f);
      ta ← get_int (-1) (fx_team_a f);
      if decide (team_id = th) then Some (Some (true, ta))
      else if decide (team_id = ta) then Some (Some (false, th))
      else find_fixture team_id rest
  end.

Definition link_fixtures_for_manager (gw : Z) (picks : list pick)
    (fixtures : list raw_fixture) (elements : list element)
    (teams : list raw_team) : option (list linked_row) :=
  elem_by_id ← index_by id elements;
  team_strength ← team_strength_of teams;
  let fixtures_by_event := fixtures_by_event_of fixtures in
  let gw_fixtures := default [] (fixtures_by_event !! gw) in
  foldlM (λ out pick,
            let pid := pick_element pick in
            match elem_by_id !! pid with
            | None =>
                Some (out ++ [{| lr_pick := pick; lr_player := None;
                                 lr_fixture_row := None |}])
            | Some player =>
                let team_id := int_or 0 (team player) in
                found ← find_fixture team_id gw_fixtures;
                let '(was_home, opponent_team) :=
                  match found with
                  | Some (home, opp) => (home, Some opp)
                  | None => (false, None)
                  end in
                let opponent_strength :=
                  opp ← opponent_team; team_strength !! opp in
                let fx_row :=
                  {| was_home := was_home; opponent_team := opponent_team;
                     opponent_strength := opponent_strength |} in
                Some (out ++ [{| lr_pick := pick; lr_player := Some player;
                                 lr_fixture_row := Some fx_row |}])
            end)
         [] picks.

(** ** The planner endpoint: guardrail validation *)

Inductive validation :=
| Valid
| Invalid (msg : string).

(** Positions as the endpoint derives them, for the ids of both lineups. *)
Definition derive_positions (elem_by_id : gmap Z element) (pids : list Z)
    : gmap Z string :=
  foldl (λ positions pid,
           let e := default no_element (elem_by_id !! pid) in
           <[ pid := position_code (int_or 0 (element_type e)) ]> positions)
        ∅ pids.

(** Tuples [(bundle_id or "", priority)] and their lexicographic [<]. *)
Definition swap_key (a : action) : string * Z :=
  (default "" (action_bundle_id a), action_priority a).

Definition tuple_ltb (a b : string * Z) : bool :=
  String.ltb a.1 b.1 || (String.eqb a.1 b.1 && (a.2 <? b.2)).

Definition is_swap (a : action) : bool :=
  match a with
  | Swap _ _ _ _ _ _ _ => true
  | _ => false
  end.

Definition swap_in (a : action) : Z :=
  match a with Swap _ _ i _ _ _ _ => i | _ => 0 end.
Definition swap_out (a : action) : Z :=
  match a with Swap _ _ _ o _ _ _ => o | _ => 0 end.

(** The loop over the sorted swaps: each one must take its [in_player] from
    the bench set and its [out_player] from the start set. *)
Fixpoint replay_swaps (swaps : list action) (start_set bench_set : gset Z)
    : string + gset Z :=
  match swaps with
  | [] => inr start_set
  | sw :: rest =>
      let inn := swap_in sw in
      let outn := swap_out sw in
      if bool_decide (inn ∉ bench_set) || bool_decide (outn ∉ start_set)
      then inl ("Invalid swap order: in=" +:+ pretty inn +:+ " out=" +:+ pretty outn)
      else
        let start_set := {[ inn ]} ∪ (start_set ∖ {[ outn ]}) in
        let bench_set := {[ outn ]} ∪ (bench_set ∖ {[ inn ]}) in
        if negb (size start_set =? 11)%nat
        then inl "Starters count must remain 11 after swap"
        else replay_swaps rest start_set bench_set
  end.

(** [sorted(xs)] for ids. *)
Definition sorted_ids (xs : list Z) : list Z := py_sort_by Z.ltb (λ x, x) false xs.

Definition planner_validation (elements : list element) (data : plan) : validation :=
  match index_by id elements with
  | None => Invalid "int() argument must be a string, a bytes-like object or a real number, not 'NoneType'"
  | Some elem_by_id =>
      let positions :=
        derive_positions elem_by_id (current_start data ++ optimal_start data) in
      let start_set : gset Z := list_to_set (current_start data) in
      let bench_set : gset Z := list_to_set (current_bench data) in
      let swaps := filter (λ a, is_swap a = true) (actions data) in
      let swaps := py_sort_by tuple_ltb swap_key false swaps in
      match replay_swaps swaps start_set bench_set with
      | inl msg => Invalid msg
      | inr start_set =>
          if bool_decide (sorted_ids (base.elements start_set) ≠ sorted_ids (optimal_start data))
          then Invalid "Swaps do not yield optimal_start"
          else if bool_decide (formation_str (optimal_start data) positions
                               ≠ formation_optimal data)
          then Invalid "formation_optimal does not match derived positions"
          else Valid
      end
  end.

Inductive response :=
| Response (data : plan)
| HTTP500 (detail : string).

Section endpoint.
Variable M : libm.

(** The planner endpoint from the point where the baseline picks, the
    bootstrap and all fixtures are at hand, up to its guardrail: the fixtures
    of the gameweek, the ownership index, the linked picks, the plan (which
    the response object then copies field by field) and the validation of
    the plan.  [None] is an exception that the endpoint does not catch;
    [Response data] says that the guardrail let the plan through. *)
Definition get_gameweek_planner
    (picks : list pick) (elements : list element) (teams : list raw_team)
    (fixtures_all : list raw_fixture) (gw : Z) (mode : string)
    : option response :=
  let fixtures_gw := filter (λ f, fx_event f = Some gw) fixtures_all in
  ownership ← ownership_index elements;
  linked ← link_fixtures_for_manager gw picks fixtures_all elements teams;
  data ← plan_gameweek M picks elements (team_view <$> teams)
           (fixture_view <$> fixtures_gw) gw ownership mode;
  match planner_validation elements data with
  | Invalid e => Some (HTTP500 ("Planner validation failed: " +:+ e))
  | Valid => Some (Response data)
  end.
End endpoint.

(** ** Captain score and the captain of the linked picks *)

Section captaincy.
Variable M : libm.

Definition captain_score (player : element) (fx_row : fixture_row)
    (ownership_pct : Q) (mode : string) : Q :=
  let recent_minutes := py_min (_nz (minutes player) 0) 180 in
  let opp_strength := int_or 3 (opponent_strength fx_row) in
  let base := expected_points_delta M player opp_strength recent_minutes in
  let adj :=
    if decide (mode = "safe")
    then (0 + (15 # 100) * _nz (Some ownership_pct) 0)%Q
    else if decide (mode = "aggressive")
    then (0 - (10 # 100) * _nz (Some ownership_pct) 0)%Q
    else 0%Q in
  let home_bonus := if was_home fx_row then (5 # 100)%Q else 0%Q in
  (base * (1 + adj + home_bonus))%Q.

(** The loop of the summary endpoint over the linked picks
    ([get_manager_gameweek_summary]), for any mode: the rows that it does
    not skip are the starters ([multiplier > 0]) with a player and a
    non-empty fixture row, each scored with [captain_score]. *)
Definition captain_scores (pick_rows : list pick_row) (ownership_idx : gmap Z Q)
    (mode : string) : list (Z * Q) :=
  foldl (λ scored row,
           if bool_decide (row_multiplier row ≤ 0) then scored
           else
             match row_player row, row_fixture row with
             | Some player, Some fx_row =>
                 let pid := row_element row in
                 let own := default 0%Q (ownership_idx !! pid) in
                 scored ++ [(pid, captain_score player fx_row own mode)]
             | _, _ => scored
             end)
        [] pick_rows.

Definition recommend_captain (pick_rows : list pick_row) (ownership_idx : gmap Z Q)
    (mode : string) : Z * Q :=
  foldl (λ '(best_elem, best_score) row,
           if bool_decide (row_multiplier row ≤ 0) then (best_elem, best_score)
           else
             match row_player row, row_fixture row with
             | Some player, Some fx_row =>
                 let pid := row_element row in
                 let own := default 0%Q (ownership_idx !! pid) in
                 let score := captain_score player fx_row own mode in
                 if fltb best_score score then (pid, score)
                 else (best_elem, best_score)
             | _, _ => (best_elem, best_score)
             end)
        (0, 0%Q) pick_rows.
End captaincy.

(** ** Template and differential picks *)



(** ** The endpoints: what they compute from the fetched data *)

(** The result of an awaited call or of a handler: a value, an
    [HTTPException], or any other exception. *)
Inductive outcome (A : Type) :=
| Returned (a : A)
| HTTPException (status_code : Z) (detail : string)
| OtherException.
Arguments Returned {A} a.
Arguments HTTPException {A} status_code detail.
Arguments OtherException {A}.

Record event := {
  event_id : option Z;
  event_is_current : bool;
  event_finished : bool;
}.

(** [max((int(e.get("id")) for e in events if e.get("is_current") or
    e.get("finished")), default=None)] *)
Definition last_live_of (events : list event) : option (option Z) :=
  ids ← mapM event_id
        (filter (λ e, event_is_current e || event_finished e = true) events);
  Some match ids with
       | [] => None
       | x :: xs => Some (foldl Z.max x xs)
       end.

Section baseline.
Context {A : Type}.
(** [fpl_client.manager_picks(tid, gw)], as the upstream answers during the
    request. *)
Variable manager_picks : Z → Z → outcome A.

(** The loop [while cur >= 1] of the [latest] strategy, on the natural number
    [cur]: a 404 steps down to the gameweek before, any other exception
    leaves the handler. *)
Fixpoint latest_picks (tid : Z) (cur : nat) : outcome (A * Z) :=
  match cur with
  | O => HTTPException 404 "Could not load any baseline picks for this team"
  | S cur' =>
      match manager_picks tid (Z.of_nat cur) with
      | Returned mp => Returned (mp, Z.of_nat cur)
      | HTTPException status_code detail =>
          if decide (status_code = 404) then latest_picks tid cur'
          else HTTPException status_code detail
      | OtherException => OtherException
      end
  end.

(** The head of the planner endpoint: the baseline picks [mp] and
    [picks_gw_used]. *)
Definition baseline_picks (tid gw : Z) (picks_strategy : string)
    (events : list event) : outcome (A * Z) :=
  if bool_decide (tid ≤ 0) || bool_decide (gw ≤ 0)
  then HTTPException 422 "Invalid tid/gw"
  else if decide (picks_strategy = "exact") then
    match manager_picks tid gw with
    | Returned mp => Returned (mp, gw)
    | HTTPException status_code detail => HTTPException status_code detail
    | OtherException => OtherException
    end
  else
    match last_live_of events with
    | None => OtherException
    | Some last_live =>
        match truthy last_live with
        | None =>
            HTTPException 502 "Cannot determine last live GW from bootstrap"
        | Some cur => latest_picks tid (Z.to_nat cur)
        end
    end.
End baseline.

(** The transfer suggestions of the planner endpoint. *)
Record transfer_suggestion := {
  out_element : Z;
  in_element : Z;
  epdelta_gain : Q;
}.

Definition MIN_GAIN : Q := 5 # 10.

Definition compact_suggestions (raw : list suggestion) : list transfer_suggestion :=
  (λ s, {| out_element := sug_out s; in_element := sug_in s;
           epdelta_gain := (epdelta_in s - epdelta_out s)%Q |}) <$> raw.

(** De-duplication by incoming player, with the minimal gain. *)
Definition dedup_suggestions (compact : list transfer_suggestion)
    : list transfer_suggestion :=
  (foldl (λ '(seen_in, dedup) s,
            if fltb (epdelta_gain s) MIN_GAIN || bool_decide (in_element s ∈ seen_in)
            then (seen_in, dedup)
            else ({[ in_element s ]} ∪ seen_in, dedup ++ [s]))
         ((∅ : gset Z), []) compact).2.

Definition round_gain (s : transfer_suggestion) : transfer_suggestion :=
  {| out_element := out_element s; in_element := in_element s;
     epdelta_gain := round2 (epdelta_gain s) |}.

Section planner_transfers.
Variable M : libm.

Definition planner_transfer_suggestions (linked : list linked_row)
    (elements : list element) (ownership : gmap Z Q) (mode : string)
    (entry_bank bank_override : option Z) (allow_hit : bool)
    : option (list transfer_suggestion) :=
  let bank := int_or 0 entry_bank in
  let bank := match bank_override with Some b => b | None => bank end in
  let allowance := if allow_hit then 4 else 0 in
  raw ← suggest_transfers M (as_pick_row <$> linked) elements ownership mode
          bank allowance;
  Some (round_gain <$> dedup_suggestions (compact_suggestions raw)).

(** The captain candidates of the summary endpoint: the three best safe
    captain scores among the starters. *)
Definition summary_captain_candidates (linked : list linked_row)
    (ownership : gmap Z Q) : list (Z * Q) :=
  take 3 (py_sort snd true
            (captain_scores M (as_pick_row <$> linked) ownership "safe")).
End planner_transfers.

(** ** Vocabulary of the statements *)

(** The swap action built from the [k]-th accepted pair. *)
Definition swap_action_at (gw : Z) (ep_by_player : list (Z * Q)) (prio : Z)
    (k : nat) (pair : Z * Z * Q) : action :=
  Swap (prio + Z.of_nat k) ("lineup-" +:+ pretty gw +:+ "-1") pair.1.1 pair.1.2
       (round2 (ep_of ep_by_player pair.1.1))
       (round2 (ep_of ep_by_player pair.1.2))
       (round2 pair.2).

(** The outfield starters, and the ownership-adjusted score of one of them,
    as [recommend_captain_from_ids] computes them. *)
Definition captain_candidates (positions : gmap Z string) (starting_ids : list Z)
    : list Z :=
  filter (λ pid, positions !! pid ≠ Some "GK") starting_ids.

Definition adjusted_score (per_player_ep : list (Z * Q)) (ownership_idx : gmap Z Q)
    (mode : string) (pid : Z) : Q :=
  let own := default 0%Q (ownership_idx !! pid) in
  let base := ep_of per_player_ep pid in
  if decide (mode = "safe")
  then (base * (1 + py_min own 80 / 100))%Q
  else (base * (1 + py_max 0 (20 - py_min own 20) / 25))%Q.

(** The counters leave room for every candidate of the list. *)
Definition room (positions : gmap Z string) (counts : gmap string nat)
    (ids : list Z) : Prop :=
  ∀ pos, pos ∈ ["DEF"; "MID"; "FWD"] →
    ∃ c mx, counts !! pos = Some c ∧ MAX_BY_POS !! pos = Some mx ∧
            (c + count_pos positions pos ids ≤ mx)%nat.

(** A valid 15-player squad: 15 distinct ids, of which the position map
    files 2 under GK, 5 under DEF, 5 under MID and 3 under FWD. *)
Definition valid_squad (ep_by_player : list (Z * Q)) (positions : gmap Z string)
    : Prop :=
  NoDup ep_by_player.*1 ∧
  length ep_by_player = 15%nat ∧
  count_pos positions "GK" ep_by_player.*1 = 2%nat ∧
  count_pos positions "DEF" ep_by_player.*1 = 5%nat ∧
  count_pos positions "MID" ep_by_player.*1 = 5%nat ∧
  count_pos positions "FWD" ep_by_player.*1 = 3%nat.

(** [player_meta(pid)["now_cost"]] *)
Definition cost_of (elem_by_id : gmap Z element) (pid : Z) : Z :=
  meta_now_cost (player_meta elem_by_id pid).

(** Applying one swap: its out_player leaves the set, its in_player joins. *)
Definition apply_swap (start : gset Z) (a : action) : gset Z :=
  {[ swap_in a ]} ∪ (start ∖ {[ swap_out a ]}).

(** The swap actions of an action list, in ascending priority order. *)
Definition swaps_by_priority (acts : list action) : list action :=
  py_sort_by Z.ltb action_priority false (filter (λ a, is_swap a = true) acts).

(** The starting set that the accepted swaps lead to from [current_start]. *)
Definition replayed_start (p : plan) : gset Z :=
  foldl apply_swap (list_to_set (current_start p)) (swaps_by_priority (actions p)).

(** The lineup after a list of swaps, as the greedy selection builds it. *)
Definition swap_lineup (start : list Z) (a : action) : list Z :=
  filter (λ pid, pid ≠ swap_out a) start ++ [swap_in a].

(** The swap actions of a plan. *)
Definition swaps_of (p : plan) : list action :=
  filter (λ a, is_swap a = true) (actions p).

(** The same lineup step on a candidate pair [(in, out, gain)]. *)
Definition pair_lineup (l : list Z) (t : Z * Z * Q) : list Z :=
  filter (λ pid, pid ≠ t.1.2) l ++ [t.1.1].

(** One round of the loop of [choose_pairs], and what holds after every
    round: the chosen pairs are among the pairs seen, no player comes in or
    goes out twice, and the trial lineup is the current XI after the chosen
    pairs, legal as soon as one pair is chosen. *)
Definition choose_step (positions : gmap Z string) (st : swap_state) (t : Z * Z * Q)
    : swap_state :=
  let '(i, o, d) := t in
  if bool_decide (i ∈ used_in st) || bool_decide (o ∈ used_out st)
  then st
  else
    let nxt := filter (λ pid, pid ≠ o) (trial_start st) ++ [i] in
    if is_legal_start positions nxt
    then {| chosen_pairs := chosen_pairs st ++ [(i, o, d)];
            used_in := {[ i ]} ∪ used_in st;
            used_out := {[ o ]} ∪ used_out st;
            trial_start := nxt |}
    else st.

Definition choose_inv (positions : gmap Z string) (current_start : list Z)
    (st : swap_state) (seen : list (Z * Z * Q)) : Prop :=
  chosen_pairs st `sublist_of` seen ∧
  (∀ i, i ∈ used_in st ↔ i ∈ (chosen_pairs st).*1.*1) ∧
  (∀ o, o ∈ used_out st ↔ o ∈ (chosen_pairs st).*1.*2) ∧
  NoDup (chosen_pairs st).*1.*1 ∧ NoDup (chosen_pairs st).*1.*2 ∧
  trial_start st = foldl pair_lineup current_start (chosen_pairs st) ∧
  (chosen_pairs st ≠ [] → is_legal_start positions (trial_start st) = true).

(** A value of [per_player_ep]. *)
Definition ep_value (v : Q) : Prop :=
  (0 <= v)%Q ∧ ∃ z : Z, v = (inject_Z z / 100)%Q.

(** What [choose_starting_xi] returns on a squad: the XI and the bench. *)
Definition selector_result (ep_by_player : list (Z * Q)) (positions : gmap Z string)
    (start bench : list Z) : Prop :=
  let squad := ep_by_player.*1 in
  NoDup start ∧ (∀ pid, pid ∈ start → pid ∈ squad) ∧
  (length start ≤ 11)%nat ∧
  count_pos positions "GK" start = min 1 (count_pos positions "GK" squad) ∧
  (min 3 (count_pos positions "DEF" squad) ≤ count_pos positions "DEF" start ≤ 5)%nat ∧
  (min 2 (count_pos positions "MID" squad) ≤ count_pos positions "MID" start ≤ 5)%nat ∧
  (min 1 (count_pos positions "FWD" squad) ≤ count_pos positions "FWD" start ≤ 3)%nat ∧
  ∃ outfield gk,
    bench = outfield ++ gk ∧ NoDup bench ∧
    (∀ pid, pid ∈ bench → pid ∈ squad ∧ pid ∉ start) ∧
    (length outfield ≤ 3)%nat ∧ (length gk ≤ 1)%nat ∧
    Forall (λ pid, positions !! pid ≠ Some "GK") outfield ∧
    Forall (λ pid, positions !! pid = Some "GK") gk ∧
    StronglySorted (λ a b, (ep_of ep_by_player a <= ep_of ep_by_player b)%Q) outfield.

(** Comparison of floats as a decidable proposition. *)
#[global] Instance Qle_decision (x y : Q) : Decision (x <= y)%Q :=
  match Qlt_le_dec y x with
  | left Hlt => right (Qlt_not_le _ _ Hlt)
  | right Hle => left Hle
  end.

(** The team plays in no fixture of the list, and every fixture of the list
    has team keys that [int] accepts. *)
Definition plays_in_none (team_id : Z) (fs : list raw_fixture) : Prop :=
  Forall (λ f, ∃ th ta, get_int (-1) (fx_team_h f) = Some th ∧
                        get_int (-1) (fx_team_a f) = Some ta ∧
                        team_id ≠ th ∧ team_id ≠ ta) fs.

(** One round of the loop over the picks. *)
Definition link_row (elem_by_id : gmap Z element) (team_strength : gmap Z Z)
    (gw_fixtures : list raw_fixture) (pick : pick) : option linked_row :=
  match elem_by_id !! pick_element pick with
  | None => Some {| lr_pick := pick; lr_player := None; lr_fixture_row := None |}
  | Some player =>
      found ← find_fixture (int_or 0 (team player)) gw_fixtures;
      Some {| lr_pick := pick; lr_player := Some player;
              lr_fixture_row :=
                Some match found with
                     | Some (home, opp) =>
                         {| was_home := home; opponent_team := Some opp;
                            opponent_strength := team_strength !! opp |}
                     | None =>
                         {| was_home := false; opponent_team := None;
                            opponent_strength := None |}
                     end |}
  end.

(** The running best of [recommend_captain], on the scored rows. *)
Definition best_score (scores : list (Z * Q)) : Z * Q :=
  foldl (λ '(best_elem, best_score) '(pid, score),
           if fltb best_score score then (pid, score) else (best_elem, best_score))
        (0, 0%Q) scores.

(** ** Example inputs *)

(** A stand-in for [math.exp] with value 1 everywhere; the examples that use
    it do not depend on the values of [math.exp]. *)
Definition unit_exp : libm := {| exp_num := λ _, 1%positive; exp_den := λ _, 1%positive |}.

(** The bootstrap, fixtures and picks of [tests/test_planner_shape.py]. *)
Definition mock_element (pid team etype cost : Z) (frm ict : Q) (mins : Z) (sel : Q)
    : element :=
  {| id := Some pid; element_type := Some etype; team := Some team;
     now_cost := Some cost; form := Num frm; ict_index := Num ict;
     minutes := Some (inject_Z mins); selected_by_percent := Field (Num sel) |}.

Definition mock_elements : list element :=
  [ mock_element 1 1 1 45 2.7 4.0 270 10.0;
    mock_element 12 2 1 45 0.1 1.0 90 6.0;
    mock_element 191 2 2 40 2.7 5.0 270 1.0;
    mock_element 506 3 2 40 0.1 1.0 90 2.0;
    mock_element 4 1 2 45 1.0 3.0 270 5.0;
    mock_element 5 1 2 45 1.0 3.0 270 5.0;
    mock_element 6 1 2 45 1.0 3.0 270 5.0;
    mock_element 7 3 3 95 3.0 9.0 270 20.0;
    mock_element 8 2 3 60 2.0 4.0 270 12.0;
    mock_element 9 1 3 60 2.0 4.0 270 12.0;
    mock_element 10 1 3 60 2.0 4.0 270 12.0;
    mock_element 11 1 3 60 2.0 4.0 270 12.0;
    mock_element 13 2 4 70 2.2 5.0 270 5.0;
    mock_element 14 3 4 70 1.9 4.0 270 4.0;
    mock_element 15 4 4 70 1.7 3.0 270 3.0 ].

Definition mock_teams : list team_rec :=
  [ {| team_id := Some 1; strength := Some 4 |};
    {| team_id := Some 2; strength := Some 3 |};
    {| team_id := Some 3; strength := Some 4 |};
    {| team_id := Some 4; strength := Some 5 |} ].

(** The same teams as the endpoint receives them. *)
Definition mock_raw_teams : list raw_team :=
  [ {| rt_id := Some 1; rt_strength := Int 4 |};
    {| rt_id := Some 2; rt_strength := Int 3 |};
    {| rt_id := Some 3; rt_strength := Int 4 |};
    {| rt_id := Some 4; rt_strength := Int 5 |} ].

Definition mock_fixtures : list fixture :=
  [ {| team_h := Some 1; team_a := Some 2 |};
    {| team_h := Some 3; team_a := Some 4 |} ].

Definition mock_pick (starts : bool) (eid : Z) : pick :=
  {| pick_element := eid;
     multiplier := if starts then 1 else 0;
     is_captain := starts && bool_decide (eid = 7);
     is_vice_captain := starts && bool_decide (eid = 9) |}.

Definition mock_picks : list pick :=
  (mock_pick true <$> [1; 191; 506; 4; 5; 7; 8; 9; 10; 13; 14]) ++
  (mock_pick false <$> [12; 6; 11; 15]).

(** The ownership index of the mock bootstrap. *)
Definition mock_ownership : gmap Z Q := default ∅ (ownership_index mock_elements).

(** The same squad with both goalkeepers (1 and 12) marked as starters. *)
Definition two_gk_picks : list pick :=
  (mock_pick true <$> [1; 12; 191; 506; 4; 5; 7; 8; 9; 10; 13]) ++
  (mock_pick false <$> [14; 6; 11; 15]).

(** The same squad with the second goalkeeper (12) marked as a starter on
    top of the eleven starters: twelve starters, three on the bench. *)
Definition extra_gk_picks : list pick :=
  (mock_pick true <$> [1; 191; 506; 4; 5; 7; 8; 9; 10; 13; 14; 12]) ++
  (mock_pick false <$> [6; 11; 15]).

(** The bootstrap players of the mock, by id. *)
Definition mock_elem_by_id : gmap Z element :=
  default ∅ (index_by id mock_elements).

(** The squad of the mock bootstrap as a positions map and an EPΔ map (all
    0.0, as in a gameweek without fixtures). *)
Definition mock_positions : gmap Z string :=
  list_to_map
    [ (1, "GK"); (191, "DEF"); (506, "DEF"); (4, "DEF"); (5, "DEF");
      (7, "MID"); (8, "MID"); (9, "MID"); (10, "MID"); (13, "FWD");
      (14, "FWD"); (12, "GK"); (6, "DEF"); (11, "MID"); (15, "FWD") ].

Definition mock_ep : list (Z * Q) :=
  (λ pid, (pid, 0%Q)) <$> [1; 191; 506; 4; 5; 7; 8; 9; 10; 13; 14; 12; 6; 11; 15].

(** A record that carries an id and a raw ownership field. *)
Definition owned (pid : Z) (raw : raw_number) : element :=
  {| id := Some pid; element_type := Some 3; team := Some 1; now_cost := Some 50;
     form := Absent; ict_index := Absent; minutes := None;
     selected_by_percent := raw |}.

(** Two starters without form (EPΔ 0.0) and two free players in top form:
    a defender who is 1.0 cheaper than the starting defender, and a midfielder
    who is 0.5 dearer than the starting midfielder. *)
Definition transfer_player (pid etype team cost : Z) (frm ict : Q) : element :=
  {| id := Some pid; element_type := Some etype; team := Some team;
     now_cost := Some cost; form := Num frm; ict_index := Num ict;
     minutes := Some 180%Q; selected_by_percent := Field (Num 5) |}.

Definition transfer_elements : list element :=
  [ transfer_player 1 2 1 50 0 0;
    transfer_player 2 3 2 50 0 0;
    transfer_player 4 3 4 55 10 20;
    transfer_player 3 2 3 40 10 20 ].

Definition transfer_row (e : element) : pick_row :=
  {| row_element := default 0 (id e); row_multiplier := 1;
     row_player := Some e;
     row_fixture := Some {| was_home := true; opponent_team := Some 9;
                            opponent_strength := Some 3 |} |}.

Definition transfer_rows : list pick_row := transfer_row <$> take 2 transfer_elements.

Definition transfer_elem_by_id : gmap Z element :=
  default ∅ (index_by id transfer_elements).

(** A double gameweek for team 1 in gameweek 5, after a fixture of
    gameweek 4. *)
Definition mock_raw_fixtures : list raw_fixture :=
  [ {| fx_event := Some 4; fx_team_h := Int 2; fx_team_a := Int 1 |};
    {| fx_event := Some 5; fx_team_h := Int 1; fx_team_a := Int 2 |};
    {| fx_event := Some 5; fx_team_h := Int 3; fx_team_a := Int 4 |};
    {| fx_event := Some 5; fx_team_h := Int 4; fx_team_a := Int 1 |} ].

(** A squad of two midfielders without form, with one free midfielder in
    top form at the same price. *)
Definition twin_elements : list element :=
  [ transfer_player 1 3 1 50 0 0;
    transfer_player 2 3 2 50 0 0;
    transfer_player 3 3 3 50 10 20 ].

Definition twin_rows : list pick_row := transfer_row <$> take 2 twin_elements.

(** The same two rows as the linking step delivers them. *)
Definition twin_linked : list linked_row :=
  (λ r, {| lr_pick := {| pick_element := row_element r;
                         multiplier := row_multiplier r;
                         is_captain := false; is_vice_captain := false |};
           lr_player := row_player r; lr_fixture_row := row_fixture r |})
  <$> twin_rows.

(** An upstream that has no picks for gameweek 3 yet. *)
Definition mock_manager_picks (tid gw : Z) : outcome Z :=
  if decide (gw = 3) then HTTPException 404 "Not found"
  else if decide (gw = 2) then Returned 2
  else OtherException.

(** Three gameweeks that are over or under way, and the next one. *)
Definition mock_events : list event :=
  [ {| event_id := Some 1; event_is_current := false; event_finished := true |};
    {| event_id := Some 2; event_is_current := false; event_finished := true |};
    {| event_id := Some 3; event_is_current := true; event_finished := false |};
    {| event_id := Some 4; event_is_current := false; event_finished := false |} ].

(** * Properties *)

(** ** Comparisons, sorting and the dict helpers *)

Lemma exp_pos (M : libm) (x : Q) : (0 < exp M x)%Q.
Proof. reflexivity. Qed.

Lemma fltb_lt (x y : Q) : fltb x y = true ↔ (x < y)%Q.
Proof.
  unfold fltb. rewrite negb_true_iff, <- not_true_iff_false, Qle_bool_iff.
  split; [apply Qnot_le_lt | apply Qlt_not_le].
Qed.

Lemma fltb_ge (x y : Q) : fltb x y = false ↔ (y <= x)%Q.
Proof. unfold fltb. by rewrite negb_false_iff, Qle_bool_iff. Qed.

Lemma fleb_le (x y : Q) : fleb x y = true ↔ (x <= y)%Q.
Proof. apply Qle_bool_iff. Qed.

Lemma fleb_gt (x y : Q) : fleb x y = false ↔ (y < x)%Q.
Proof.
  unfold fleb. rewrite <- not_true_iff_false, Qle_bool_iff.
  split; [apply Qnot_le_lt | apply Qlt_not_le].
Qed.

Section sort_facts.
Context {A K : Type} (ltb : K → K → bool) (key : A → K).

Lemma sort_insert_perm reverse x l :
  sort_insert ltb key reverse x l ≡ₚ x :: l.
Proof.
  induction l as [|y l IH]; simpl; [done|].
  destruct (goes_before ltb key reverse y x); [|done].
  rewrite IH. apply Permutation_swap.
Qed.

Lemma py_sort_by_perm reverse l : py_sort_by ltb key reverse l ≡ₚ l.
Proof.
  induction l as [|x l IH]; simpl; [done|].
  by rewrite sort_insert_perm, IH.
Qed.

Lemma py_sort_by_length reverse l :
  length (py_sort_by ltb key reverse l) = length l.
Proof. by rewrite py_sort_by_perm. Qed.

Lemma py_sort_by_elem_of reverse l x :
  x ∈ py_sort_by ltb key reverse l ↔ x ∈ l.
Proof. by rewrite py_sort_by_perm. Qed.

Lemma py_sort_by_in_order reverse l :
  in_order ltb key reverse l → py_sort_by ltb key reverse l = l.
Proof.
  induction l as [|x l IH]; [done|].
  intros [Hx Hl]. simpl. rewrite (IH Hl).
  destruct l as [|y l]; [done|]. simpl. by rewrite Hx.
Qed.

(** What the sort guarantees when "has to stay in front" comes from a
    total preorder [R]. *)
Context (R : A → A → Prop) (reverse : bool).
Hypothesis R_trans : ∀ a b c, R a b → R b c → R a c.
Hypothesis before_R : ∀ y x, goes_before ltb key reverse y x = true → R y x.
Hypothesis not_before_R : ∀ y x, goes_before ltb key reverse y x = false → R x y.

Lemma sort_insert_sorted x l :
  StronglySorted R l → StronglySorted R (sort_insert ltb key reverse x l).
Proof using R_trans before_R not_before_R.
  induction 1 as [|y l Hl IH Hy]; simpl; [repeat constructor|].
  destruct (goes_before ltb key reverse y x) eqn:E.
  - constructor; [done|].
    rewrite Forall_forall. intros z Hz.
    apply (elem_of_Permutation_proper _ _ _ (sort_insert_perm reverse x l)) in Hz.
    apply elem_of_cons in Hz as [->|Hz]; [by apply before_R|].
    rewrite Forall_forall in Hy. by apply Hy.
  - constructor; [by constructor|].
    constructor; [by apply not_before_R|].
    eapply Forall_impl; [exact Hy|]. intros z Hz.
    eapply R_trans; [|exact Hz]. by apply not_before_R.
Qed.

Lemma py_sort_by_sorted l : StronglySorted R (py_sort_by ltb key reverse l).
Proof using R_trans before_R not_before_R.
  induction l as [|x l IH]; simpl; [constructor|].
  by apply sort_insert_sorted.
Qed.
End sort_facts.

(** Descending and ascending sorts by a float key. *)
Lemma py_sort_desc_sorted {A} (key : A → Q) (l : list A) :
  StronglySorted (λ a b, (key b <= key a)%Q) (py_sort key true l).
Proof.
  apply py_sort_by_sorted; simpl.
  - intros a b c Hab Hbc. by apply Qle_trans with (key b).
  - intros y x Hlt. apply fltb_lt in Hlt. by apply Qlt_le_weak.
  - intros y x Hge. by apply fltb_ge in Hge.
Qed.

Lemma py_sort_asc_sorted {A} (key : A → Q) (l : list A) :
  StronglySorted (λ a b, (key a <= key b)%Q) (py_sort key false l).
Proof.
  apply py_sort_by_sorted; simpl.
  - intros a b c Hab Hbc. by apply Qle_trans with (key b).
  - intros y x Hlt. apply fltb_lt in Hlt. by apply Qlt_le_weak.
  - intros y x Hge. by apply fltb_ge in Hge.
Qed.

Lemma py_sort_perm {A} (key : A → Q) reverse (l : list A) :
  py_sort key reverse l ≡ₚ l.
Proof. apply py_sort_by_perm. Qed.

Lemma py_sort_elem_of {A} (key : A → Q) reverse (l : list A) (x : A) :
  x ∈ py_sort key reverse l ↔ x ∈ l.
Proof. by rewrite py_sort_perm. Qed.

Lemma foldlM_app {A B} (f : B → A → option B) b l1 l2 :
  foldlM f b (l1 ++ l2) = b' ← foldlM f b l1; foldlM f b' l2.
Proof.
  revert b. induction l1 as [|x l1 IH]; intros b; simpl; [done|].
  destruct (f b x); simpl; [apply IH|done].
Qed.

(** ** Position codes (C10) *)

Lemma position_code_cases (z : Z) :
  position_code z =
    if decide (z = 1) then "GK"
    else if decide (z = 2) then "DEF"
    else if decide (z = 3) then "MID"
    else if decide (z = 4) then "FWD"
    else "MID".
Proof.
  unfold position_code, position_table.
  repeat case_decide; subst; try done.
  rewrite !lookup_insert_ne by done.
  by rewrite lookup_singleton_ne.
Qed.

(** The planner's position map holds, for every picked id, the code of the
    element type found in the bootstrap (0 when the record is absent). *)
Lemma positions_of_lookup_gen (elem_by_id : gmap Z element) (picks : list pick)
    (acc : gmap Z string) (eid : Z) :
  foldl (λ positions p,
           let eid := pick_element p in
           let e := default no_element (elem_by_id !! eid) in
           <[ eid := position_code (int_or 0 (element_type e)) ]> positions)
        acc picks !! eid =
  if decide (eid ∈ pick_element <$> picks)
  then Some (position_code
               (int_or 0 (element_type (default no_element (elem_by_id !! eid)))))
  else acc !! eid.
Proof.
  revert acc. induction picks as [|p picks IH]; intros acc.
  - rewrite decide_False; [done|]. by intros ?%elem_of_nil.
  - rewrite fmap_cons. cbn [foldl]. rewrite IH.
    destruct (decide (eid ∈ pick_element <$> picks)) as [Hin|Hin].
    + rewrite decide_True; [done|]. apply elem_of_cons. by right.
    + destruct (decide (eid = pick_element p)) as [->|Hne].
      * rewrite decide_True by (apply elem_of_cons; by left).
        by rewrite lookup_insert_eq.
      * rewrite decide_False by (intros [?|?]%elem_of_cons; done).
        by rewrite lookup_insert_ne.
Qed.

Lemma positions_of_lookup (picks : list pick) (elem_by_id : gmap Z element) (eid : Z) :
  eid ∈ pick_element <$> picks →
  positions_of picks elem_by_id !! eid =
    Some (position_code
            (int_or 0 (element_type (default no_element (elem_by_id !! eid))))).
Proof.
  intros Hin. unfold positions_of. rewrite positions_of_lookup_gen.
  by rewrite decide_True.
Qed.

Lemma positions_of_lookup_None (picks : list pick) (elem_by_id : gmap Z element) (eid : Z) :
  eid ∉ pick_element <$> picks → positions_of picks elem_by_id !! eid = None.
Proof.
  intros Hin. unfold positions_of. rewrite positions_of_lookup_gen.
  by rewrite decide_False.
Qed.

(** C10: [position_code] returns one of the four codes for every integer and
    "MID" for every element type outside 1..4; so a picked player whose
    bootstrap record is absent, or carries no usable element type, stands in
    the planner's position map as "MID", and is counted as a midfielder by
    the formation string and the legality check, which read that map. *)
Theorem C10_position_code_defaults_to_MID :
  (∀ element_type : Z,
     position_code element_type ∈ ["GK"; "DEF"; "MID"; "FWD"]) ∧
  (∀ element_type : Z,
     ¬ (1 ≤ element_type ≤ 4) → position_code element_type = "MID") ∧
  (∀ (picks : list pick) (elem_by_id : gmap Z element) (eid : Z),
     eid ∈ pick_element <$> picks →
     ¬ (1 ≤ int_or 0 (element_type (default no_element (elem_by_id !! eid))) ≤ 4) →
     positions_of picks elem_by_id !! eid = Some "MID" ∧
     count_pos (positions_of picks elem_by_id) "MID" [eid] = 1%nat ∧
     formation_str [eid] (positions_of picks elem_by_id) = "0-1-0").
Proof.
  split; [|split].
  - intros z. rewrite position_code_cases.
    repeat case_decide; set_solver.
  - intros z Hz. rewrite position_code_cases.
    repeat case_decide; try done; lia.
  - intros picks elem_by_id eid Hin Hz.
    assert (Hpos : positions_of picks elem_by_id !! eid = Some "MID").
    { rewrite positions_of_lookup by done. f_equal.
      rewrite position_code_cases. repeat case_decide; try done; lia. }
    split; [done|].
    unfold formation_str, count_pos.
    rewrite !filter_cons, !filter_nil, Hpos. simpl.
    by repeat case_decide.
Qed.

(** A pick of id 99 that the bootstrap does not know. *)
Lemma C10_witness :
  position_code 0 = "MID" ∧
  positions_of [{| pick_element := 99; multiplier := 1;
                   is_captain := false; is_vice_captain := false |}] ∅ !! 99
    = Some "MID".
Proof.
  destruct C10_position_code_defaults_to_MID as (_ & Hout & Hpick).
  split.
  - apply Hout. lia.
  - apply Hpick.
    + apply elem_of_cons. by left.
    + rewrite lookup_empty. simpl. lia.
Defined.

(** ** Ownership index (C6) *)

(** The index after the loop: a later record overwrites an earlier one with
    the same id. *)
Lemma ownership_index_gen (elements : list element) (acc idx : gmap Z Q) :
  foldlM (λ idx e,
            pid ← id e;
            v ← guarded_float (selected_by_percent e);
            Some (<[ pid := v ]> idx))
         acc elements = Some idx →
  ∀ pid, idx !! pid =
    match last (filter (λ e, id e = Some pid) elements) with
    | Some e => guarded_float (selected_by_percent e)
    | None => acc !! pid
    end.
Proof.
  revert acc. induction elements as [|e elements IH]; intros acc Hidx pid.
  - by injection Hidx as <-.
  - cbn [foldlM] in Hidx.
    destruct (id e) as [k|] eqn:Hk; [|done]. cbn [mbind option_bind] in Hidx.
    destruct (guarded_float (selected_by_percent e)) as [v|] eqn:Hv; [|done].
    cbn [mbind option_bind] in Hidx.
    rewrite (IH _ Hidx pid), filter_cons.
    destruct (decide (id e = Some pid)) as [Heq|Hne].
    + assert (k = pid) as -> by congruence.
      rewrite last_cons. destruct (last (filter _ elements)); [done|].
      by rewrite lookup_insert_eq.
    + destruct (last (filter _ elements)); [done|].
      rewrite lookup_insert_ne; [done|congruence].
Qed.

(** The two exceptions that get through, and no other. *)
Lemma ownership_index_returns (elements : list element) (acc : gmap Z Q) :
  is_Some (foldlM (λ idx e,
                     pid ← id e;
                     v ← guarded_float (selected_by_percent e);
                     Some (<[ pid := v ]> idx))
                  acc elements)
  ↔ ∀ e, e ∈ elements → is_Some (id e) ∧ selected_by_percent e ≠ Overflows.
Proof.
  revert acc. induction elements as [|e elements IH]; intros acc.
  - split; [by intros _ e ?%elem_of_nil|by eexists].
  - cbn [foldlM]. split.
    + intros Hsome e' He'.
      destruct (id e) as [k|] eqn:Hk; [|by destruct Hsome].
      cbn [mbind option_bind] in Hsome.
      destruct (selected_by_percent e) as [f|] eqn:Hf; [|by destruct Hsome].
      cbn [guarded_float mbind option_bind] in Hsome.
      apply elem_of_cons in He' as [->|He'].
      * rewrite Hk, Hf. by split.
      * by apply (proj1 (IH _) Hsome).
    + intros Hall.
      destruct (Hall e) as [[k Hk] Hf]; [apply elem_of_cons; by left|].
      rewrite Hk. cbn [mbind option_bind].
      destruct (selected_by_percent e) as [f|]; [|done].
      cbn [guarded_float mbind option_bind]. apply IH.
      intros e' He'. apply Hall, elem_of_cons. by right.
Qed.

(** C6, as the code has it: [ownership_index] returns an index exactly when
    [int()] accepts the id of every record and no [selected_by_percent] is an
    integer beyond the float range (otherwise an exception gets through).
    The index then holds exactly the ids of the records; the value under an
    id is the float parse of the [selected_by_percent] of the last record
    with that id, and 0.0 when that field is missing or does not parse.  The
    value is therefore non-negative as soon as every parsed field is; a
    negative parse is stored unchanged. *)
Theorem C6_ownership_values_are_parsed_fields (elements : list element) :
  (is_Some (ownership_index elements) ↔
   ∀ e, e ∈ elements → is_Some (id e) ∧ selected_by_percent e ≠ Overflows) ∧
  ∀ idx, ownership_index elements = Some idx →
    (∀ pid, is_Some (idx !! pid) ↔ ∃ e, e ∈ elements ∧ id e = Some pid) ∧
    (∀ pid v, idx !! pid = Some v →
       ∃ e, last (filter (λ e, id e = Some pid) elements) = Some e ∧
            match selected_by_percent e with
            | Field (Num q) => v = q
            | Field Absent | Field Malformed => v = 0%Q
            | Overflows => False
            end) ∧
    ((∀ e q, e ∈ elements → selected_by_percent e = Field (Num q) → (0 <= q)%Q) →
     ∀ pid v, idx !! pid = Some v → (0 <= v)%Q).
Proof.
  split; [apply ownership_index_returns|].
  intros idx Hidx.
  pose proof (ownership_index_gen elements ∅ idx Hidx) as Hlook.
  assert (Hall : ∀ e, e ∈ elements →
            is_Some (id e) ∧ selected_by_percent e ≠ Overflows).
  { apply (ownership_index_returns elements ∅). unfold ownership_index in Hidx.
    by rewrite Hidx. }
  assert (Hparse : ∀ pid v, idx !! pid = Some v →
            ∃ e, last (filter (λ e, id e = Some pid) elements) = Some e ∧
                 match selected_by_percent e with
                 | Field (Num q) => v = q
                 | Field Absent | Field Malformed => v = 0%Q
                 | Overflows => False
                 end).
  { intros pid v Hpid. rewrite Hlook in Hpid.
    destruct (last (filter _ elements)) as [e|] eqn:Hlast;
      [|by rewrite lookup_empty in Hpid].
    exists e. split; [done|].
    destruct (selected_by_percent e) as [[| |q]|]; simpl in Hpid; congruence. }
  split; [|split; [done|]].
  - intros pid. rewrite Hlook. split.
    + destruct (last (filter _ elements)) as [e|] eqn:Hlast;
        [|rewrite lookup_empty; by intros [? ?]].
      intros _. apply last_Some_elem_of, list_elem_of_filter in Hlast.
      exists e. tauto.
    + intros (e & He & Hid).
      destruct (last (filter (λ e, id e = Some pid) elements)) as [e'|] eqn:Hlast.
      * apply last_Some_elem_of, list_elem_of_filter in Hlast as [_ He'].
        destruct (Hall e' He') as [_ Hov].
        destruct (selected_by_percent e'); [by eexists|done].
      * apply last_None in Hlast.
        assert (Hin : e ∈ filter (λ e, id e = Some pid) elements)
          by by apply list_elem_of_filter.
        rewrite Hlast in Hin. by apply elem_of_nil in Hin.
  - intros Hnonneg pid v Hpid.
    destruct (Hparse pid v Hpid) as (e & Hlast & Hv).
    apply last_Some_elem_of, list_elem_of_filter in Hlast as [_ He].
    destruct (selected_by_percent e) as [[| |q]|] eqn:Hsel; subst; try done.
    by apply (Hnonneg e).
Qed.

Lemma C6_witness :
  ∃ idx,
    ownership_index [owned 7 (Field (Num (25 # 10))); owned 8 (Field Malformed);
                     owned 9 (Field Absent); owned 7 (Field (Num 3))]
      = Some idx ∧
    idx !! 7 = Some 3%Q ∧ idx !! 8 = Some 0%Q ∧ is_Some (idx !! 9) ∧
    ∀ pid v, idx !! pid = Some v → (0 <= v)%Q.
Proof.
  destruct (C6_ownership_values_are_parsed_fields
              [owned 7 (Field (Num (25 # 10))); owned 8 (Field Malformed);
               owned 9 (Field Absent); owned 7 (Field (Num 3))])
    as [Hret Hidx].
  destruct (proj2 Hret) as [idx Heq].
  { intros e He. repeat (apply elem_of_cons in He as [->|He]; [by split; [eexists|]|]).
    by apply elem_of_nil in He. }
  destruct (Hidx idx Heq) as (Hdom & Hval & Hnonneg).
  exists idx. split; [exact Heq|].
  assert (H7 : idx !! 7 = Some 3%Q).
  { destruct (proj2 (Hdom 7)) as [v Hv].
    { exists (owned 7 (Field (Num 3))). split; [|done].
      do 3 apply list_elem_of_further. apply list_elem_of_here. }
    destruct (Hval 7 v Hv) as (e & Hlast & He).
    vm_compute in Hlast. injection Hlast as <-. simpl in He. by rewrite He in Hv. }
  assert (H8 : idx !! 8 = Some 0%Q).
  { destruct (proj2 (Hdom 8)) as [v Hv].
    { exists (owned 8 (Field Malformed)). split; [|done].
      apply list_elem_of_further, list_elem_of_here. }
    destruct (Hval 8 v Hv) as (e & Hlast & He).
    vm_compute in Hlast. injection Hlast as <-. simpl in He. by rewrite He in Hv. }
  split; [exact H7|]. split; [exact H8|]. split.
  { apply Hdom. exists (owned 9 (Field Absent)). split; [|done].
    do 2 apply list_elem_of_further. apply list_elem_of_here. }
  apply Hnonneg. intros e q He Hsel.
  repeat (apply elem_of_cons in He as [->|He];
          [simpl in Hsel; by try injection Hsel as <-|]).
  by apply elem_of_nil in He.
Defined.

(** C6 as stated fails three times: a record whose [selected_by_percent]
    parses to -1.0 yields the ownership value -1.0; a record without an id
    makes [int(e.get("id"))] raise, outside the [try]; and an integer
    [selected_by_percent] beyond the float range makes [float] raise an
    OverflowError, which the [try] does not catch. *)
Lemma C6_counterexample :
  (∃ idx v,
     ownership_index [owned 7 (Field (Num (-1)))] = Some idx ∧
     idx !! 7 = Some v ∧ (v < 0)%Q) ∧
  ownership_index [no_element] = None ∧
  ownership_index [owned 7 Overflows] = None.
Proof.
  split; [|done].
  exists {[ 7 := (-1)%Q ]}, (-1)%Q. split; [done|].
  split; [by rewrite lookup_singleton_eq|done].
Qed.

(** ** The action list and the chip action (C8) *)

Lemma swap_actions_fold (gw : Z) (ep_by_player : list (Z * Q))
    (chosen : list (Z * Z * Q)) (acc : list action) (prio : Z) :
  (foldl (λ '(actions, prio) '(i, o, d),
            (actions ++ [Swap prio ("lineup-" +:+ pretty gw +:+ "-1") i o
                           (round2 (ep_of ep_by_player i))
                           (round2 (ep_of ep_by_player o))
                           (round2 d)],
             prio + 1))
         (acc, prio) chosen).1
  = acc ++ imap (swap_action_at gw ep_by_player prio) chosen.
Proof.
  revert acc prio. induction chosen as [|[[i o] d] chosen IH]; intros acc prio.
  - simpl. by rewrite app_nil_r.
  - cbn [foldl imap]. rewrite IH, <- app_assoc. f_equal. simpl. f_equal.
    + unfold swap_action_at. simpl. f_equal. lia.
    + apply imap_ext. intros k x _. unfold swap_action_at, compose. f_equal. lia.
Qed.

Lemma swap_actions_imap (gw : Z) (ep_by_player : list (Z * Q))
    (chosen : list (Z * Z * Q)) :
  swap_actions gw ep_by_player chosen
  = imap (swap_action_at gw ep_by_player 10) chosen.
Proof. unfold swap_actions. by rewrite swap_actions_fold. Qed.

Lemma swap_actions_are_swaps (gw : Z) (ep_by_player : list (Z * Q))
    (chosen : list (Z * Z * Q)) :
  Forall (λ a, is_swap a = true) (swap_actions gw ep_by_player chosen).
Proof.
  rewrite swap_actions_imap. generalize 10.
  induction chosen as [|x chosen IH]; intros prio; simpl; [constructor|].
  constructor; [done|].
  erewrite imap_ext; [apply (IH (prio + 1))|].
  intros k y _. unfold swap_action_at, compose. f_equal. lia.
Qed.

Lemma captaincy_actions_types ep_by_player mode captain vice curr_cap curr_vc :
  Forall (λ a, action_group a = "captaincy")
         (captaincy_actions ep_by_player mode captain vice curr_cap curr_vc).
Proof.
  unfold captaincy_actions. apply Forall_app.
  split; case_bool_decide; by repeat constructor.
Qed.

Lemma chip_action_spec (ce : chip_eval) :
  let ch := chip_action ce in
  action_type ch = "chip" ∧ action_priority ch = 90 ∧
  (action_chip ch = Some "BB" ↔ (12 <= bench_boost_gain ce)%Q) ∧
  (action_chip ch = Some "TC" ↔
     (bench_boost_gain ce < 12)%Q ∧ (4 <= triple_captain_gain ce)%Q) ∧
  (action_chip ch = Some "NONE" ↔
     (bench_boost_gain ce < 12)%Q ∧ (triple_captain_gain ce < 4)%Q) ∧
  (action_chip ch = Some "NONE" → action_reason_code ch = Some "below_threshold").
Proof.
  unfold chip_action.
  destruct (fleb 12 (bench_boost_gain ce)) eqn:Hbb;
    [|destruct (fleb 4 (triple_captain_gain ce)) eqn:Htc]; simpl.
  - apply fleb_le in Hbb.
    repeat split; try done; intros [Hlt _]; exfalso; by apply (Qlt_not_le _ _ Hlt).
  - apply fleb_gt in Hbb. apply fleb_le in Htc.
    repeat split; try done.
    + intros Hle. exfalso. by apply (Qlt_not_le _ _ Hbb).
    + intros [_ Hlt]. exfalso. by apply (Qlt_not_le _ _ Hlt).
  - apply fleb_gt in Hbb. apply fleb_gt in Htc.
    repeat split; try done.
    + intros Hle. exfalso. by apply (Qlt_not_le _ _ Hbb).
    + intros [_ Hle]. exfalso. by apply (Qlt_not_le _ _ Htc).
Qed.

(** What a returned plan is made of. *)
Lemma plan_gameweek_inv (M : libm) picks elements teams fixtures_gw gw
    ownership_idx mode (p : plan) :
  plan_gameweek M picks elements teams fixtures_gw gw ownership_idx mode = Some p →
  ∃ elem_by_id team_idx curr_cap curr_vc,
    index_by id elements = Some elem_by_id ∧
    index_by team_id teams = Some team_idx ∧
    let positions := positions_of picks elem_by_id in
    let ep := ep_by_player_of M picks elem_by_id team_idx
                (fixtures_by_team_of fixtures_gw team_idx) in
    let cur := repair_current positions ep
                 (pick_element <$> filter (λ p, 0 < multiplier p) picks)
                 (pick_element <$> filter (λ p, multiplier p ≤ 0) picks) in
    per_player_ep p = ep ∧
    current_start p = cur.1 ∧
    current_bench p = cur.2 ∧
    choose_starting_xi ep positions = Some (optimal_start p, optimal_bench p) ∧
    formation_current p = formation_str (current_start p) positions ∧
    formation_optimal p = formation_str (optimal_start p) positions ∧
    recommend_captain_from_ids (optimal_start p) ep ownership_idx positions mode
      = (captain p, vice_captain p) ∧
    plan_chip_eval p = evaluate_chips ep (captain p) (optimal_bench p) ∧
    actions p =
      swap_actions gw ep
        (choose_pairs positions (current_start p)
           (py_sort (λ t : Z * Z * Q, t.2) true
              (swap_pairs ep
                 (filter (λ pid, pid ∉ current_start p) (optimal_start p))
                 (filter (λ pid, pid ∉ optimal_start p) (current_start p))))) ++
      captaincy_actions ep mode (captain p) (vice_captain p) curr_cap curr_vc ++
      [chip_action (plan_chip_eval p)].
Proof.
  unfold plan_gameweek. intros Hplan.
  destruct (index_by id elements) as [elem_by_id|]; [|done].
  destruct (index_by team_id teams) as [team_idx|]; [|done].
  cbn [mbind option_bind] in Hplan.
  destruct (repair_current _ _ _ _) as [cs cb] eqn:Hcur.
  destruct (choose_starting_xi _ _) as [[os ob]|] eqn:Hopt; [|done].
  cbn [mbind option_bind] in Hplan.
  destruct (recommend_captain_from_ids _ _ _ _ _) as [c v] eqn:Hcap.
  injection Hplan as <-.
  eexists elem_by_id, team_idx, _, _. cbn [per_player_ep current_start
    current_bench optimal_start optimal_bench formation_current
    formation_optimal captain vice_captain plan_chip_eval actions].
  rewrite Hcur, Hopt, Hcap. by repeat split.
Qed.

(** C8: the action list of every returned plan ends with its one chip
    action, of priority 90; it recommends BB exactly when the summed EPΔ of
    the optimal bench is at least 12.0, otherwise TC exactly when the
    captain's own EPΔ is at least 4.0, and otherwise NONE, with the
    below-threshold reason code (spelled [below_threshold] in the code). *)
Theorem C8_chip_action_thresholds (M : libm) picks elements teams fixtures_gw gw
    ownership_idx mode (p : plan) :
  plan_gameweek M picks elements teams fixtures_gw gw ownership_idx mode = Some p →
  let bench_ep := py_sum (ep_of (per_player_ep p) <$> optimal_bench p) in
  let cap_ep := ep_of (per_player_ep p) (captain p) in
  ∃ others ch,
    actions p = others ++ [ch] ∧
    Forall (λ a, action_type a ≠ "chip") others ∧
    action_type ch = "chip" ∧
    action_priority ch = 90 ∧
    (action_chip ch = Some "BB" ↔ (12 <= bench_ep)%Q) ∧
    (action_chip ch = Some "TC" ↔ (bench_ep < 12)%Q ∧ (4 <= cap_ep)%Q) ∧
    (action_chip ch = Some "NONE" ↔ (bench_ep < 12)%Q ∧ (cap_ep < 4)%Q) ∧
    (action_chip ch = Some "NONE" → action_reason_code ch = Some "below_threshold").
Proof.
  intros Hplan.
  destruct (plan_gameweek_inv _ _ _ _ _ _ _ _ _ Hplan)
    as (elem_by_id & team_idx & curr_cap & curr_vc & _ & _ & Hinv).
  cbv zeta in Hinv.
  destruct Hinv as (Hep & _ & _ & _ & _ & _ & _ & Hce & Hact).
  eexists _, _. split; [rewrite Hact, app_assoc; reflexivity|].
  split.
  { apply Forall_app. split.
    - eapply Forall_impl; [apply swap_actions_are_swaps|].
      by intros [] ?.
    - eapply Forall_impl; [apply captaincy_actions_types|].
      by intros [] ?. }
  rewrite Hce, Hep. apply chip_action_spec.
Qed.

(** ** Monotonicity of the expected points delta (C4) *)

(** Turns the boolean float comparisons among the hypotheses into
    inequalities of [Q]. *)
Ltac float_cmp :=
  repeat match goal with
         | H : fltb _ _ = true |- _ => apply fltb_lt in H
         | H : fltb _ _ = false |- _ => apply fltb_ge in H
         | H : fleb _ _ = true |- _ => apply fleb_le in H
         | H : fleb _ _ = false |- _ => apply fleb_gt in H
         end.

Lemma _norm_range (x lo hi : Q) : (0 <= _norm x lo hi <= 1)%Q.
Proof.
  unfold _norm. destruct (Qeq_bool hi lo); [split; discriminate|].
  destruct (fleb lo hi);
    destruct (fltb _ 0) eqn:H0; try (split; discriminate);
    destruct (fltb 1 _) eqn:H1; try (split; discriminate);
    float_cmp; by split.
Qed.

Lemma _norm_mono (x x' lo hi : Q) :
  (x <= x')%Q → (_norm x lo hi <= _norm x' lo hi)%Q.
Proof.
  intros Hx. unfold _norm.
  destruct (Qeq_bool hi lo) eqn:Heq; [apply Qle_refl|].
  apply Qeq_bool_neq in Heq.
  assert (Hv : ∀ lo_ hi_ : Q, (lo_ < hi_)%Q →
            ((x - lo_) / (hi_ - lo_) <= (x' - lo_) / (hi_ - lo_))%Q).
  { intros lo_ hi_ Hlt. apply Qmult_le_compat_r; [lra|].
    apply Qlt_le_weak, Qinv_lt_0_compat. lra. }
  assert (Hclamp : ∀ v v' : Q, (v <= v')%Q →
            ((if fltb v 0 then 0 else if fltb 1 v then 1 else v)
             <= (if fltb v' 0 then 0 else if fltb 1 v' then 1 else v'))%Q).
  { intros v v' Hle.
    destruct (fltb v 0) eqn:A; destruct (fltb v' 0) eqn:B;
      destruct (fltb 1 v) eqn:C; destruct (fltb 1 v') eqn:D;
      float_cmp; lra. }
  destruct (fleb lo hi) eqn:Hord; float_cmp.
  - apply Hclamp, Hv.
    destruct (Qlt_le_dec lo hi) as [|Hge]; [done|].
    exfalso. apply Heq. by apply Qle_antisym.
  - by apply Hclamp, Hv.
Qed.

Lemma _sigmoid_nonneg (M : libm) (x : Q) : (0 <= _sigmoid M x)%Q.
Proof.
  unfold _sigmoid. destruct (fleb 50 x); [discriminate|].
  destruct (fleb x (-50)); [apply Qle_refl|].
  apply Qlt_le_weak. unfold Qdiv. rewrite Qmult_1_l.
  apply Qinv_lt_0_compat. pose proof (exp_pos M (- x)). lra.
Qed.

Lemma epd_mono_mix (mix mix' m d : Q) :
  (0 <= m)%Q → (0 <= d)%Q → (mix <= mix')%Q →
  (6 * mix * m * d <= 6 * mix' * m * d)%Q.
Proof.
  intros Hm Hd Hmix.
  apply Qmult_le_compat_r; [|done].
  apply Qmult_le_compat_r; [|done].
  lra.
Qed.

(** C4: with the other inputs fixed, the expected points delta does not
    decrease when the parsed [form] grows, nor when the parsed [ict_index]
    grows, nor (for fixed minutes) when the opponent strength number grows;
    the opponent multiplier is 0.0 at strength 1 and 1.0 at strength 5. *)
Theorem C4_expected_points_delta_monotone (M : libm) :
  (∀ (p p' : element) (f f' : Q) (opp : Z) (mins : Q),
     form p = Num f → form p' = Num f' → ict_index p = ict_index p' →
     (f <= f')%Q →
     (expected_points_delta M p opp mins <= expected_points_delta M p' opp mins)%Q) ∧
  (∀ (p p' : element) (i i' : Q) (opp : Z) (mins : Q),
     ict_index p = Num i → ict_index p' = Num i' → form p = form p' →
     (i <= i')%Q →
     (expected_points_delta M p opp mins <= expected_points_delta M p' opp mins)%Q) ∧
  (∀ (p : element) (opp opp' : Z) (mins : Q),
     opp ≤ opp' →
     (expected_points_delta M p opp mins <= expected_points_delta M p opp' mins)%Q) ∧
  (_norm (inject_Z 5) 5 1 == 1)%Q ∧ (_norm (inject_Z 1) 5 1 == 0)%Q.
Proof.
  split; [|split; [|split; [|by vm_compute]]].
  - intros p p' f f' opp mins Hf Hf' Hict Hle.
    unfold expected_points_delta. rewrite Hf, Hf', Hict. simpl parse_field.
    apply epd_mono_mix; [apply _sigmoid_nonneg|apply _norm_range|].
    pose proof (_norm_mono f f' 0 10 Hle). lra.
  - intros p p' i i' opp mins Hi Hi' Hform Hle.
    unfold expected_points_delta. rewrite Hi, Hi', Hform. simpl parse_field.
    apply epd_mono_mix; [apply _sigmoid_nonneg|apply _norm_range|].
    pose proof (_norm_mono i i' 0 20 Hle). lra.
  - intros p opp opp' mins Hle.
    unfold expected_points_delta.
    set (c := (6 * _ * _)%Q).
    assert (Hc : (0 <= c)%Q).
    { pose proof (_sigmoid_nonneg M ((mins - 120) / 60)).
      pose proof (_norm_range (parse_field (form p)) 0 10).
      pose proof (_norm_range (parse_field (ict_index p)) 0 20).
      apply Qmult_le_0_compat; [|done].
      lra. }
    rewrite !(Qmult_comm c). apply Qmult_le_compat_r; [|done].
    apply _norm_mono. by rewrite <- Zle_Qle.
Qed.

(** ** Captain and vice captain (C9) *)

Lemma sort_insert_fmap {A B K} (ltb : K → K → bool) (key : B → K) (f : A → B)
    reverse (x : A) (l : list A) :
  sort_insert ltb key reverse (f x) (f <$> l)
  = f <$> sort_insert ltb (key ∘ f) reverse x l.
Proof.
  induction l as [|y l IH]; [done|].
  cbn [fmap list_fmap sort_insert]. unfold goes_before.
  change ((key ∘ f) x) with (key (f x)).
  change ((key ∘ f) y) with (key (f y)).
  destruct reverse.
  - destruct (ltb (key (f x)) (key (f y))); [|done].
    cbn [fmap list_fmap]. by rewrite <- IH.
  - destruct (ltb (key (f y)) (key (f x))); [|done].
    cbn [fmap list_fmap]. by rewrite <- IH.
Qed.

Lemma py_sort_by_fmap {A B K} (ltb : K → K → bool) (key : B → K) (f : A → B)
    reverse (l : list A) :
  py_sort_by ltb key reverse (f <$> l) = f <$> py_sort_by ltb (key ∘ f) reverse l.
Proof.
  induction l as [|x l IH]; [done|].
  cbn [fmap list_fmap py_sort_by foldr].
  change (foldr (sort_insert ltb key reverse) [] (f <$> l))
    with (py_sort_by ltb key reverse (f <$> l)).
  by rewrite IH, sort_insert_fmap.
Qed.

Lemma py_max_by_fmap {A B K} (ltb : K → K → bool) (key : B → K) (f : A → B)
    (x0 : A) (xs : list A) :
  py_max_by ltb key (f x0) (f <$> xs) = f (py_max_by ltb (key ∘ f) x0 xs).
Proof.
  revert x0. induction xs as [|x xs IH]; intros x0; [done|].
  cbn [fmap list_fmap py_max_by foldl].
  change ((key ∘ f) x0) with (key (f x0)).
  change ((key ∘ f) x) with (key (f x)).
  destruct (ltb (key (f x0)) (key (f x))); apply IH.
Qed.

Lemma py_max_by_spec {A} (key : A → Q) (x0 : A) (xs : list A) :
  py_max_by fltb key x0 xs ∈ x0 :: xs ∧
  ∀ y, y ∈ x0 :: xs → (key y <= key (py_max_by fltb key x0 xs))%Q.
Proof.
  revert x0. induction xs as [|x xs IH]; intros x0.
  - split; [apply elem_of_cons; by left|].
    intros y ->%list_elem_of_singleton. apply Qle_refl.
  - change (py_max_by fltb key x0 (x :: xs))
      with (py_max_by fltb key (if fltb (key x0) (key x) then x else x0) xs).
    destruct (fltb (key x0) (key x)) eqn:Hlt; float_cmp.
    + destruct (IH x) as [Hin Hmax]. split.
      * apply elem_of_cons. by right.
      * intros y [->|Hy]%elem_of_cons; [|by apply Hmax].
        eapply Qle_trans; [apply Qlt_le_weak, Hlt|].
        apply Hmax, elem_of_cons. by left.
    + destruct (IH x0) as [Hin Hmax]. split.
      * apply elem_of_cons in Hin as [Hin|Hin];
          [rewrite Hin; apply elem_of_cons; by left|].
        apply elem_of_cons. right. apply elem_of_cons. by right.
      * intros y [->|[->|Hy]%elem_of_cons]%elem_of_cons.
        -- apply Hmax, elem_of_cons. by left.
        -- eapply Qle_trans; [apply Hlt|]. apply Hmax, elem_of_cons. by left.
        -- apply Hmax, elem_of_cons. by right.
Qed.

Lemma StronglySorted_filter {A} (R : A → A → Prop) (P : A → Prop)
    `{∀ x, Decision (P x)} (l : list A) :
  StronglySorted R l → StronglySorted R (filter P l).
Proof.
  induction 1 as [|x l Hl IH Hx]; [constructor|].
  rewrite filter_cons. case_decide; [|done].
  constructor; [done|].
  rewrite Forall_forall in Hx. rewrite Forall_forall.
  intros y [_ Hy]%list_elem_of_filter. by apply Hx.
Qed.

Lemma StronglySorted_head_max {A} (R : A → A → Prop) (x : A) (l : list A) :
  StronglySorted R (x :: l) → ∀ y, y ∈ l → R x y.
Proof.
  intros Hs y Hy. apply StronglySorted_inv in Hs as [_ Hx].
  rewrite Forall_forall in Hx. by apply Hx.
Qed.

Lemma recommend_captain_unfold starting_ids per_player_ep ownership_idx positions mode :
  recommend_captain_from_ids starting_ids per_player_ep ownership_idx positions mode =
  match py_sort (adjusted_score per_player_ep ownership_idx mode) true
          (captain_candidates positions starting_ids) with
  | [] => (0, 0)
  | top :: rest =>
      let c := if fltb (ep_of per_player_ep top) (8 # 10)
               then py_max_by fltb (ep_of per_player_ep) top rest
               else top in
      (c, default 0 (head (filter (λ pid, pid ≠ c) (top :: rest))))
  end.
Proof.
  unfold recommend_captain_from_ids.
  fold (captain_candidates positions starting_ids).
  set (mk := λ pid : Z, (pid, _, _)).
  assert (Hsort : py_sort (λ x : Z * Q * Q, x.1.2) true
                    (mk <$> captain_candidates positions starting_ids)
                  = mk <$> py_sort (adjusted_score per_player_ep ownership_idx mode)
                             true (captain_candidates positions starting_ids)).
  { unfold py_sort. by rewrite py_sort_by_fmap. }
  assert (Hmax : ∀ top rest,
            py_max_by fltb (λ x : Z * Q * Q, x.2) (mk top) (mk <$> rest)
            = mk (py_max_by fltb (ep_of per_player_ep) top rest)).
  { intros top rest. by rewrite py_max_by_fmap. }
  assert (Hpid : ∀ x, (mk x).1.1 = x) by done.
  assert (Hbase : ∀ x, (mk x).2 = ep_of per_player_ep x) by done.
  clearbody mk. rewrite Hsort. clear Hsort.
  destruct (captain_candidates positions starting_ids) as [|a l]; [done|].
  cbn [fmap list_fmap].
  destruct (py_sort _ true _) as [|top rest]; [done|].
  cbn [fmap list_fmap].
  assert (Hpids : ((mk <$> rest).*1).*1 = rest).
  { clear -Hpid. induction rest as [|x rest IH]; [done|].
    cbn [fmap list_fmap]. rewrite Hpid. f_equal. apply IH. }
  specialize (Hmax top rest).
  pose proof (Hpid top) as Htop. specialize (Hbase top).
  destruct (mk top) as [[tp ts] tb]. simpl in Htop, Hbase. subst tp tb.
  cbn [fmap list_fmap fst]. rewrite Hmax, Hpid, Hpids. cbv zeta.
  by destruct (fltb (ep_of per_player_ep top) (8 # 10)).
Qed.

(** C9: the candidates are the starters that are not goalkeepers.  With no
    candidate the answer is (0, 0).  Otherwise there is a candidate [top] of
    highest ownership-adjusted score (the first of them in the order of the
    stable sort) such that the captain is [top] when the raw EPΔ of [top] is
    at least 0.8, and else a candidate of highest raw EPΔ; the vice captain is
    a candidate other than the captain whose score no other such candidate
    exceeds, and 0 when the captain is the only candidate. *)
Theorem C9_captain_and_vice
    (starting_ids : list Z) (per_player_ep : list (Z * Q))
    (ownership_idx : gmap Z Q) (positions : gmap Z string) (mode : string) :
  let candidates := captain_candidates positions starting_ids in
  let score := adjusted_score per_player_ep ownership_idx mode in
  let base := ep_of per_player_ep in
  let cv := recommend_captain_from_ids starting_ids per_player_ep
              ownership_idx positions mode in
  (∀ pid, pid ∈ candidates ↔ pid ∈ starting_ids ∧ positions !! pid ≠ Some "GK") ∧
  (candidates = [] → cv = (0, 0)) ∧
  (candidates ≠ [] →
     ∃ top,
       top ∈ candidates ∧
       (∀ x, x ∈ candidates → (score x <= score top)%Q) ∧
       ((8 # 10 <= base top)%Q → cv.1 = top) ∧
       ((base top < 8 # 10)%Q →
          cv.1 ∈ candidates ∧ ∀ x, x ∈ candidates → (base x <= base cv.1)%Q) ∧
       ((∀ x, x ∈ candidates → x = cv.1) → cv.2 = 0) ∧
       ((∃ x, x ∈ candidates ∧ x ≠ cv.1) →
          cv.2 ∈ candidates ∧ cv.2 ≠ cv.1 ∧
          ∀ x, x ∈ candidates → x ≠ cv.1 → (score x <= score cv.2)%Q)).
Proof.
  intros candidates score base cv.
  split; [|split].
  - intros pid. unfold candidates, captain_candidates.
    rewrite list_elem_of_filter. tauto.
  - intros Hnil. unfold cv. rewrite recommend_captain_unfold.
    fold candidates. by rewrite Hnil.
  - intros Hne. unfold cv. rewrite recommend_captain_unfold.
    fold candidates score base.
    pose proof (py_sort_perm score true candidates) as Hperm.
    pose proof (py_sort_desc_sorted score candidates) as Hsorted.
    destruct (py_sort score true candidates) as [|top rest] eqn:Hsort.
    { apply Permutation_nil_l in Hperm. by rewrite <- Hperm in Hne. }
    assert (Hin : ∀ x, x ∈ candidates ↔ x ∈ top :: rest).
    { intros x. by rewrite Hperm. }
    cbv zeta. cbn [fst snd].
    set (c := if fltb (base top) (8 # 10) then py_max_by fltb base top rest else top).
    exists top. split; [apply Hin, elem_of_cons; by left|].
    split.
    { intros x [->|Hx]%Hin%elem_of_cons; [apply Qle_refl|].
      by apply (StronglySorted_head_max _ _ _ Hsorted). }
    split.
    { intros Hge. unfold c. destruct (fltb (base top) (8 # 10)) eqn:Hlt; [|done].
      float_cmp. exfalso. by apply (Qlt_not_le _ _ Hlt). }
    split.
    { intros Hlt. unfold c. apply fltb_lt in Hlt. rewrite Hlt.
      destruct (py_max_by_spec base top rest) as [Hmem Hmax].
      split; [by apply Hin|]. intros x Hx%Hin. by apply Hmax. }
    pose proof (StronglySorted_filter _ (λ pid, pid ≠ c) _ Hsorted) as Hfs.
    split.
    { intros Hall.
      destruct (filter (λ pid, pid ≠ c) (top :: rest)) as [|v vs] eqn:Hf; [done|].
      assert (Hv : v ∈ filter (λ pid, pid ≠ c) (top :: rest)).
      { rewrite Hf. apply elem_of_cons. by left. }
      apply list_elem_of_filter in Hv as [Hvc Hv%Hin]. by apply Hall in Hv. }
    intros (x & Hx & Hxc).
    destruct (filter (λ pid, pid ≠ c) (top :: rest)) as [|v vs] eqn:Hf.
    { exfalso. apply Hin in Hx.
      assert (Hxf : x ∈ filter (λ pid, pid ≠ c) (top :: rest))
        by by apply list_elem_of_filter.
      rewrite Hf in Hxf. by apply elem_of_nil in Hxf. }
    cbn [head default].
    assert (Hv : v ∈ filter (λ pid, pid ≠ c) (top :: rest)).
    { rewrite Hf. apply elem_of_cons. by left. }
    apply list_elem_of_filter in Hv as [Hvc Hv%Hin].
    split; [done|]. split; [done|].
    intros y Hy%Hin Hyc.
    assert (Hyf : y ∈ v :: vs) by (rewrite <- Hf; by apply list_elem_of_filter).
    apply elem_of_cons in Hyf as [->|Hyf]; [apply Qle_refl|].
    by apply (StronglySorted_head_max _ _ _ Hfs).
Qed.

(** ** The squad selector on a valid squad (C2) *)

Lemma filter_all {A} (P : A → Prop) `{∀ x, Decision (P x)} (l : list A) :
  Forall P l → filter P l = l.
Proof.
  induction 1 as [|x l Hx Hl IH]; [done|].
  by rewrite filter_cons_True, IH.
Qed.

Lemma filter_none {A} (P : A → Prop) `{∀ x, Decision (P x)} (l : list A) :
  Forall (λ x, ¬ P x) l → filter P l = [].
Proof.
  induction 1 as [|x l Hx Hl IH]; [done|].
  by rewrite filter_cons_False.
Qed.

Lemma filter_ext_in {A} (P Q : A → Prop)
    `{∀ x, Decision (P x)} `{∀ x, Decision (Q x)} (l : list A) :
  (∀ x, x ∈ l → P x ↔ Q x) → filter P l = filter Q l.
Proof.
  induction l as [|x l IH]; intros Hext; [done|].
  rewrite !filter_cons.
  assert (Hx : P x ↔ Q x) by (apply Hext, elem_of_cons; by left).
  rewrite IH by (intros y Hy; apply Hext, elem_of_cons; by right).
  destruct (decide (P x)), (decide (Q x)); tauto.
Qed.

Lemma filter_notin_take {A} (f : A → Z) (n : nat) (l : list A) :
  NoDup (f <$> l) →
  filter (λ x, f x ∉ take n (f <$> l)) l = drop n l.
Proof.
  revert l. induction n as [|n IH]; intros l Hnd.
  - simpl. apply filter_all, Forall_forall. intros x _. apply not_elem_of_nil.
  - destruct l as [|x l]; [done|].
    rewrite fmap_cons in Hnd. apply NoDup_cons in Hnd as [Hx Hnd].
    cbn [fmap list_fmap take drop].
    rewrite filter_cons_False by (intros Hn; apply Hn, elem_of_cons; by left).
    rewrite <- (IH l Hnd). apply filter_ext_in. intros y Hy.
    rewrite not_elem_of_cons.
    assert (f y ≠ f x).
    { intros Heq. apply Hx. rewrite <- Heq. apply list_elem_of_fmap. by exists y. }
    tauto.
Qed.

Lemma NoDup_fmap_filter {A} (f : A → Z) (P : A → Prop) `{∀ x, Decision (P x)}
    (l : list A) :
  NoDup (f <$> l) → NoDup (f <$> filter P l).
Proof.
  induction l as [|x l IH]; [done|].
  rewrite fmap_cons. intros [Hx Hnd]%NoDup_cons.
  rewrite filter_cons. case_decide; [|by apply IH].
  rewrite fmap_cons. apply NoDup_cons. split; [|by apply IH].
  intros (y & Hy & [_ Hin]%list_elem_of_filter)%list_elem_of_fmap.
  apply Hx, list_elem_of_fmap. by exists y.
Qed.

Lemma count_pos_app positions pos l1 l2 :
  count_pos positions pos (l1 ++ l2)
  = (count_pos positions pos l1 + count_pos positions pos l2)%nat.
Proof. unfold count_pos. by rewrite filter_app, length_app. Qed.

Lemma count_pos_all positions pos l :
  Forall (λ i, positions !! i = Some pos) l → count_pos positions pos l = length l.
Proof. intros Hall. unfold count_pos. by rewrite filter_all. Qed.

Lemma count_pos_other positions pos pos' l :
  pos ≠ pos' →
  Forall (λ i, positions !! i = Some pos') l → count_pos positions pos l = 0%nat.
Proof.
  intros Hne Hall. unfold count_pos. rewrite filter_none; [done|].
  eapply Forall_impl; [exact Hall|]. intros i Hi. rewrite Hi. congruence.
Qed.

Lemma count_pos_sublist positions pos l1 l2 :
  l1 `sublist_of` l2 → (count_pos positions pos l1 ≤ count_pos positions pos l2)%nat.
Proof.
  intros Hsub. unfold count_pos. apply sublist_length.
  induction Hsub as [|x l1 l2 Hsub IH|x l1 l2 Hsub IH]; [done|..];
    rewrite ?filter_cons; repeat case_decide;
    try (by constructor); done.
Qed.

Lemma count_pos_perm positions pos l1 l2 :
  l1 ≡ₚ l2 → count_pos positions pos l1 = count_pos positions pos l2.
Proof. intros Hp. unfold count_pos. by rewrite Hp. Qed.

(** Every id not counted under one of the four codes is counted here. *)
Lemma count_pos_partition positions l :
  (count_pos positions "GK" l + count_pos positions "DEF" l
   + count_pos positions "MID" l + count_pos positions "FWD" l
   + length (filter (λ i, positions !! i ∉ [Some "GK"; Some "DEF"; Some "MID"; Some "FWD"]) l)
   = length l)%nat.
Proof.
  unfold count_pos. induction l as [|x l IH]; [done|].
  rewrite !filter_cons. simpl length. rewrite <- IH.
  assert (Hcls : positions !! x ∉ [Some "GK"; Some "DEF"; Some "MID"; Some "FWD"]
                 ↔ positions !! x ≠ Some "GK" ∧ positions !! x ≠ Some "DEF" ∧
                   positions !! x ≠ Some "MID" ∧ positions !! x ≠ Some "FWD").
  { rewrite !not_elem_of_cons. pose proof (not_elem_of_nil (positions !! x)). tauto. }
  repeat case_decide; simpl; try lia; try congruence; tauto.
Qed.

(** The first loop of [choose_starting_xi] files every player under the
    code that [positions.get(pid, "MID")] gives. *)
Lemma group_by_pos_lookup_gen (positions : gmap Z string) (items : list (Z * Q))
    (m : gmap string (list (Z * Q))) (k : string) (l : list (Z * Q)) :
  m !! k = Some l →
  foldl (λ by_pos '(pid, ep),
           setdefault_append (default "MID" (positions !! pid)) (pid, ep) by_pos)
        m items !! k
  = Some (l ++ filter (λ x, default "MID" (positions !! x.1) = k) items).
Proof.
  revert m l. induction items as [|[pid ep] items IH]; intros m l Hm.
  - simpl. by rewrite app_nil_r.
  - cbn [foldl]. rewrite filter_cons. cbn [fst].
    unfold setdefault_append at 2. case_decide as Hk.
    + rewrite (IH _ (l ++ [(pid, ep)])).
      * by rewrite <- app_assoc.
      * by rewrite Hk, lookup_insert_eq, Hm.
    + rewrite (IH _ l); [done|]. by rewrite lookup_insert_ne.
Qed.

Lemma group_by_pos_lookup (ep_by_player : list (Z * Q)) (positions : gmap Z string)
    (k : string) :
  k ∈ ["GK"; "DEF"; "MID"; "FWD"] →
  group_by_pos ep_by_player positions !! k
  = Some (filter (λ x, default "MID" (positions !! x.1) = k) ep_by_player).
Proof.
  intros Hk. unfold group_by_pos.
  rewrite (group_by_pos_lookup_gen _ _ _ k []); [done|].
  repeat (apply elem_of_cons in Hk as [->|Hk]; [done|]).
  by apply elem_of_nil in Hk.
Qed.

Lemma fill_remaining_all (positions : gmap Z string) (cands : list (Z * Q))
    (selected : list Z) (counts : gmap string nat) :
  Forall (λ x : Z * Q,
            ∃ pos, pos ∈ ["DEF"; "MID"; "FWD"] ∧ positions !! x.1 = Some pos) cands →
  room positions counts cands.*1 →
  ∃ counts',
    fill_remaining positions cands selected counts
    = Some (selected ++ take (11 - length selected) cands.*1, counts').
Proof.
  revert selected counts.
  induction cands as [|[pid ep] cands IH]; intros selected counts Hcls Hroom.
  - exists counts. simpl. by rewrite take_nil, app_nil_r.
  - cbn [fill_remaining].
    destruct (11 <=? length selected)%nat eqn:Hfull.
    { apply Nat.leb_le in Hfull. exists counts.
      replace (11 - length selected)%nat with 0%nat by lia.
      by rewrite take_0, app_nil_r. }
    apply Nat.leb_gt in Hfull.
    apply Forall_cons in Hcls as [(pos & Hpos & Hpid) Hcls].
    cbn [fst] in Hpid. rewrite Hpid. cbn [mbind option_bind].
    destruct (Hroom pos Hpos) as (c & mx & Hc & Hmx & Hle).
    rewrite Hc, Hmx. cbn [mbind option_bind].
    rewrite fmap_cons in Hle. cbn [fst] in Hle.
    change (pid :: cands.*1) with ([pid] ++ cands.*1) in Hle.
    rewrite count_pos_app in Hle.
    rewrite (count_pos_all _ _ [pid]) in Hle by (by constructor).
    simpl length in Hle.
    assert (Hlt : (c <? mx)%nat = true) by (apply Nat.ltb_lt; lia).
    rewrite Hlt.
    destruct (IH (selected ++ [pid]) (<[pos:=(c + 1)%nat]> counts) Hcls)
      as (counts' & Hfill).
    { intros pos' Hpos'.
      destruct (decide (pos' = pos)) as [->|Hne].
      - exists (c + 1)%nat, mx. rewrite lookup_insert_eq.
        repeat split; [done|lia].
      - destruct (Hroom pos' Hpos') as (c' & mx' & Hc' & Hmx' & Hle').
        exists c', mx'. rewrite lookup_insert_ne by done.
        repeat split; [done..|].
        rewrite fmap_cons in Hle'. cbn [fst] in Hle'.
        change (pid :: cands.*1) with ([pid] ++ cands.*1) in Hle'.
        rewrite count_pos_app in Hle'.
        rewrite (count_pos_other _ pos' pos [pid]) in Hle'
          by (done || by constructor).
        lia. }
    exists counts'. rewrite Hfill. f_equal. f_equal.
    rewrite length_app. simpl length. rewrite <- app_assoc.
    f_equal. rewrite fmap_cons. cbn [fst].
    replace (11 - length selected)%nat with (S (11 - (length selected + 1)))%nat by lia.
    done.
Qed.

Lemma valid_squad_positions ep_by_player positions pid :
  valid_squad ep_by_player positions → pid ∈ ep_by_player.*1 →
  positions !! pid ∈ [Some "GK"; Some "DEF"; Some "MID"; Some "FWD"].
Proof.
  intros (_ & Hlen & Hg & Hd & Hm & Hf) Hin.
  pose proof (count_pos_partition positions ep_by_player.*1) as Hpart.
  rewrite Hg, Hd, Hm, Hf, length_fmap, Hlen in Hpart.
  destruct (decide (positions !! pid
                    ∈ [Some "GK"; Some "DEF"; Some "MID"; Some "FWD"]))
    as [|Hout]; [done|].
  assert (Hmem : pid ∈ filter
            (λ i, positions !! i ∉ [Some "GK"; Some "DEF"; Some "MID"; Some "FWD"])
            ep_by_player.*1) by by apply list_elem_of_filter.
  destruct (filter _ ep_by_player.*1); [by apply elem_of_nil in Hmem|].
  simpl in Hpart. lia.
Qed.

Lemma length_filter_fmap {A} (f : A → Z) (P : Z → Prop) `{∀ x, Decision (P x)}
    (l : list A) :
  length (filter P (f <$> l)) = length (filter (λ x, P (f x)) l).
Proof.
  induction l as [|x l IH]; [done|].
  rewrite fmap_cons, !filter_cons. case_decide; simpl; by rewrite IH.
Qed.

(** The sorted group of one position, on a valid squad. *)
Lemma group_facts ep_by_player positions (k : string) :
  valid_squad ep_by_player positions →
  k ∈ ["GK"; "DEF"; "MID"; "FWD"] →
  let grp := py_sort snd true
               (filter (λ x : Z * Q, default "MID" (positions !! x.1) = k)
                       ep_by_player) in
  Forall (λ i, positions !! i = Some k) grp.*1 ∧
  length grp = count_pos positions k ep_by_player.*1 ∧
  NoDup grp.*1 ∧
  (∀ i, i ∈ grp.*1 → i ∈ ep_by_player.*1).
Proof.
  intros Hvalid Hk grp.
  assert (Hcls : ∀ x : Z * Q, x ∈ ep_by_player →
            default "MID" (positions !! x.1) = k ↔ positions !! x.1 = Some k).
  { intros x Hx.
    assert (Hpos : positions !! x.1 ∈ [Some "GK"; Some "DEF"; Some "MID"; Some "FWD"]).
    { apply (valid_squad_positions ep_by_player); [done|].
      apply list_elem_of_fmap. by exists x. }
    repeat (apply elem_of_cons in Hpos as [->|Hpos]; [simpl; split; congruence|]).
    by apply elem_of_nil in Hpos. }
  assert (Hperm : grp ≡ₚ filter (λ x : Z * Q, default "MID" (positions !! x.1) = k)
                           ep_by_player) by apply py_sort_perm.
  split; [|split; [|split]].
  - rewrite Forall_forall. intros i (x & -> & Hx)%list_elem_of_fmap.
    rewrite Hperm in Hx. apply list_elem_of_filter in Hx as [Hx Hin].
    by apply Hcls.
  - rewrite Hperm. unfold count_pos. rewrite length_filter_fmap.
    f_equal. by apply filter_ext_in.
  - rewrite Hperm. apply NoDup_fmap_filter. apply Hvalid.
  - intros i (x & -> & Hx)%list_elem_of_fmap.
    rewrite Hperm in Hx. apply list_elem_of_filter in Hx as [_ Hin].
    apply list_elem_of_fmap. by exists x.
Qed.

Lemma meet_minimum_eval (by_pos : gmap string (list (Z * Q)))
    (selected : list Z) (counts : gmap string nat) (pos : string)
    (need c : nat) (grp : list (Z * Q)) :
  MIN_BY_POS !! pos = Some need → by_pos !! pos = Some grp →
  counts !! pos = Some c →
  Forall (λ pid, pid ∉ selected) grp.*1 → (need ≤ length grp)%nat →
  meet_minimum by_pos (selected, counts) pos
  = Some (selected ++ take need grp.*1, <[ pos := (c + need)%nat ]> counts).
Proof.
  intros Hneed Hgrp Hc Hfree Hlen. unfold meet_minimum.
  rewrite Hneed, Hgrp, Hc. cbn [mbind option_bind].
  rewrite (filter_all _ _ Hfree), length_fmap.
  by rewrite Nat.min_r.
Qed.

Lemma not_elem_of_by_pos (positions : gmap Z string) (k k' : string)
    (i : Z) (l : list Z) :
  k ≠ k' → positions !! i = Some k →
  Forall (λ j, positions !! j = Some k') l → i ∉ l.
Proof.
  intros Hne Hi Hl Hin. rewrite Forall_forall in Hl.
  apply Hl in Hin. congruence.
Qed.

Lemma NoDup_app_by_pos (positions : gmap Z string) (k : string) (l1 l2 : list Z) :
  NoDup l1 → NoDup l2 →
  Forall (λ i, positions !! i ≠ Some k) l1 →
  Forall (λ i, positions !! i = Some k) l2 →
  NoDup (l1 ++ l2).
Proof.
  intros H1 H2 Hl1 Hl2. apply NoDup_app. repeat split; [done| |done].
  intros i Hi1 Hi2. rewrite Forall_forall in Hl1, Hl2.
  by apply (Hl1 i Hi1), Hl2.
Qed.

Lemma Forall_pos_ne (positions : gmap Z string) (k k' : string) (l : list Z) :
  k ≠ k' → Forall (λ i, positions !! i = Some k') l →
  Forall (λ i, positions !! i ≠ Some k) l.
Proof.
  intros Hne Hl. eapply Forall_impl; [exact Hl|].
  intros i Hi. rewrite Hi. congruence.
Qed.

(** Membership in a list given by its elements. *)
Ltac list_mem :=
  repeat first [apply list_elem_of_here | apply list_elem_of_further].

(** C2: on every valid 15-player squad [choose_starting_xi] returns a
    starting list of exactly 11 distinct ids of the squad, with exactly one
    goalkeeper, 3 to 5 defenders, 2 to 5 midfielders and 1 to 3 forwards. *)
Theorem C2_choose_starting_xi_legal
    (ep_by_player : list (Z * Q)) (positions : gmap Z string) :
  valid_squad ep_by_player positions →
  ∃ start bench,
    choose_starting_xi ep_by_player positions = Some (start, bench) ∧
    length start = 11%nat ∧
    NoDup start ∧
    (∀ pid, pid ∈ start → pid ∈ ep_by_player.*1) ∧
    count_pos positions "GK" start = 1%nat ∧
    (3 ≤ count_pos positions "DEF" start ≤ 5)%nat ∧
    (2 ≤ count_pos positions "MID" start ≤ 5)%nat ∧
    (1 ≤ count_pos positions "FWD" start ≤ 3)%nat.
Proof.
  intros Hvalid.
  set (grp := λ k : string,
         py_sort snd true
           (filter (λ x : Z * Q, default "MID" (positions !! x.1) = k) ep_by_player)).
  assert (Hby : ∀ k, k ∈ ["GK"; "DEF"; "MID"; "FWD"] →
            (py_sort snd true <$> group_by_pos ep_by_player positions) !! k
            = Some (grp k)).
  { intros k Hk. by rewrite lookup_fmap, group_by_pos_lookup. }
  destruct (group_facts ep_by_player positions "GK" Hvalid) as (HG & HGlen & HGnd & HGin);
    [list_mem|].
  destruct (group_facts ep_by_player positions "DEF" Hvalid) as (HD & HDlen & HDnd & HDin);
    [list_mem|].
  destruct (group_facts ep_by_player positions "MID" Hvalid) as (HM & HMlen & HMnd & HMin);
    [list_mem|].
  destruct (group_facts ep_by_player positions "FWD" Hvalid) as (HF & HFlen & HFnd & HFin);
    [list_mem|].
  fold (grp "GK") in HG, HGlen, HGnd, HGin.
  fold (grp "DEF") in HD, HDlen, HDnd, HDin.
  fold (grp "MID") in HM, HMlen, HMnd, HMin.
  fold (grp "FWD") in HF, HFlen, HFnd, HFin.
  destruct Hvalid as (Hnd & Hlen & Hng & Hn_d & Hnm & Hnf).
  rewrite Hng in HGlen. rewrite Hn_d in HDlen. rewrite Hnm in HMlen. rewrite Hnf in HFlen.
  unfold choose_starting_xi.
  rewrite !Hby by list_mem.
  cbn [mbind option_bind].
  pose proof (Hby "DEF" ltac:(list_mem)) as HbyD.
  pose proof (Hby "MID" ltac:(list_mem)) as HbyM.
  pose proof (Hby "FWD" ltac:(list_mem)) as HbyF.
  clear Hby.
  set (by_pos := py_sort snd true <$> group_by_pos ep_by_player positions) in *.
  set (G := grp "GK") in *. set (D := grp "DEF") in *.
  set (Mi := grp "MID") in *. set (F := grp "FWD") in *.
  clearbody by_pos G D Mi F. clear grp.
  destruct G as [|[g eg] G']; [done|].
  rewrite fmap_cons in HG, HGin. cbn [fst] in HG, HGin.
  apply Forall_cons in HG as [Hg _].
  assert (Hgin : g ∈ ep_by_player.*1) by (apply HGin, elem_of_cons; by left).
  clear HGin HGnd HGlen G' eg.
  set (counts0 := <["GK":=1%nat]> _).
  cbn [foldlM].
  rewrite (meet_minimum_eval by_pos [g] counts0 "DEF" 3 0 D); [|done..| |lia].
  2:{ eapply Forall_impl; [exact HD|]. intros i Hi [->|[]%elem_of_nil]%elem_of_cons.
      congruence. }
  cbn [mbind option_bind].
  set (counts1 := <["DEF":=_]> counts0).
  rewrite (meet_minimum_eval by_pos _ counts1 "MID" 2 0 Mi); [|done..| |lia].
  2:{ rewrite Forall_forall. intros i Hi [->%list_elem_of_singleton|Hin]%elem_of_app.
      - rewrite Forall_forall in HM. apply HM in Hi. congruence.
      - apply subseteq_take in Hin. revert Hin.
        eapply (not_elem_of_by_pos positions "MID" "DEF"); [done| |done].
        rewrite Forall_forall in HM. by apply HM. }
  cbn [mbind option_bind].
  set (counts2 := <["MID":=_]> counts1).
  rewrite (meet_minimum_eval by_pos _ counts2 "FWD" 1 0 F); [|done..| |lia].
  2:{ rewrite Forall_forall. intros i Hi.
      assert (Hif : positions !! i = Some "FWD").
      { rewrite Forall_forall in HF. by apply HF. }
      intros [[->%list_elem_of_singleton|Hin]%elem_of_app|Hin]%elem_of_app.
      - congruence.
      - apply subseteq_take in Hin. revert Hin.
        by eapply (not_elem_of_by_pos positions "FWD" "DEF").
      - apply subseteq_take in Hin. revert Hin.
        by eapply (not_elem_of_by_pos positions "FWD" "MID"). }
  cbn [mbind option_bind].
  set (counts3 := <["FWD":=_]> counts2).
  set (sel := (([g] ++ take 3 D.*1) ++ take 2 Mi.*1) ++ take 1 F.*1).
  set (C := filter (λ x : Z * Q, x.1 ∉ sel) (D ++ Mi ++ F)).
  pose proof (Forall_take _ 3%nat _ HD) as HtD.
  pose proof (Forall_take _ 2%nat _ HM) as HtM.
  pose proof (Forall_take _ 1%nat _ HF) as HtF.
  pose proof (Forall_drop _ 3%nat _ HD) as HdD.
  pose proof (Forall_drop _ 2%nat _ HM) as HdM.
  pose proof (Forall_drop _ 1%nat _ HF) as HdF.
  assert (Hg1 : Forall (λ i, positions !! i = Some "GK") [g]) by by constructor.
  assert (HC : C = drop 3 D ++ drop 2 Mi ++ drop 1 F).
  { unfold C. rewrite !filter_app. f_equal; [|f_equal].
    - rewrite <- (filter_notin_take fst 3 D HDnd). apply filter_ext_in.
      intros x Hx.
      assert (Hx1 : positions !! x.1 = Some "DEF").
      { rewrite Forall_forall in HD. apply HD, list_elem_of_fmap. by exists x. }
      unfold sel. rewrite !not_elem_of_app. split; [tauto|]. intros Hn.
      repeat split; [|done|..];
        (eapply (not_elem_of_by_pos positions "DEF"); [|exact Hx1|eassumption]; done).
    - rewrite <- (filter_notin_take fst 2 Mi HMnd). apply filter_ext_in.
      intros x Hx.
      assert (Hx1 : positions !! x.1 = Some "MID").
      { rewrite Forall_forall in HM. apply HM, list_elem_of_fmap. by exists x. }
      unfold sel. rewrite !not_elem_of_app. split; [tauto|]. intros Hn.
      repeat split; [| |done|];
        (eapply (not_elem_of_by_pos positions "MID"); [|exact Hx1|eassumption]; done).
    - rewrite <- (filter_notin_take fst 1 F HFnd). apply filter_ext_in.
      intros x Hx.
      assert (Hx1 : positions !! x.1 = Some "FWD").
      { rewrite Forall_forall in HF. apply HF, list_elem_of_fmap. by exists x. }
      unfold sel. rewrite !not_elem_of_app. split; [tauto|]. intros Hn.
      repeat split; [| | |done];
        (eapply (not_elem_of_by_pos positions "FWD"); [|exact Hx1|eassumption]; done). }
  assert (HC1 : C.*1 = drop 3 D.*1 ++ drop 2 Mi.*1 ++ drop 1 F.*1).
  { by rewrite HC, !fmap_app, !fmap_drop. }
  assert (Hlens : length (take 3 D.*1) = 3%nat ∧ length (take 2 Mi.*1) = 2%nat ∧
                  length (take 1 F.*1) = 1%nat ∧ length (drop 3 D.*1) = 2%nat ∧
                  length (drop 2 Mi.*1) = 3%nat ∧ length (drop 1 F.*1) = 2%nat).
  { rewrite !length_take, !length_drop, !length_fmap. lia. }
  destruct Hlens as (LtD & LtM & LtF & LdD & LdM & LdF).
  assert (Hsel_len : length sel = 7%nat).
  { unfold sel. rewrite !length_app. simpl length. lia. }
  set (C' := py_sort snd true C).
  assert (HC' : C'.*1 ≡ₚ C.*1) by (unfold C'; by rewrite py_sort_perm).
  (* counts of the selection so far and of the candidates *)
  assert (Hsel_count :
            count_pos positions "GK" sel = 1%nat ∧ count_pos positions "DEF" sel = 3%nat ∧
            count_pos positions "MID" sel = 2%nat ∧ count_pos positions "FWD" sel = 1%nat).
  { unfold sel. rewrite !count_pos_app.
    rewrite (count_pos_all _ "GK" [g]), (count_pos_all _ "DEF" (take 3 D.*1)),
      (count_pos_all _ "MID" (take 2 Mi.*1)), (count_pos_all _ "FWD" (take 1 F.*1))
      by done.
    rewrite (count_pos_other _ "GK" "DEF"), (count_pos_other _ "GK" "MID"),
      (count_pos_other _ "GK" "FWD"), (count_pos_other _ "DEF" "GK"),
      (count_pos_other _ "DEF" "MID"), (count_pos_other _ "DEF" "FWD"),
      (count_pos_other _ "MID" "GK"), (count_pos_other _ "MID" "DEF"),
      (count_pos_other _ "MID" "FWD"), (count_pos_other _ "FWD" "GK"),
      (count_pos_other _ "FWD" "DEF"), (count_pos_other _ "FWD" "MID") by done.
    simpl length. lia. }
  destruct Hsel_count as (SG & SD & SM & SF).
  assert (HC_count :
            count_pos positions "GK" C'.*1 = 0%nat ∧ count_pos positions "DEF" C'.*1 = 2%nat ∧
            count_pos positions "MID" C'.*1 = 3%nat ∧ count_pos positions "FWD" C'.*1 = 2%nat).
  { rewrite !(count_pos_perm _ _ _ _ HC'), HC1, !count_pos_app.
    rewrite (count_pos_all _ "DEF" (drop 3 D.*1)),
      (count_pos_all _ "MID" (drop 2 Mi.*1)), (count_pos_all _ "FWD" (drop 1 F.*1))
      by done.
    rewrite (count_pos_other _ "GK" "DEF"), (count_pos_other _ "GK" "MID"),
      (count_pos_other _ "GK" "FWD"),
      (count_pos_other _ "DEF" "MID"), (count_pos_other _ "DEF" "FWD"),
      (count_pos_other _ "MID" "DEF"),
      (count_pos_other _ "MID" "FWD"),
      (count_pos_other _ "FWD" "DEF"), (count_pos_other _ "FWD" "MID") by done.
    lia. }
  destruct HC_count as (CG & CD & CM & CF).
  assert (HC'len : length C'.*1 = 7%nat).
  { rewrite HC', HC1, !length_app. lia. }
  destruct (fill_remaining_all positions C' sel counts3) as (counts' & Hfill).
  { rewrite Forall_forall. intros x Hx.
    assert (Hx1 : x.1 ∈ C.*1).
    { rewrite <- HC'. apply list_elem_of_fmap. by exists x. }
    rewrite HC1, !elem_of_app in Hx1. rewrite Forall_forall in HdD, HdM, HdF.
    destruct Hx1 as [Hx1|[Hx1|Hx1]].
    - exists "DEF". split; [list_mem|by apply HdD].
    - exists "MID". split; [list_mem|by apply HdM].
    - exists "FWD". split; [list_mem|by apply HdF]. }
  { intros pos Hpos.
    repeat (apply elem_of_cons in Hpos as [->|Hpos]);
      [| | |by apply elem_of_nil in Hpos].
    - exists 3%nat, 5%nat. rewrite CD. by repeat split.
    - exists 2%nat, 5%nat. rewrite CM. by repeat split.
    - exists 1%nat, 3%nat. rewrite CF. by repeat split. }
  rewrite Hfill, Hsel_len. cbn [mbind option_bind].
  eexists _, _. split; [reflexivity|].
  change (11 - 7)%nat with 4%nat.
  pose proof (sublist_take C'.*1 4) as Hsub.
  assert (Hdisj : ∀ i, i ∈ C'.*1 → i ∉ sel).
  { intros i Hi. rewrite HC' in Hi.
    apply list_elem_of_fmap in Hi as (x & -> & Hx).
    by apply list_elem_of_filter in Hx as [Hx _]. }
  assert (HndC : NoDup C'.*1).
  { rewrite HC'. apply NoDup_fmap_filter. rewrite !fmap_app, app_assoc.
    apply (NoDup_app_by_pos positions "FWD"); [|done| |done].
    - apply (NoDup_app_by_pos positions "MID"); [done|done| |done].
      by apply (Forall_pos_ne _ _ "DEF").
    - apply Forall_app. split.
      + by apply (Forall_pos_ne _ _ "DEF").
      + by apply (Forall_pos_ne _ _ "MID"). }
  assert (Hndsel : NoDup sel).
  { unfold sel.
    apply (NoDup_app_by_pos positions "FWD");
      [|by apply (sublist_NoDup _ F.*1), sublist_take| |done].
    - apply (NoDup_app_by_pos positions "MID");
        [|by apply (sublist_NoDup _ Mi.*1), sublist_take| |done].
      + apply (NoDup_app_by_pos positions "DEF");
          [apply NoDup_singleton|by apply (sublist_NoDup _ D.*1), sublist_take| |done].
        by apply (Forall_pos_ne _ _ "GK").
      + apply Forall_app. split.
        * by apply (Forall_pos_ne _ _ "GK").
        * by apply (Forall_pos_ne _ _ "DEF").
    - repeat (apply Forall_app; split).
      + by apply (Forall_pos_ne _ _ "GK").
      + by apply (Forall_pos_ne _ _ "DEF").
      + by apply (Forall_pos_ne _ _ "MID"). }
  assert (Htake : ∀ pos, (count_pos positions pos (take 4 C'.*1)
                          ≤ count_pos positions pos C'.*1)%nat).
  { intros pos. by apply count_pos_sublist. }
  pose proof (Htake "GK") as TG. pose proof (Htake "DEF") as TD.
  pose proof (Htake "MID") as TM. pose proof (Htake "FWD") as TF.
  rewrite !count_pos_app, SG, SD, SM, SF.
  split; [rewrite length_app, length_take; lia|].
  split.
  { apply NoDup_app. repeat split; [done| |by apply (sublist_NoDup _ C'.*1)].
    intros i Hi Hi'. apply subseteq_take in Hi'. by apply (Hdisj i). }
  split.
  { intros pid [Hpid|Hpid]%elem_of_app.
    - unfold sel in Hpid. rewrite !elem_of_app in Hpid.
      destruct Hpid as [[[->%list_elem_of_singleton|Hpid]|Hpid]|Hpid];
        [done|apply HDin|apply HMin|apply HFin];
        by apply subseteq_take in Hpid.
    - apply subseteq_take in Hpid. rewrite HC', HC1, !elem_of_app in Hpid.
      destruct Hpid as [Hpid|[Hpid|Hpid]];
        [apply HDin|apply HMin|apply HFin]; by apply subseteq_drop in Hpid. }
  lia.
Qed.

(** ** The planner always returns a plan *)

Lemma fill_remaining_total (positions : gmap Z string) (cands : list (Z * Q))
    (selected : list Z) (counts : gmap string nat) :
  Forall (λ x : Z * Q,
            ∃ pos, pos ∈ ["DEF"; "MID"; "FWD"] ∧ positions !! x.1 = Some pos) cands →
  (∀ pos, pos ∈ ["DEF"; "MID"; "FWD"] → is_Some (counts !! pos)) →
  is_Some (fill_remaining positions cands selected counts).
Proof.
  revert selected counts.
  induction cands as [|[pid ep] cands IH]; intros selected counts Hcls Hdom; [done|].
  cbn [fill_remaining]. destruct (11 <=? length selected)%nat; [done|].
  apply Forall_cons in Hcls as [(pos & Hpos & Hpid) Hcls].
  cbn [fst] in Hpid. rewrite Hpid. cbn [mbind option_bind].
  destruct (Hdom pos Hpos) as [c Hc]. rewrite Hc. cbn [mbind option_bind].
  assert (Hmx : is_Some (MAX_BY_POS !! pos)).
  { repeat (apply elem_of_cons in Hpos as [->|Hpos]; [done|]).
    by apply elem_of_nil in Hpos. }
  destruct Hmx as [mx Hmx]. rewrite Hmx. cbn [mbind option_bind].
  destruct (c <? mx)%nat; [|by apply IH].
  apply IH; [done|]. intros pos' Hpos'.
  destruct (decide (pos = pos')) as [->|Hne].
  - by rewrite lookup_insert_eq.
  - rewrite lookup_insert_ne by done. by apply Hdom.
Qed.

Lemma meet_minimum_total (by_pos : gmap string (list (Z * Q)))
    (selected : list Z) (counts : gmap string nat) (pos : string) :
  pos ∈ ["DEF"; "MID"; "FWD"] →
  is_Some (by_pos !! pos) → is_Some (counts !! pos) →
  ∃ selected' c,
    meet_minimum by_pos (selected, counts) pos
    = Some (selected', <[ pos := c ]> counts).
Proof.
  intros Hpos [grp Hgrp] [c Hc]. unfold meet_minimum.
  assert (Hneed : is_Some (MIN_BY_POS !! pos)).
  { repeat (apply elem_of_cons in Hpos as [->|Hpos]; [done|]).
    by apply elem_of_nil in Hpos. }
  destruct Hneed as [need Hneed].
  rewrite Hneed, Hgrp, Hc. cbn [mbind option_bind]. by eexists _, _.
Qed.

Lemma choose_starting_xi_total (ep_by_player : list (Z * Q))
    (positions : gmap Z string) :
  (∀ pid, pid ∈ ep_by_player.*1 → is_Some (positions !! pid)) →
  is_Some (choose_starting_xi ep_by_player positions).
Proof.
  intros Hpos. unfold choose_starting_xi.
  set (by_pos := py_sort snd true <$> group_by_pos ep_by_player positions).
  assert (Hby : ∀ k, k ∈ ["GK"; "DEF"; "MID"; "FWD"] →
            by_pos !! k
            = Some (py_sort snd true
                      (filter (λ x : Z * Q, default "MID" (positions !! x.1) = k)
                              ep_by_player))).
  { intros k Hk. unfold by_pos. by rewrite lookup_fmap, group_by_pos_lookup. }
  rewrite (Hby "GK") by list_mem. cbn [mbind option_bind].
  set (init := match py_sort snd true _ with [] => _ | _ => _ end).
  assert (Hinit : ∀ pos, pos ∈ ["DEF"; "MID"; "FWD"] → is_Some (init.2 !! pos)).
  { intros pos Hpos'. unfold init.
    destruct (py_sort snd true _) as [|[gk e] ?]; cbn [snd];
      repeat (apply elem_of_cons in Hpos' as [->|Hpos']; [done|]);
      by apply elem_of_nil in Hpos'. }
  destruct init as [sel0 counts0]. cbn [snd] in Hinit. cbn [foldlM].
  destruct (meet_minimum_total by_pos sel0 counts0 "DEF")
    as (sel1 & c1 & ->); [list_mem|by rewrite Hby by list_mem|apply Hinit; list_mem|].
  cbn [mbind option_bind].
  destruct (meet_minimum_total by_pos sel1 (<["DEF":=c1]> counts0) "MID")
    as (sel2 & c2 & ->); [list_mem|by rewrite Hby by list_mem| |].
  { rewrite lookup_insert_ne by done. apply Hinit; list_mem. }
  cbn [mbind option_bind].
  destruct (meet_minimum_total by_pos sel2
              (<["MID":=c2]> (<["DEF":=c1]> counts0)) "FWD")
    as (sel3 & c3 & ->); [list_mem|by rewrite Hby by list_mem| |].
  { rewrite !lookup_insert_ne by done. apply Hinit; list_mem. }
  cbn [mbind option_bind].
  rewrite !Hby by list_mem. cbn [mbind option_bind].
  match goal with
  | |- is_Some (fill_remaining ?p ?c ?s ?n ≫= _) =>
      destruct (fill_remaining_total p c s n) as [[sel4 counts4] ->]; [| |done]
  end.
  - rewrite Forall_forall. intros x Hx.
    rewrite py_sort_elem_of in Hx.
    apply list_elem_of_filter in Hx as [_ Hx].
    assert (Hsome : is_Some (positions !! x.1)).
    { apply Hpos, list_elem_of_fmap. exists x. split; [done|].
      rewrite !elem_of_app, !py_sort_elem_of, !list_elem_of_filter in Hx. tauto. }
    destruct Hsome as [s Hs].
    rewrite !elem_of_app, !py_sort_elem_of, !list_elem_of_filter, Hs in Hx.
    simpl in Hx. exists s. split; [|done].
    destruct Hx as [[-> _]|[[-> _]|[-> _]]]; list_mem.
  - intros pos Hpos'.
    repeat (apply elem_of_cons in Hpos' as [->|Hpos']);
      [| | |by apply elem_of_nil in Hpos'].
    + rewrite !lookup_insert_ne by done. by rewrite lookup_insert_eq.
    + rewrite lookup_insert_ne by done. by rewrite lookup_insert_eq.
    + by rewrite lookup_insert_eq.
Qed.

Lemma dict_set_keys {V} (k : Z) (v : V) (d : list (Z * V)) (i : Z) :
  i ∈ (dict_set k v d).*1 ↔ i = k ∨ i ∈ d.*1.
Proof.
  induction d as [|[k' v'] d IH]; simpl.
  - rewrite list_elem_of_singleton, elem_of_nil. tauto.
  - case_decide as Hk; simpl; rewrite !elem_of_cons.
    + subst. tauto.
    + rewrite IH. tauto.
Qed.

Lemma ep_by_player_of_keys (M : libm) picks elem_by_id team_idx fixtures_by_team
    (i : Z) :
  i ∈ (ep_by_player_of M picks elem_by_id team_idx fixtures_by_team).*1
  ↔ i ∈ pick_element <$> picks.
Proof.
  unfold ep_by_player_of.
  assert (Hgen : ∀ acc : list (Z * Q),
    i ∈ (foldl (λ ep_by_player p,
                  let eid := pick_element p in
                  let e := default no_element (elem_by_id !! eid) in
                  let team_id := int_or 0 (team e) in
                  let fx_rows := default [] (fixtures_by_team !! team_id) in
                  let ep := aggregate_epdelta_for_fixtures M e fx_rows team_idx in
                  dict_set eid (round2 ep) ep_by_player) acc picks).*1
    ↔ i ∈ acc.*1 ∨ i ∈ pick_element <$> picks).
  { induction picks as [|p picks IH]; intros acc.
    - simpl. rewrite elem_of_nil. tauto.
    - cbn [foldl]. rewrite IH, dict_set_keys, fmap_cons, elem_of_cons. tauto. }
  rewrite Hgen. simpl. rewrite elem_of_nil. tauto.
Qed.

Lemma plan_gameweek_total (M : libm) picks elements teams fixtures_gw gw
    ownership_idx mode :
  is_Some (index_by id elements) → is_Some (index_by team_id teams) →
  is_Some (plan_gameweek M picks elements teams fixtures_gw gw ownership_idx mode).
Proof.
  intros [elem_by_id He] [team_idx Ht]. unfold plan_gameweek.
  rewrite He, Ht. cbn [mbind option_bind].
  destruct (repair_current _ _ _ _) as [cs cb].
  destruct (choose_starting_xi_total
              (ep_by_player_of M picks elem_by_id team_idx
                 (fixtures_by_team_of fixtures_gw team_idx))
              (positions_of picks elem_by_id)) as [[os ob] Hopt].
  { intros pid Hpid%ep_by_player_of_keys. by rewrite positions_of_lookup. }
  rewrite Hopt. cbn [mbind option_bind].
  by destruct (recommend_captain_from_ids _ _ _ _ _).
Qed.

(** ** Repair of a current XI with two goalkeepers (C7) *)

Lemma list_remove_filter (x : Z) (l : list Z) :
  NoDup l → list_remove x l = filter (λ y, y ≠ x) l.
Proof.
  induction 1 as [|y l Hy Hnd IH]; [done|].
  cbn [list_remove]. rewrite filter_cons. case_decide as Hxy.
  - subst y. rewrite decide_False by (intros Hn; by apply Hn).
    symmetry. apply filter_all, Forall_forall. intros z Hz ->. by apply Hy.
  - rewrite decide_True by congruence. by rewrite IH.
Qed.

Lemma filter_comm {A} (P Q : A → Prop)
    `{∀ x, Decision (P x)} `{∀ x, Decision (Q x)} (l : list A) :
  filter P (filter Q l) = filter Q (filter P l).
Proof. rewrite !list_filter_filter. apply list_filter_iff. tauto. Qed.

Lemma list_remove_length (x : Z) (l : list Z) :
  x ∈ l → length (list_remove x l) = (length l - 1)%nat.
Proof.
  induction l as [|y l IH]; [by intros ?%elem_of_nil|].
  intros Hx. cbn [list_remove]. case_decide as Hxy; [simpl; lia|].
  apply elem_of_cons in Hx as [->|Hx]; [done|].
  simpl. rewrite IH by done. destruct l; [by apply elem_of_nil in Hx|simpl; lia].
Qed.

Lemma list_remove_app_l (x : Z) (l1 l2 : list Z) :
  x ∈ l1 → list_remove x (l1 ++ l2) = list_remove x l1 ++ l2.
Proof.
  induction l1 as [|y l1 IH]; [by intros ?%elem_of_nil|].
  intros Hx. cbn [list_remove app]. case_decide; [done|].
  apply elem_of_cons in Hx as [->|Hx]; [done|].
  by rewrite <- app_comm_cons, IH.
Qed.

Lemma promote_first_full (outfield_bench cs cb : list Z) :
  (11 ≤ length cs)%nat → promote_first outfield_bench cs cb = (cs, cb).
Proof.
  intros Hfull. induction outfield_bench as [|pid rest IH]; [done|].
  cbn [promote_first].
  replace (length cs <? 11)%nat with false by (symmetry; apply Nat.ltb_ge; lia).
  by rewrite andb_false_r.
Qed.

Lemma promote_first_head (pid : Z) (rest cs cb : list Z) :
  pid ∉ cs → (length cs < 11)%nat →
  promote_first (pid :: rest) cs cb = (cs ++ [pid], list_remove pid cb).
Proof.
  intros Hpid Hlen. cbn [promote_first].
  rewrite bool_decide_eq_true_2 by done.
  by replace (length cs <? 11)%nat with true by (symmetry; apply Nat.ltb_lt; lia).
Qed.

Lemma py_sort_two {A} (key : A → Q) (a b : A) :
  py_sort key true [a; b] = if fltb (key a) (key b) then [b; a] else [a; b].
Proof. reflexivity. Qed.

(** The head of the stable descending sort is the first of the elements
    with the highest key. *)
Lemma py_sort_desc_head {A} (key : A → Q) (l : list A) (x : A) (rest : list A) :
  py_sort key true l = x :: rest →
  ∃ l1 l2, l = l1 ++ x :: l2 ∧
    Forall (λ y, (key y < key x)%Q) l1 ∧ Forall (λ y, (key y <= key x)%Q) l2.
Proof.
  revert x rest. induction l as [|a l IH]; intros x rest Hsort; [done|].
  change (py_sort key true (a :: l))
    with (sort_insert fltb key true a (py_sort key true l)) in Hsort.
  pose proof (py_sort_perm key true l) as Hperm.
  destruct (py_sort key true l) as [|y s] eqn:Hs.
  - apply Permutation_nil_l in Hperm. subst l.
    injection Hsort as <- <-. exists [], []. by repeat constructor.
  - destruct (IH y s eq_refl) as (l1 & l2 & -> & Hl1 & Hl2).
    cbn [sort_insert] in Hsort. unfold goes_before in Hsort.
    destruct (fltb (key a) (key y)) eqn:Hlt; float_cmp.
    + injection Hsort as <- <-. exists (a :: l1), l2.
      split; [done|]. split; [by constructor|done].
    + injection Hsort as <- <-. exists [], (l1 ++ y :: l2).
      split; [done|]. split; [constructor|].
      apply Forall_app. split; [|constructor].
      * eapply Forall_impl; [exact Hl1|]. intros z Hz. simpl in Hz.
        apply Qlt_le_weak. by apply Qlt_le_trans with (key y).
      * done.
      * eapply Forall_impl; [exact Hl2|]. intros z Hz. simpl in Hz.
        by apply Qle_trans with (key y).
Qed.

Lemma repair_current_two_gks (positions : gmap Z string) (ep_by_player : list (Z * Q))
    (starters benchers : list Z) :
  NoDup (starters ++ benchers) →
  count_pos positions "GK" starters = 2%nat →
  ∃ first second,
    filter (λ pid, positions !! pid = Some "GK") starters = [first; second] ∧
    let later_wins := fltb (ep_of ep_by_player first) (ep_of ep_by_player second) in
    let keep := if later_wins then second else first in
    let demoted := if later_wins then first else second in
    filter (λ pid, positions !! pid = Some "GK") (list_remove demoted starters) = [keep] ∧
    let outfield := filter (λ pid, positions !! pid ≠ Some "GK") benchers in
    ((length starters ≤ 11)%nat → outfield ≠ [] →
     ∃ before promoted after,
       outfield = before ++ promoted :: after ∧
       Forall (λ b, (ep_of ep_by_player b < ep_of ep_by_player promoted)%Q) before ∧
       Forall (λ b, (ep_of ep_by_player b <= ep_of ep_by_player promoted)%Q) after ∧
       repair_current positions ep_by_player starters benchers
       = (list_remove demoted starters ++ [promoted],
          list_remove promoted benchers ++ [demoted])) ∧
    (((11 < length starters)%nat ∨ outfield = []) →
     repair_current positions ep_by_player starters benchers
     = (list_remove demoted starters, benchers ++ [demoted])).
Proof.
  intros Hnd Hcount.
  apply NoDup_app in Hnd as (Hnds & Hdisj & Hndb).
  unfold repair_current, count_pos in *.
  assert (Hgk_nd : NoDup (filter (λ pid, positions !! pid = Some "GK") starters))
    by by apply NoDup_filter.
  destruct (filter (λ pid, positions !! pid = Some "GK") starters)
    as [|a [|b [|? ?]]] eqn:Hgks; try done.
  clear Hcount.
  assert (Ha : a ∈ starters ∧ positions !! a = Some "GK").
  { assert (Hin : a ∈ [a; b]) by list_mem. rewrite <- Hgks in Hin.
    apply list_elem_of_filter in Hin. tauto. }
  assert (Hb : b ∈ starters ∧ positions !! b = Some "GK").
  { assert (Hin : b ∈ [a; b]) by list_mem. rewrite <- Hgks in Hin.
    apply list_elem_of_filter in Hin. tauto. }
  assert (Hab : a ≠ b).
  { apply NoDup_cons in Hgk_nd as [Hn _]. intros ->. apply Hn. list_mem. }
  cbn [length Nat.ltb Nat.leb]. rewrite py_sort_two.
  exists a, b. split; [done|]. cbv zeta.
  set (keep := if fltb (ep_of ep_by_player a) (ep_of ep_by_player b) then b else a).
  set (demoted := if fltb (ep_of ep_by_player a) (ep_of ep_by_player b) then a else b).
  assert (Hkd : (keep = a ∧ demoted = b) ∨ (keep = b ∧ demoted = a)).
  { unfold keep, demoted. destruct (fltb _ _); [by right|by left]. }
  assert (Hdrop : drop 1 (if fltb (ep_of ep_by_player a) (ep_of ep_by_player b)
                          then [b; a] else [a; b]) = [demoted]).
  { unfold demoted. by destruct (fltb _ _). }
  rewrite Hdrop. cbn [foldl].
  assert (Hdem : demoted ∈ starters ∧ positions !! demoted = Some "GK" ∧ keep ≠ demoted).
  { destruct Hkd as [(-> & ->)|(-> & ->)]; repeat split; try tauto; congruence. }
  destruct Hdem as (Hdin & Hdgk & Hkne).
  split.
  { rewrite list_remove_filter by done. rewrite filter_comm, Hgks.
    destruct Hkd as [(-> & ->)|(-> & ->)].
    - rewrite filter_cons_True by done.
      by rewrite filter_cons_False by (intros Hn; by apply Hn).
    - rewrite filter_cons_False by (intros Hn; by apply Hn).
      by rewrite filter_cons_True by congruence. }
  rewrite filter_app, (filter_none _ [demoted]), app_nil_r
    by (constructor; [by intros Hn|constructor]).
  set (outfield := filter (λ pid, positions !! pid ≠ Some "GK") benchers).
  pose proof (list_remove_length demoted starters Hdin) as Hlen_rm.
  assert (Hout_in : ∀ o, o ∈ outfield → o ∈ benchers ∧ o ∉ list_remove demoted starters).
  { intros o [_ Ho]%list_elem_of_filter. split; [done|].
    rewrite list_remove_filter by done. intros [_ Hos]%list_elem_of_filter.
    by apply (Hdisj o). }
  pose proof (py_sort_perm (ep_of ep_by_player) true outfield) as Hperm.
  split.
  - intros Hle Hne.
    destruct (py_sort (ep_of ep_by_player) true outfield) as [|promoted rest] eqn:Hsort.
    { apply Permutation_nil_l in Hperm. by rewrite <- Hperm in Hne. }
    assert (Hpin : promoted ∈ outfield) by (rewrite <- Hperm; list_mem).
    destruct (py_sort_desc_head _ _ _ _ Hsort) as (before & after & Hsplit & Hbefore & Hafter).
    exists before, promoted, after. split; [done|]. split; [done|]. split; [done|].
    rewrite promote_first_head; [|by apply Hout_in|lia].
    f_equal. apply list_remove_app_l. by apply Hout_in.
  - intros [Hgt|Hnil].
    + apply promote_first_full. lia.
    + by rewrite Hnil.
Qed.

Lemma starters_benchers_NoDup (picks : list pick) :
  NoDup (pick_element <$> picks) →
  NoDup ((pick_element <$> filter (λ p, 0 < multiplier p) picks) ++
         (pick_element <$> filter (λ p, multiplier p ≤ 0) picks)).
Proof.
  intros Hnd. rewrite <- fmap_app.
  rewrite (list_filter_iff (λ p, multiplier p ≤ 0) (λ p, ¬ 0 < multiplier p))
    by (intros p; lia).
  by rewrite filter_app_complement.
Qed.

(** C7, as the code has it: when the picks (of distinct players) mark
    exactly two goalkeepers as starters, the planner returns a plan whose
    current XI keeps exactly one of them: the later one in pick order when
    its EPΔ is strictly higher, and the earlier one otherwise (so the earlier
    one on a tie); the current bench ends with the other one.  When at most
    11 players were marked as starters and the bench holds an outfield
    player, the outfield bench player of highest EPΔ (the first such in bench
    order) is appended to the current XI and leaves the bench; otherwise
    nobody is promoted. *)
Theorem C7_two_goalkeepers_repaired (M : libm) picks elements teams fixtures_gw gw
    ownership_idx mode (elem_by_id : gmap Z element) :
  index_by id elements = Some elem_by_id →
  is_Some (index_by team_id teams) →
  NoDup (pick_element <$> picks) →
  let positions := positions_of picks elem_by_id in
  let starters := pick_element <$> filter (λ p, 0 < multiplier p) picks in
  let benchers := pick_element <$> filter (λ p, multiplier p ≤ 0) picks in
  let outfield := filter (λ pid, positions !! pid ≠ Some "GK") benchers in
  count_pos positions "GK" starters = 2%nat →
  ∃ p first second keep demoted,
    plan_gameweek M picks elements teams fixtures_gw gw ownership_idx mode = Some p ∧
    let ep := ep_of (per_player_ep p) in
    filter (λ pid, positions !! pid = Some "GK") starters = [first; second] ∧
    ((ep first < ep second)%Q → keep = second ∧ demoted = first) ∧
    ((ep second <= ep first)%Q → keep = first ∧ demoted = second) ∧
    filter (λ pid, positions !! pid = Some "GK") (current_start p) = [keep] ∧
    last (current_bench p) = Some demoted ∧
    ((length starters ≤ 11)%nat → outfield ≠ [] →
     ∃ before promoted after,
       outfield = before ++ promoted :: after ∧
       Forall (λ b, (ep b < ep promoted)%Q) before ∧
       Forall (λ b, (ep b <= ep promoted)%Q) after ∧
       current_start p = list_remove demoted starters ++ [promoted] ∧
       current_bench p = list_remove promoted benchers ++ [demoted]) ∧
    (((11 < length starters)%nat ∨ outfield = []) →
     current_start p = list_remove demoted starters ∧
     current_bench p = benchers ++ [demoted]).
Proof.
  intros He Ht Hnd positions starters benchers outfield Hcount.
  destruct (plan_gameweek_total M picks elements teams fixtures_gw gw
              ownership_idx mode) as [p Hplan]; [by rewrite He|done|].
  destruct (plan_gameweek_inv _ _ _ _ _ _ _ _ _ Hplan)
    as (elem_by_id' & team_idx & curr_cap & curr_vc & He' & _ & Hinv).
  rewrite He in He'. injection He' as <-. cbv zeta in Hinv.
  destruct Hinv as (Hep & Hcs & Hcb & _).
  fold positions starters benchers in Hcs, Hcb.
  rewrite <- Hep in Hcs, Hcb.
  destruct (repair_current_two_gks positions (per_player_ep p) starters benchers
              (starters_benchers_NoDup picks Hnd) Hcount)
    as (first & second & Hgks & Hrest).
  cbv zeta in Hrest.
  set (later_wins := fltb (ep_of (per_player_ep p) first)
                          (ep_of (per_player_ep p) second)) in Hrest.
  set (keep := if later_wins then second else first) in Hrest.
  set (demoted := if later_wins then first else second) in Hrest.
  destruct Hrest as (Hone & Hpromote & Hstay).
  fold outfield in Hpromote, Hstay.
  exists p, first, second, keep, demoted. split; [done|]. cbv zeta.
  split; [done|].
  split.
  { intros Hlt. apply fltb_lt in Hlt. unfold keep, demoted, later_wins.
    by rewrite Hlt. }
  split.
  { intros Hle. apply fltb_ge in Hle. unfold keep, demoted, later_wins.
    by rewrite Hle. }
  destruct (decide ((length starters ≤ 11)%nat ∧ outfield ≠ [])) as [[Hlen Hne]|Hno].
  - destruct (Hpromote Hlen Hne)
      as (before & promoted & after & Hsplit & Hbefore & Hafter & Hrep).
    rewrite Hrep in Hcs, Hcb. cbn [fst snd] in Hcs, Hcb.
    assert (Hpin : promoted ∈ outfield).
    { rewrite Hsplit. apply elem_of_app. right. apply list_elem_of_here. }
    split; [|split; [|split]].
    + rewrite Hcs, filter_app, Hone.
      apply list_elem_of_filter in Hpin as [Hpin _].
      by rewrite filter_cons_False.
    + by rewrite Hcb, last_snoc.
    + intros _ _. by exists before, promoted, after.
    + intros [Hgt|Hnil]; [lia|done].
  - assert (Hno' : (11 < length starters)%nat ∨ outfield = []).
    { destruct (decide (outfield = [])); [by right|left].
      destruct (decide (length starters ≤ 11)%nat); [tauto|lia]. }
    rewrite (Hstay Hno') in Hcs, Hcb. cbn [fst snd] in Hcs, Hcb.
    split; [|split; [|split]].
    + by rewrite Hcs.
    + by rewrite Hcb, last_snoc.
    + intros Hlen Hne. tauto.
    + done.
Qed.

(** ** The budget rule of the transfer advisor (C5) *)

Lemma legal_candidates_within_budget (elem_by_id : gmap Z element)
    (candidate_scores : list (Z * Q)) (team_counts : gmap Z Z)
    (bank allowance : Z) (out_pos : string) (out_cost out_team : Z) (out_epd : Q)
    (in_meta0 : option player_meta_rec) :
  Forall (λ x : Z * Q, cost_of elem_by_id x.1 - out_cost ≤ bank + allowance)
         (legal_candidates_of elem_by_id candidate_scores team_counts bank
            allowance out_pos out_cost out_team out_epd in_meta0).1.
Proof.
  unfold legal_candidates_of.
  assert (Hgen : ∀ legal0,
    Forall (λ x : Z * Q, cost_of elem_by_id x.1 - out_cost ≤ bank + allowance) legal0 →
    Forall (λ x : Z * Q, cost_of elem_by_id x.1 - out_cost ≤ bank + allowance)
      (foldl (λ '(legal, _) '(in_id, in_epd),
           let in_meta := player_meta elem_by_id in_id in
           let keep :=
             if bool_decide (position_code (meta_element_type in_meta) ≠ out_pos)
             then false
             else
               let in_team := meta_team in_meta in
               let team_count := default 0 (team_counts !! in_team) in
               if bool_decide (in_team ≠ out_team) && (3 <=? team_count) then false
               else
                 let in_cost := meta_now_cost in_meta in
                 if bank + allowance <? in_cost - out_cost then false
                 else if fleb in_epd out_epd then false
                 else true in
           (if keep then legal ++ [(in_id, in_epd)] else legal, Some in_meta))
        (legal0, in_meta0) candidate_scores).1).
  { revert in_meta0.
    induction candidate_scores as [|[in_id in_epd] cands IH];
      intros in_meta0 legal0 Hlegal0; [done|].
    cbn [foldl]. apply IH.
    destruct (bool_decide _); [done|].
    destruct (_ && _); [done|].
    destruct (bank + allowance <? _) eqn:Hbudget; [done|].
    destruct (fleb in_epd out_epd); [done|].
    apply Forall_app. split; [done|]. repeat constructor.
    apply Z.ltb_ge in Hbudget. done. }
  by apply Hgen.
Qed.

Lemma suggest_step_spec (elem_by_id : gmap Z element)
    (current_scored candidate_scores : list (Z * Q)) (allowance : Z)
    (st st' : transfer_state) (out_id : Z) :
  suggest_step elem_by_id current_scored candidate_scores allowance st out_id
    = Some st' →
  (suggestions st' = suggestions st ∧ st_bank st' = st_bank st) ∨
  (∃ s, suggestions st' = suggestions st ++ [s] ∧ sug_out s = out_id ∧
        cost_of elem_by_id (sug_in s) - cost_of elem_by_id out_id
        ≤ st_bank st + allowance).
Proof.
  unfold suggest_step.
  pose proof (legal_candidates_within_budget elem_by_id candidate_scores
                (team_counts st) (st_bank st) allowance
                (position_code (meta_element_type (player_meta elem_by_id out_id)))
                (meta_now_cost (player_meta elem_by_id out_id))
                (meta_team (player_meta elem_by_id out_id))
                (default 0%Q (dict_get out_id current_scored))
                (st_in_meta st)) as Hbudget.
  destruct (legal_candidates_of _ _ _ _ _ _ _ _ _ _) as [legal in_meta].
  cbn [fst] in Hbudget.
  pose proof (py_sort_perm snd true legal) as Hperm.
  destruct (py_sort snd true legal) as [|[in_id in_epd] rest].
  - intros [= <-]. by left.
  - destruct in_meta as [in_meta|]; [|done].
    cbn [mbind option_bind]. intros [= <-]. right.
    eexists. split; [reflexivity|]. split; [done|]. cbn [sug_in].
    rewrite <- Hperm in Hbudget. by apply Forall_cons in Hbudget as [Hhead _].
Qed.

Lemma suggest_loop_first (elem_by_id : gmap Z element)
    (current_scored candidate_scores : list (Z * Q)) (allowance : Z)
    (to_replace : list Z) (st st' : transfer_state) :
  suggestions st = [] →
  foldlM (suggest_step elem_by_id current_scored candidate_scores allowance)
         st to_replace = Some st' →
  ∀ s rest, suggestions st' = s :: rest →
    cost_of elem_by_id (sug_in s) - cost_of elem_by_id (sug_out s)
    ≤ st_bank st + allowance.
Proof.
  assert (Hgrow : ∀ to_replace st st',
    foldlM (suggest_step elem_by_id current_scored candidate_scores allowance)
           st to_replace = Some st' →
    ∃ more, suggestions st' = suggestions st ++ more).
  { clear. induction to_replace as [|out_id to_replace IH]; intros st st' Hloop.
    - injection Hloop as <-. exists []. by rewrite app_nil_r.
    - cbn [foldlM] in Hloop.
      destruct (suggest_step _ _ _ _ st out_id) as [st1|] eqn:Hstep; [|done].
      cbn [mbind option_bind] in Hloop.
      destruct (IH _ _ Hloop) as [more Hmore].
      destruct (suggest_step_spec _ _ _ _ _ _ _ Hstep) as [[Hs _]|(s & Hs & _)].
      + exists more. by rewrite Hmore, Hs.
      + exists (s :: more). by rewrite Hmore, Hs, <- app_assoc. }
  revert st. induction to_replace as [|out_id to_replace IH];
    intros st Hnil Hloop s rest Hs.
  - injection Hloop as <-. by rewrite Hnil in Hs.
  - cbn [foldlM] in Hloop.
    destruct (suggest_step _ _ _ _ st out_id) as [st1|] eqn:Hstep; [|done].
    cbn [mbind option_bind] in Hloop.
    destruct (suggest_step_spec _ _ _ _ _ _ _ Hstep)
      as [[Hsame Hbank]|(s1 & Hs1 & Hout & Hle)].
    + rewrite <- Hbank. apply (IH st1) with rest; [by rewrite Hsame|done|done].
    + destruct (Hgrow _ _ _ Hloop) as [more Hmore].
      rewrite Hmore, Hs1, Hnil in Hs. injection Hs as <- _.
      by rewrite Hout.
Qed.

(** C5, as the code has it: the first suggestion of the returned list
    brings in a player who costs at most [bank + bank_allowance] more than
    the outgoing one; with bank = 0 and bank_allowance = 0 its incoming player
    never costs more than its outgoing player.  (Later suggestions are checked
    against the running simulated bank.) *)
Theorem C5_first_suggestion_within_budget (M : libm)
    (pick_rows : list pick_row) (elements : list element)
    (ownership_idx : gmap Z Q) (mode : string) (bank bank_allowance : Z)
    (elem_by_id : gmap Z element) (s : suggestion) (rest : list suggestion) :
  index_by id elements = Some elem_by_id →
  suggest_transfers M pick_rows elements ownership_idx mode bank bank_allowance
    = Some (s :: rest) →
  cost_of elem_by_id (sug_in s) - cost_of elem_by_id (sug_out s)
    ≤ bank + bank_allowance ∧
  (bank = 0 → bank_allowance = 0 →
   cost_of elem_by_id (sug_in s) ≤ cost_of elem_by_id (sug_out s)).
Proof.
  intros He Hsug. unfold suggest_transfers in Hsug.
  rewrite He in Hsug. cbn [mbind option_bind] in Hsug.
  destruct (candidate_scores_of M elements _) as [candidate_scores|]; [|done].
  cbn [mbind option_bind] in Hsug.
  destruct (foldlM _ _ _) as [st|] eqn:Hloop; [|done].
  cbn [mbind option_bind] in Hsug. injection Hsug as Hsug.
  pose proof (λ Hnil, suggest_loop_first _ _ _ _ _ _ _ Hnil Hloop s rest Hsug) as Hle.
  specialize (Hle eq_refl). cbn [st_bank] in Hle. split; [done|]. intros -> ->. lia.
Qed.

(** ** Replaying the swaps, and the guardrail of the endpoint (C1, C3) *)

Lemma replay_swaps_inr (swaps : list action) (start_set bench_set start' : gset Z) :
  replay_swaps swaps start_set bench_set = inr start' →
  start' = foldl apply_swap start_set swaps.
Proof.
  revert start_set bench_set.
  induction swaps as [|sw swaps IH]; intros start_set bench_set; cbn [replay_swaps foldl].
  - by intros [= <-].
  - destruct (_ || _); [done|]. destruct (negb _); [done|]. apply IH.
Qed.

Lemma string_ltb_irrefl (s : string) : String.ltb s s = false.
Proof.
  unfold String.ltb. pose proof (String.compare_antisym s s) as Hanti.
  destruct (String.compare s s); [done| |done]. discriminate Hanti.
Qed.

Lemma swap_actions_in_order (gw : Z) (ep_by_player : list (Z * Q))
    (chosen : list (Z * Z * Q)) :
  in_order tuple_ltb swap_key false (swap_actions gw ep_by_player chosen) ∧
  in_order Z.ltb action_priority false (swap_actions gw ep_by_player chosen).
Proof.
  rewrite swap_actions_imap. generalize 10.
  induction chosen as [|x chosen IH]; intros prio; [done|].
  rewrite imap_cons.
  assert (Hshift : imap (swap_action_at gw ep_by_player prio ∘ S) chosen
                   = imap (swap_action_at gw ep_by_player (prio + 1)) chosen).
  { apply imap_ext. intros k y _. unfold swap_action_at, compose. f_equal. lia. }
  rewrite Hshift. destruct (IH (prio + 1)) as [IH1 IH2].
  split; (split; [|done]).
  - destruct chosen as [|y chosen]; [done|].
    cbn [imap]. unfold goes_before, tuple_ltb, swap_key, swap_action_at.
    cbn [action_bundle_id action_priority default fst snd].
    rewrite string_ltb_irrefl, String.eqb_refl. cbn [orb andb].
    apply Z.ltb_ge. lia.
  - destruct chosen as [|y chosen]; [done|].
    cbn [imap]. unfold goes_before, swap_action_at. cbn [action_priority].
    apply Z.ltb_ge. lia.
Qed.

Lemma chip_action_not_swap (ce : chip_eval) : is_swap (chip_action ce) = false.
Proof. unfold chip_action. by repeat destruct (fleb _ _). Qed.

Lemma plan_swaps (M : libm) picks elements teams fixtures_gw gw ownership_idx mode p :
  plan_gameweek M picks elements teams fixtures_gw gw ownership_idx mode = Some p →
  ∃ swaps,
    filter (λ a, is_swap a = true) (actions p) = swaps ∧
    py_sort_by tuple_ltb swap_key false swaps = swaps ∧
    swaps_by_priority (actions p) = swaps.
Proof.
  intros Hplan.
  destruct (plan_gameweek_inv _ _ _ _ _ _ _ _ _ Hplan)
    as (elem_by_id & team_idx & curr_cap & curr_vc & _ & _ & Hinv).
  cbv zeta in Hinv. destruct Hinv as (_ & _ & _ & _ & _ & _ & _ & _ & Hact).
  eexists. split; [reflexivity|].
  unfold swaps_by_priority. rewrite Hact, !filter_app.
  rewrite (filter_all _ (swap_actions _ _ _)) by apply swap_actions_are_swaps.
  rewrite (filter_none _ (captaincy_actions _ _ _ _ _ _)).
  2:{ eapply Forall_impl; [apply captaincy_actions_types|]. by intros []. }
  rewrite (filter_none _ [chip_action _])
    by (constructor; [by rewrite chip_action_not_swap|constructor]).
  rewrite !app_nil_r.
  split; apply py_sort_by_in_order, swap_actions_in_order.
Qed.

Lemma planner_validation_valid (elements : list element) (elem_by_id : gmap Z element)
    (data : plan) :
  index_by id elements = Some elem_by_id →
  planner_validation elements data = Valid →
  foldl apply_swap (list_to_set (current_start data))
        (py_sort_by tuple_ltb swap_key false
           (filter (λ a, is_swap a = true) (actions data)))
    = list_to_set (optimal_start data) ∧
  formation_str (optimal_start data)
    (derive_positions elem_by_id (current_start data ++ optimal_start data))
    = formation_optimal data.
Proof.
  intros He. unfold planner_validation. rewrite He.
  destruct (replay_swaps _ _ _) as [msg|start'] eqn:Hreplay; [done|].
  apply replay_swaps_inr in Hreplay.
  case_bool_decide as Hsorted; [done|].
  case_bool_decide as Hform; [done|]. intros _.
  split; [|done].
  rewrite <- Hreplay.
  rewrite <- (list_to_set_elements_L start').
  rewrite <- (py_sort_by_perm Z.ltb (λ x, x) false (base.elements start')).
  fold (sorted_ids (base.elements start')). rewrite Hsorted.
  unfold sorted_ids. by rewrite py_sort_by_perm.
Qed.

(** The endpoint links the picks to their fixtures before it plans: an
    exception of [link_fixtures_for_manager] (a team whose strength is null,
    a null team in a fixture that the search reaches) leaves the endpoint
    uncaught, whatever [plan_gameweek] would make of the same records. *)
Lemma get_gameweek_planner_linking_raises (M : libm)
    picks elements teams fixtures_all gw mode :
  link_fixtures_for_manager gw picks fixtures_all elements teams = None →
  get_gameweek_planner M picks elements teams fixtures_all gw mode = None.
Proof.
  intros Hlink. unfold get_gameweek_planner. rewrite Hlink.
  by destruct (ownership_index elements).
Qed.

(** C3, as the code has it: [plan_gameweek] itself never checks its plan;
    the check stands in the planner endpoint.  When the ownership index, the
    linking of the picks and the planner have returned, the endpoint answers
    HTTP 500 ("Planner validation failed: ...") whenever the swaps of the
    returned plan, applied in ascending priority order to the current XI, do
    not give exactly the optimal XI, or the formation string of the plan
    differs from the one derived from the positions of the optimal XI. *)
Theorem C3_endpoint_rejects_inconsistent_plan (M : libm)
    picks elements teams fixtures_all gw mode
    (ownership : gmap Z Q) (elem_by_id : gmap Z element) (p : plan) :
  ownership_index elements = Some ownership →
  index_by id elements = Some elem_by_id →
  is_Some (link_fixtures_for_manager gw picks fixtures_all elements teams) →
  plan_gameweek M picks elements (team_view <$> teams)
    (fixture_view <$> filter (λ f, fx_event f = Some gw) fixtures_all)
    gw ownership mode = Some p →
  replayed_start p ≠ list_to_set (optimal_start p) ∨
  formation_str (optimal_start p)
    (derive_positions elem_by_id (current_start p ++ optimal_start p))
    ≠ formation_optimal p →
  ∃ msg,
    get_gameweek_planner M picks elements teams fixtures_all gw mode
    = Some (HTTP500 ("Planner validation failed: " +:+ msg)).
Proof.
  intros Hown He [linked Hlink] Hplan Hbad. unfold get_gameweek_planner.
  rewrite Hown. cbn [mbind option_bind]. rewrite Hlink. cbn [mbind option_bind].
  rewrite Hplan. cbn [mbind option_bind].
  destruct (planner_validation elements p) as [|msg] eqn:Hval; [|by exists msg].
  exfalso.
  destruct (planner_validation_valid _ _ _ He Hval) as [Hreplay Hform].
  destruct (plan_swaps _ _ _ _ _ _ _ _ _ Hplan) as (swaps & Hswaps & Hsorted & Hprio).
  destruct Hbad as [Hbad|Hbad]; [|done].
  apply Hbad. unfold replayed_start. rewrite Hprio.
  by rewrite Hswaps, Hsorted in Hreplay.
Qed.

(** The mock squad in a gameweek without fixtures: every EPΔ is 0.0, no pair
    reaches the 0.20 gain, no swap is emitted, and the current XI (with 14)
    differs from the optimal XI (with 6). *)
Lemma blank_gameweek_plan (M : libm) :
  ownership_index mock_elements = Some mock_ownership ∧
  ∃ p,
    plan_gameweek M mock_picks mock_elements mock_teams [] 5 mock_ownership "safe"
      = Some p ∧
    current_start p = [1; 191; 506; 4; 5; 7; 8; 9; 10; 13; 14] ∧
    optimal_start p = [1; 191; 506; 4; 7; 8; 13; 5; 6; 9; 10] ∧
    filter (λ a, is_swap a = true) (actions p) = [] ∧
    replayed_start p = list_to_set (current_start p) ∧
    replayed_start p ≠ list_to_set (optimal_start p).
Proof.
  split; [by vm_compute|].
  eexists. split; [vm_compute; reflexivity|].
  split; [reflexivity|]. split; [reflexivity|]. split; [reflexivity|].
  split; [reflexivity|].
  intros Heq.
  assert (H14 : 14 ∈ (list_to_set [1; 191; 506; 4; 7; 8; 13; 5; 6; 9; 10] : gset Z)).
  { cbn [optimal_start] in Heq. rewrite <- Heq. by vm_compute. }
  revert H14. by vm_compute.
Qed.

(** C1 fails on the code, against the code's own guardrail: for the mock
    squad of the tests in a gameweek without fixtures the planner returns a
    plan with no swap action, so that replaying the accepted swaps leaves the
    current XI, which is not the optimal XI; the endpoint then rejects the
    planner's own plan with "Swaps do not yield optimal_start". *)
Theorem C1_swaps_do_not_reach_optimal_start (M : libm) :
  ∃ p,
    plan_gameweek M mock_picks mock_elements mock_teams [] 5 mock_ownership "safe"
      = Some p ∧
    filter (λ a, is_swap a = true) (actions p) = [] ∧
    replayed_start p = list_to_set (current_start p) ∧
    replayed_start p ≠ list_to_set (optimal_start p) ∧
    get_gameweek_planner M mock_picks mock_elements mock_raw_teams [] 5 "safe"
    = Some (HTTP500 "Planner validation failed: Swaps do not yield optimal_start").
Proof.
  destruct (blank_gameweek_plan M)
    as (_ & p & Hplan & _ & _ & Hswaps & Hreplay & Hne).
  exists p. do 4 (split; [done|]). by vm_compute.
Qed.

(** C3 as stated fails: at the same input [plan_gameweek] returns a plan,
    although replaying its swaps does not reproduce the optimal XI. *)
Lemma C3_counterexample :
  ownership_index mock_elements = Some mock_ownership ∧
  ∀ M : libm, ∃ p,
    plan_gameweek M mock_picks mock_elements mock_teams [] 5 mock_ownership "safe"
      = Some p ∧
    replayed_start p ≠ list_to_set (optimal_start p).
Proof.
  split; [by vm_compute|]. intros M.
  destruct (blank_gameweek_plan M) as (_ & p & Hplan & _ & _ & _ & _ & Hne).
  exists p. split; [exact Hplan|exact Hne].
Qed.

Lemma C3_witness :
  ∃ msg,
    get_gameweek_planner unit_exp mock_picks mock_elements mock_raw_teams [] 5 "safe"
    = Some (HTTP500 ("Planner validation failed: " +:+ msg)).
Proof.
  destruct (blank_gameweek_plan unit_exp)
    as (Hown & p & Hplan & _ & _ & _ & _ & Hne).
  destruct (index_by id mock_elements) as [elem_by_id|] eqn:He; [|by vm_compute in He].
  assert (Hlink : is_Some (link_fixtures_for_manager 5 mock_picks [] mock_elements
                             mock_raw_teams))
    by (vm_compute; eexists; reflexivity).
  apply (C3_endpoint_rejects_inconsistent_plan unit_exp mock_picks mock_elements
           mock_raw_teams [] 5 "safe" mock_ownership elem_by_id p Hown He Hlink Hplan).
  by left.
Defined.

(** ** The theorems at the example inputs *)

Lemma C2_witness :
  valid_squad mock_ep mock_positions ∧
  ∃ start bench,
    choose_starting_xi mock_ep mock_positions = Some (start, bench) ∧
    length start = 11%nat ∧
    count_pos mock_positions "GK" start = 1%nat.
Proof.
  assert (Hvalid : valid_squad mock_ep mock_positions).
  { split; [apply (bool_decide_unpack _); vm_compute; exact I|].
    repeat split; vm_compute; reflexivity. }
  split; [exact Hvalid|].
  destruct (C2_choose_starting_xi_legal mock_ep mock_positions Hvalid)
    as (start & bench & Hxi & Hlen & _ & _ & Hgk & _).
  exists start, bench. split; [exact Hxi|]. split; [exact Hlen|exact Hgk].
Defined.

Lemma C4_witness :
  (expected_points_delta unit_exp (mock_element 1 1 1 45 2.7 4.0 270 10.0) 3 180
   <= expected_points_delta unit_exp (mock_element 1 1 1 45 3.0 4.0 270 10.0) 3 180)%Q ∧
  (expected_points_delta unit_exp (mock_element 1 1 1 45 2.7 4.0 270 10.0) 2 180
   <= expected_points_delta unit_exp (mock_element 1 1 1 45 2.7 4.0 270 10.0) 4 180)%Q.
Proof.
  destruct (C4_expected_points_delta_monotone unit_exp) as (Hform & _ & Hopp & _).
  split.
  - apply (Hform _ _ 2.7%Q 3.0%Q); [reflexivity..|]. vm_compute. discriminate.
  - apply Hopp. lia.
Defined.

Lemma C5_witness :
  ∃ s rest,
    suggest_transfers unit_exp transfer_rows transfer_elements ∅ "aggressive" 0 0
      = Some (s :: rest) ∧
    cost_of transfer_elem_by_id (sug_in s) ≤ cost_of transfer_elem_by_id (sug_out s).
Proof.
  assert (He : index_by id transfer_elements = Some transfer_elem_by_id)
    by (vm_compute; reflexivity).
  destruct (suggest_transfers unit_exp transfer_rows transfer_elements ∅
              "aggressive" 0 0) as [[|s rest]|] eqn:Hsug;
    [vm_compute in Hsug; discriminate Hsug| |vm_compute in Hsug; discriminate Hsug].
  exists s, rest. split; [reflexivity|].
  exact (proj2 (C5_first_suggestion_within_budget unit_exp transfer_rows
                  transfer_elements ∅ "aggressive" 0 0 transfer_elem_by_id s rest
                  He Hsug) eq_refl eq_refl).
Defined.

(** C5 as stated fails: the first suggestion (out 1, in 3) frees 1.0, and
    the second one (out 2, in 4) then brings in a player who costs 0.5 more
    than the one he replaces. *)
Lemma C5_counterexample :
  index_by id transfer_elements = Some transfer_elem_by_id ∧
  ∀ M : libm, ∃ s1 s2,
    suggest_transfers M transfer_rows transfer_elements ∅ "aggressive" 0 0
      = Some [s1; s2] ∧
    (sug_out s1, sug_in s1) = (1, 3) ∧
    (sug_out s2, sug_in s2) = (2, 4) ∧
    cost_of transfer_elem_by_id (sug_out s2) = 50 ∧
    cost_of transfer_elem_by_id (sug_in s2) = 55.
Proof.
  split; [vm_compute; reflexivity|]. intros M.
  eexists _, _. split; [vm_compute; reflexivity|].
  repeat split; vm_compute; reflexivity.
Qed.

Lemma C7_witness :
  ∃ p keep demoted promoted,
    plan_gameweek unit_exp two_gk_picks mock_elements mock_teams mock_fixtures 4
      mock_ownership "safe" = Some p ∧
    filter (λ pid, positions_of two_gk_picks mock_elem_by_id !! pid = Some "GK")
           (current_start p) = [keep] ∧
    last (current_bench p) = Some demoted ∧
    last (current_start p) = Some promoted.
Proof.
  assert (He : index_by id mock_elements = Some mock_elem_by_id)
    by (vm_compute; reflexivity).
  assert (Ht : is_Some (index_by team_id mock_teams))
    by (vm_compute; eexists; reflexivity).
  assert (Hnd : NoDup (pick_element <$> two_gk_picks))
    by (apply (bool_decide_unpack _); vm_compute; exact I).
  destruct (C7_two_goalkeepers_repaired unit_exp two_gk_picks mock_elements
              mock_teams mock_fixtures 4 mock_ownership "safe" mock_elem_by_id
              He Ht Hnd)
    as (p & first & second & keep & demoted & Hplan & _ & _ & _ & Hone & Hlast
        & Hpromote & _).
  { vm_compute. reflexivity. }
  destruct Hpromote as (before & promoted & after & _ & _ & _ & Hcs & _).
  { vm_compute. lia. }
  { vm_compute. discriminate. }
  exists p, keep, demoted, promoted.
  split; [exact Hplan|]. split; [exact Hone|]. split; [exact Hlast|].
  rewrite Hcs. apply last_snoc.
Defined.

(** C7 as stated fails: when the second goalkeeper is marked as a starter
    on top of eleven starters, he is demoted and eleven starters remain, so
    nobody is promoted although the bench holds outfield players. *)
Lemma C7_counterexample :
  index_by id mock_elements = Some mock_elem_by_id ∧
  length extra_gk_picks = 15%nat ∧
  NoDup (pick_element <$> extra_gk_picks) ∧
  count_pos (positions_of extra_gk_picks mock_elem_by_id) "GK"
    (pick_element <$> filter (λ p, 0 < multiplier p) extra_gk_picks) = 2%nat ∧
  ∀ M : libm, ∃ p,
    plan_gameweek M extra_gk_picks mock_elements mock_teams [] 5
      mock_ownership "safe" = Some p ∧
    current_start p = [1; 191; 506; 4; 5; 7; 8; 9; 10; 13; 14] ∧
    current_bench p = [6; 11; 15; 12].
Proof.
  split; [vm_compute; reflexivity|].
  split; [reflexivity|].
  split; [apply (bool_decide_unpack _); vm_compute; exact I|].
  split; [vm_compute; reflexivity|].
  intros M. eexists. split; [vm_compute; reflexivity|].
  split; reflexivity.
Qed.

Lemma C8_witness :
  ∃ p others ch,
    plan_gameweek unit_exp mock_picks mock_elements mock_teams mock_fixtures 4
      mock_ownership "safe" = Some p ∧
    actions p = others ++ [ch] ∧
    action_priority ch = 90 ∧
    (action_chip ch = Some "NONE" → action_reason_code ch = Some "below_threshold").
Proof.
  destruct (plan_gameweek unit_exp mock_picks mock_elements mock_teams
              mock_fixtures 4 mock_ownership "safe") as [p|] eqn:Hplan;
    [|vm_compute in Hplan; discriminate Hplan].
  destruct (C8_chip_action_thresholds unit_exp mock_picks mock_elements mock_teams
              mock_fixtures 4 mock_ownership "safe" p Hplan)
    as (others & ch & Hact & _ & _ & Hprio & _ & _ & _ & Hreason).
  exists p, others, ch. split; [reflexivity|].
  split; [exact Hact|]. split; [exact Hprio|exact Hreason].
Defined.

Lemma C9_witness :
  recommend_captain_from_ids [1; 191; 7; 13]
    [(1, 0.36%Q); (191, 0.59%Q); (7, 1.08%Q); (13, 0.52%Q)]
    mock_ownership mock_positions "safe" = (7, 191) ∧
  recommend_captain_from_ids [1] [(1, 0.36%Q)] mock_ownership mock_positions "safe"
    = (0, 0).
Proof.
  pose proof (C9_captain_and_vice [1] [(1, 0.36%Q)] mock_ownership mock_positions
                "safe") as (_ & Hnone & _).
  split; [vm_compute; reflexivity|].
  apply Hnone. vm_compute. reflexivity.
Defined.

(** * Further properties of the code *)

(** ** Ranges of the scores *)

Lemma Qeq_bool_sym (a b : Q) : Qeq_bool a b = Qeq_bool b a.
Proof.
  destruct (Qeq_bool a b) eqn:H1, (Qeq_bool b a) eqn:H2; try done.
  - apply Qeq_bool_iff in H1. apply Qeq_bool_neq in H2. exfalso. apply H2. by symmetry.
  - apply Qeq_bool_iff in H2. apply Qeq_bool_neq in H1. exfalso. apply H1. by symmetry.
Qed.

(** X1: [_norm] gives the same value whichever way round its two bounds are
    passed (so [_norm(s, 5.0, 1.0)] is [_norm(s, 1.0, 5.0)]), its value lies
    between 0 and 1, and it never decreases when [x] grows. *)
Theorem X1_norm_bounds_swap (x lo hi : Q) :
  _norm x lo hi = _norm x hi lo ∧
  (0 <= _norm x lo hi <= 1)%Q ∧
  ∀ x', (x <= x')%Q → (_norm x lo hi <= _norm x' lo hi)%Q.
Proof.
  split; [|split; [apply _norm_range|intros x'; apply _norm_mono]].
  unfold _norm. rewrite (Qeq_bool_sym lo hi).
  destruct (Qeq_bool hi lo) eqn:Heq; [done|].
  apply Qeq_bool_neq in Heq.
  destruct (fleb lo hi) eqn:H1, (fleb hi lo) eqn:H2; float_cmp; try done.
  - exfalso. apply Heq. by apply Qle_antisym.
  - exfalso. apply (Qlt_irrefl lo). by apply Qlt_trans with hi.
Qed.

Lemma _sigmoid_le_1 (M : libm) (x : Q) : (_sigmoid M x <= 1)%Q.
Proof.
  unfold _sigmoid. destruct (fleb 50 x); [apply Qle_refl|].
  destruct (fleb x (-50)); [discriminate|].
  pose proof (exp_pos M (- x)) as He.
  apply Qle_shift_div_r; lra.
Qed.

Lemma epd_range (M : libm) (p : element) (opp : Z) (mins : Q) :
  (0 <= expected_points_delta M p opp mins <= 6)%Q.
Proof.
  unfold expected_points_delta.
  pose proof (_norm_range (parse_field (form p)) 0 10) as [Hf0 Hf1].
  pose proof (_norm_range (parse_field (ict_index p)) 0 20) as [Hi0 Hi1].
  pose proof (_norm_range (inject_Z opp) 5 1) as [Hd0 Hd1].
  pose proof (_sigmoid_nonneg M ((mins - 120) / 60)) as Hm0.
  pose proof (_sigmoid_le_1 M ((mins - 120) / 60)) as Hm1.
  set (f := _norm (parse_field (form p)) 0 10) in *.
  set (i := _norm (parse_field (ict_index p)) 0 20) in *.
  set (m := _sigmoid M _) in *. set (d := _norm (inject_Z opp) 5 1) in *.
  clearbody f i m d.
  assert (Hmix0 : (0 <= 6 * ((6 # 10) * f + (4 # 10) * i))%Q) by lra.
  assert (Hmix1 : (6 * ((6 # 10) * f + (4 # 10) * i) <= 6)%Q) by lra.
  set (c := (6 * ((6 # 10) * f + (4 # 10) * i))%Q) in *. clearbody c.
  assert (Hcm0 : (0 <= c * m)%Q) by by apply Qmult_le_0_compat.
  assert (Hcm1 : (c * m <= 6)%Q).
  { apply Qle_trans with (c * 1)%Q; [|lra].
    rewrite !(Qmult_comm c). by apply Qmult_le_compat_r. }
  split; [by apply Qmult_le_0_compat|].
  apply Qle_trans with (c * m * 1)%Q; [|lra].
  rewrite !(Qmult_comm (c * m)). by apply Qmult_le_compat_r.
Qed.

Lemma norm_opp_low (opp : Z) : opp ≤ 1 → (_norm (inject_Z opp) 5 1 == 0)%Q.
Proof.
  intros Hle.
  assert (Hq : (inject_Z opp <= inject_Z 1)%Q) by (by rewrite <- Zle_Qle).
  pose proof (_norm_mono _ _ 5 1 Hq) as Hmono.
  pose proof (_norm_range (inject_Z opp) 5 1) as [H0 _].
  assert (H1 : (_norm (inject_Z 1) 5 1 == 0)%Q) by by vm_compute.
  lra.
Qed.

(** X2: the expected points delta lies between 0 and 6.  It is 0 against
    an opponent of strength 1 or less, whatever the player, and 0 for a
    player whose form and ICT index are both at most 0 (missing and
    malformed values count as 0), whatever the opponent. *)
Theorem X2_expected_points_delta_range (M : libm) (p : element) (opp : Z) (mins : Q) :
  (0 <= expected_points_delta M p opp mins <= 6)%Q ∧
  (opp ≤ 1 → (expected_points_delta M p opp mins == 0)%Q) ∧
  ((parse_field (form p) <= 0)%Q → (parse_field (ict_index p) <= 0)%Q →
   (expected_points_delta M p opp mins == 0)%Q).
Proof.
  split; [apply epd_range|]. split.
  - intros Hle. unfold expected_points_delta.
    rewrite (norm_opp_low opp Hle). ring.
  - intros Hf Hi. unfold expected_points_delta.
    pose proof (_norm_mono _ 0 0 10 Hf) as Hf1.
    pose proof (_norm_range (parse_field (form p)) 0 10) as [Hf0 _].
    pose proof (_norm_mono _ 0 0 20 Hi) as Hi1.
    pose proof (_norm_range (parse_field (ict_index p)) 0 20) as [Hi0 _].
    assert (H10 : (_norm 0 0 10 == 0)%Q) by by vm_compute.
    assert (H20 : (_norm 0 0 20 == 0)%Q) by by vm_compute.
    assert (Hfz : (_norm (parse_field (form p)) 0 10 == 0)%Q) by lra.
    assert (Hiz : (_norm (parse_field (ict_index p)) 0 20 == 0)%Q) by lra.
    rewrite Hfz, Hiz. ring.
Qed.

Lemma epd_sum_range (M : libm) (player : element) (mins : Q)
    (rows : list fixture_row) (acc : Q) :
  let total := foldl (λ total fx,
                 (total + expected_points_delta M player
                            (int_or 3 (opponent_strength fx)) mins)%Q) acc rows in
  (acc <= total <= acc + 6 * inject_Z (Z.of_nat (length rows)))%Q.
Proof.
  revert acc. induction rows as [|fx rows IH]; intros acc; cbn [foldl length].
  - cbv zeta. change (inject_Z (Z.of_nat 0)) with 0%Q. lra.
  - cbv zeta in *. specialize (IH (acc + expected_points_delta M player
                                       (int_or 3 (opponent_strength fx)) mins)%Q).
    pose proof (epd_range M player (int_or 3 (opponent_strength fx)) mins).
    rewrite Nat2Z.inj_succ, <- Z.add_1_r, inject_Z_plus.
    change (inject_Z 1) with 1%Q. lra.
Qed.

(** X3: the aggregate over the fixtures of a gameweek lies between 0 and
    6.6 times the number of fixtures (6 per fixture, and 10% on top when
    there are two fixtures or more). *)
Theorem X3_aggregate_epdelta_range (M : libm) (player : element)
    (fixtures_rows : list fixture_row) (teams_idx : gmap Z team_rec) :
  (0 <= aggregate_epdelta_for_fixtures M player fixtures_rows teams_idx
     <= (66 # 10) * inject_Z (Z.of_nat (length fixtures_rows)))%Q.
Proof.
  unfold aggregate_epdelta_for_fixtures.
  pose proof (epd_sum_range M player (py_min (_nz (minutes player) 0) 180)
                fixtures_rows 0) as Hsum.
  cbv zeta in Hsum.
  set (total := foldl _ 0%Q fixtures_rows) in *. clearbody total.
  assert (0 <= inject_Z (Z.of_nat (length fixtures_rows)))%Q.
  { change 0%Q with (inject_Z 0). rewrite <- Zle_Qle. lia. }
  destruct (1 <? length fixtures_rows)%nat; lra.
Qed.

Lemma aggregate_nonneg (M : libm) player rows idx :
  (0 <= aggregate_epdelta_for_fixtures M player rows idx)%Q.
Proof.
  unfold aggregate_epdelta_for_fixtures.
  pose proof (epd_sum_range M player (py_min (_nz (minutes player) 0) 180) rows 0) as Hsum.
  cbv zeta in Hsum.
  set (total := foldl _ 0%Q rows) in *. clearbody total.
  destruct (1 <? length rows)%nat; lra.
Qed.

Lemma round_half_even_lower (z : Z) (q : Q) :
  (inject_Z z <= q)%Q → z ≤ round_half_even q.
Proof.
  intros Hle. unfold round_half_even.
  assert (Hf : z ≤ Qfloor q).
  { rewrite <- (Qfloor_Z z). by apply Qfloor_resp_le. }
  repeat destruct (fltb _ _); try destruct (Z.even _); lia.
Qed.

Lemma round2_lower (z : Z) (q : Q) :
  (inject_Z z / 100 <= q)%Q → (inject_Z z / 100 <= round2 q)%Q.
Proof.
  intros Hle. unfold round2.
  assert (Hz : (inject_Z z <= q * 100)%Q).
  { assert (H100 : (inject_Z z / 100 * 100 == inject_Z z)%Q) by (field; done).
    rewrite <- H100. apply Qmult_le_compat_r; [done|discriminate]. }
  apply round_half_even_lower in Hz.
  apply Qmult_le_compat_r; [by rewrite <- Zle_Qle|discriminate].
Qed.

Lemma round2_nonneg (q : Q) : (0 <= q)%Q → (0 <= round2 q)%Q.
Proof.
  intros Hq. pose proof (round2_lower 0 q) as H.
  assert (H0 : (inject_Z 0 / 100 == 0)%Q) by done.
  rewrite H0 in H. by apply H.
Qed.

Lemma dict_set_NoDup {V} (k : Z) (v : V) (d : list (Z * V)) :
  NoDup d.*1 → NoDup (dict_set k v d).*1.
Proof.
  induction d as [|[k' v'] d IH]; simpl.
  - intros _. apply NoDup_singleton.
  - intros [Hk Hd]%NoDup_cons. case_decide as Heq; simpl.
    + subst. by apply NoDup_cons.
    + apply NoDup_cons. split; [|by apply IH].
      rewrite dict_set_keys. intros [?|?]; [congruence|done].
Qed.

Lemma dict_set_values {V} (P : V → Prop) (k : Z) (v : V) (d : list (Z * V)) :
  P v → Forall P d.*2 → Forall P (dict_set k v d).*2.
Proof.
  intros Hv. induction d as [|[k' v'] d IH]; simpl.
  - intros _. by repeat constructor.
  - intros [Hk Hd]%Forall_cons. case_decide; simpl; constructor; auto.
Qed.

Lemma dict_get_elem_of {V} (k : Z) (v : V) (d : list (Z * V)) :
  dict_get k d = Some v → (k, v) ∈ d.
Proof.
  induction d as [|[k' v'] d IH]; simpl; [done|].
  case_decide.
  - intros [= ->]. subst. list_mem.
  - intros Hget. apply list_elem_of_further. by apply IH.
Qed.

Lemma ep_by_player_of_facts (M : libm) picks elem_by_id team_idx fixtures_by_team :
  let ep := ep_by_player_of M picks elem_by_id team_idx fixtures_by_team in
  NoDup ep.*1 ∧ Forall ep_value ep.*2.
Proof.
  unfold ep_by_player_of.
  assert (Hgen : ∀ acc : list (Z * Q),
    NoDup acc.*1 → Forall ep_value acc.*2 →
    let ep := foldl (λ ep_by_player p,
                  let eid := pick_element p in
                  let e := default no_element (elem_by_id !! eid) in
                  let team_id := int_or 0 (team e) in
                  let fx_rows := default [] (fixtures_by_team !! team_id) in
                  let ep := aggregate_epdelta_for_fixtures M e fx_rows team_idx in
                  dict_set eid (round2 ep) ep_by_player) acc picks in
    NoDup ep.*1 ∧ Forall ep_value ep.*2).
  { induction picks as [|p picks IH]; intros acc Hnd Hall; [done|].
    cbn [foldl]. apply IH.
    - by apply dict_set_NoDup.
    - apply dict_set_values; [|done]. split.
      + apply round2_nonneg, aggregate_nonneg.
      + by eexists. }
  apply Hgen; constructor.
Qed.

Lemma ep_of_nonneg (ep : list (Z * Q)) (pid : Z) :
  Forall ep_value ep.*2 → (0 <= ep_of ep pid)%Q.
Proof.
  intros Hall. unfold ep_of. destruct (dict_get pid ep) as [v|] eqn:Hget; [|done].
  apply dict_get_elem_of in Hget. rewrite Forall_forall in Hall.
  apply Hall, list_elem_of_fmap. by exists (pid, v).
Qed.

Lemma py_sum_nonneg (xs : list Q) : Forall (λ x, (0 <= x)%Q) xs → (0 <= py_sum xs)%Q.
Proof.
  intros Hall. unfold py_sum.
  assert (Hgen : ∀ acc, (0 <= acc)%Q → (0 <= foldl Qplus acc xs)%Q).
  { induction Hall as [|x xs Hx Hall IH]; intros acc Hacc; [done|].
    cbn [foldl]. apply IH. lra. }
  by apply Hgen.
Qed.

Lemma ep_sum_nonneg (ep : list (Z * Q)) (ids : list Z) :
  Forall ep_value ep.*2 → (0 <= py_sum (ep_of ep <$> ids))%Q.
Proof.
  intros Hall. apply py_sum_nonneg, Forall_fmap, Forall_forall.
  intros pid _. by apply ep_of_nonneg.
Qed.

(** X4: in every plan that [plan_gameweek] returns, [per_player_ep] holds
    every picked player once (no key twice, and the keys are the picked ids),
    every value is a non-negative multiple of 0.01, and the totals of the
    current XI, of the optimal XI and of the bench are non-negative. *)
Theorem X4_per_player_ep (M : libm) picks elements teams fixtures_gw gw
    ownership_idx mode (p : plan) :
  plan_gameweek M picks elements teams fixtures_gw gw ownership_idx mode = Some p →
  NoDup (per_player_ep p).*1 ∧
  (∀ pid, pid ∈ (per_player_ep p).*1 ↔ pid ∈ pick_element <$> picks) ∧
  (∀ pid v, dict_get pid (per_player_ep p) = Some v →
     (0 <= v)%Q ∧ ∃ z : Z, v = (inject_Z z / 100)%Q) ∧
  (0 <= ep_total_current p)%Q ∧ (0 <= ep_total_optimal p)%Q ∧
  (0 <= bench_ep_total p)%Q.
Proof.
  intros Hplan.
  destruct (plan_gameweek_inv _ _ _ _ _ _ _ _ _ Hplan)
    as (elem_by_id & team_idx & curr_cap & curr_vc & _ & _ & Hinv).
  cbv zeta in Hinv. destruct Hinv as (Hep & _).
  destruct (ep_by_player_of_facts M picks elem_by_id team_idx
              (fixtures_by_team_of fixtures_gw team_idx)) as [Hnd Hvals].
  rewrite <- Hep in Hnd, Hvals.
  split; [done|]. split.
  { intros pid. rewrite Hep. apply ep_by_player_of_keys. }
  split.
  { intros pid v Hget%dict_get_elem_of. rewrite Forall_forall in Hvals.
    apply Hvals, list_elem_of_fmap. by exists (pid, v). }
  revert Hplan. unfold plan_gameweek.
  destruct (index_by id elements) as [e2|]; [|done].
  destruct (index_by team_id teams) as [t2|]; [|done].
  cbn [mbind option_bind].
  destruct (repair_current _ _ _ _) as [cs cb].
  destruct (choose_starting_xi _ _) as [[os ob]|]; [|done].
  cbn [mbind option_bind].
  destruct (recommend_captain_from_ids _ _ _ _ _) as [c v].
  intros [= <-]. cbn [per_player_ep] in Hvals.
  cbn [ep_total_current ep_total_optimal bench_ep_total].
  repeat split; by apply ep_sum_nonneg.
Qed.

Lemma X4_witness :
  ∃ p,
    plan_gameweek unit_exp mock_picks mock_elements mock_teams mock_fixtures 5
      mock_ownership "safe" = Some p ∧
    dict_get 7 (per_player_ep p) = Some (108 # 100)%Q ∧
    (0 <= ep_total_optimal p)%Q.
Proof.
  destruct (plan_gameweek unit_exp mock_picks mock_elements mock_teams mock_fixtures 5
              mock_ownership "safe") as [p|] eqn:Hplan; [|by vm_compute in Hplan].
  exists p. split; [reflexivity|].
  destruct (X4_per_player_ep _ _ _ _ _ _ _ _ _ Hplan) as (_ & _ & _ & _ & Hopt & _).
  split; [|exact Hopt].
  vm_compute in Hplan. injection Hplan as <-. reflexivity.
Defined.

(** ** The greedy selection of swaps *)

Lemma choose_step_inv positions current_start st seen t :
  choose_inv positions current_start st seen →
  choose_inv positions current_start (choose_step positions st t) (seen ++ [t]).
Proof.
  intros (Hsub & Hin & Hout & Hndi & Hndo & Htrial & Hlegal).
  assert (Hkeep : choose_inv positions current_start st (seen ++ [t])).
  { split; [by apply sublist_inserts_r|].
    exact (conj Hin (conj Hout (conj Hndi (conj Hndo (conj Htrial Hlegal))))). }
  destruct t as [[i o] d]. unfold choose_step.
  destruct (bool_decide (i ∈ used_in st)) eqn:Hi; [exact Hkeep|].
  destruct (bool_decide (o ∈ used_out st)) eqn:Ho; [exact Hkeep|].
  cbn [orb]. apply bool_decide_eq_false in Hi, Ho.
  destruct (is_legal_start positions (filter _ _ ++ [i])) eqn:Hleg; [|exact Hkeep].
  unfold choose_inv. cbn [chosen_pairs used_in used_out trial_start].
  rewrite !fmap_app. cbn [fmap list_fmap fst snd].
  split; [by apply sublist_app|].
  split. { intros j. rewrite elem_of_union, elem_of_singleton, elem_of_app,
             list_elem_of_singleton, Hin. tauto. }
  split. { intros j. rewrite elem_of_union, elem_of_singleton, elem_of_app,
             list_elem_of_singleton, Hout. tauto. }
  split.
  { apply NoDup_app. split; [done|]. split; [|apply NoDup_singleton].
    intros j Hj ->%list_elem_of_singleton. by apply Hi, Hin. }
  split.
  { apply NoDup_app. split; [done|]. split; [|apply NoDup_singleton].
    intros j Hj ->%list_elem_of_singleton. by apply Ho, Hout. }
  split; [by rewrite foldl_app, <- Htrial|done].
Qed.

Lemma choose_pairs_fold positions current_start pairs :
  choose_pairs positions current_start pairs
  = chosen_pairs (foldl (choose_step positions)
                    {| chosen_pairs := []; used_in := ∅; used_out := ∅;
                       trial_start := current_start |} pairs).
Proof.
  reflexivity.
Qed.

Lemma choose_pairs_inv positions current_start pairs :
  let chosen := choose_pairs positions current_start pairs in
  chosen `sublist_of` pairs ∧
  NoDup chosen.*1.*1 ∧ NoDup chosen.*1.*2 ∧
  (chosen ≠ [] →
   is_legal_start positions (foldl pair_lineup current_start chosen) = true).
Proof.
  cbv zeta. rewrite choose_pairs_fold.
  set (st0 := {| chosen_pairs := []; used_in := ∅; used_out := ∅;
                 trial_start := current_start |}).
  assert (Hgen : ∀ pairs st seen,
            choose_inv positions current_start st seen →
            choose_inv positions current_start
              (foldl (choose_step positions) st pairs) (seen ++ pairs)).
  { clear. induction pairs as [|t pairs IH]; intros st seen Hinv.
    - by rewrite app_nil_r.
    - cbn [foldl]. rewrite (cons_middle t), app_assoc. apply IH.
      by apply choose_step_inv. }
  destruct (Hgen pairs st0 []) as (Hsub & _ & _ & Hndi & Hndo & Htrial & Hlegal).
  { unfold choose_inv, st0. cbn. repeat split; try done; try apply NoDup_nil_2.
    all: by intros ?%elem_of_nil || set_solver. }
  rewrite app_nil_l in Hsub. rewrite <- Htrial. done.
Qed.

Lemma swap_pairs_elem_of (ep : list (Z * Q)) (start_in bench_out : list Z)
    (i o : Z) (d : Q) :
  (i, o, d) ∈ swap_pairs ep start_in bench_out →
  i ∈ start_in ∧ o ∈ bench_out ∧ d = (ep_of ep i - ep_of ep o)%Q ∧ (20 # 100 <= d)%Q.
Proof.
  unfold swap_pairs.
  intros (i' & Hin & Hi')%list_elem_of_bind.
  apply list_elem_of_bind in Hin as (o' & Hin & Ho').
  destruct (fleb _ _) eqn:Hle; [|by apply elem_of_nil in Hin].
  apply list_elem_of_singleton in Hin. injection Hin as -> -> ->.
  float_cmp. done.
Qed.

Lemma swap_actions_ins_outs (gw : Z) (ep : list (Z * Q)) (chosen : list (Z * Z * Q)) :
  swap_in <$> swap_actions gw ep chosen = chosen.*1.*1 ∧
  swap_out <$> swap_actions gw ep chosen = chosen.*1.*2 ∧
  action_priority <$> swap_actions gw ep chosen
    = (λ k, 10 + Z.of_nat k) <$> seq 0 (length chosen) ∧
  Forall (λ a, action_bundle_id a = Some ("lineup-" +:+ pretty gw +:+ "-1"))
         (swap_actions gw ep chosen) ∧
  length (swap_actions gw ep chosen) = length chosen.
Proof.
  rewrite swap_actions_imap. generalize 10 as prio.
  induction chosen as [|[[i o] d] chosen IH]; intros prio; [by repeat constructor|].
  rewrite imap_cons.
  assert (Hshift : imap (swap_action_at gw ep prio ∘ S) chosen
                   = imap (swap_action_at gw ep (prio + 1)) chosen).
  { apply imap_ext. intros k y _. unfold swap_action_at, compose. f_equal. lia. }
  rewrite Hshift. destruct (IH (prio + 1)) as (IH1 & IH2 & IH3 & IH4 & IH5).
  cbn [fmap list_fmap length seq]. rewrite IH1, IH2, IH3, IH5.
  split; [done|]. split; [done|]. split.
  { cbn [action_priority swap_action_at].
    rewrite <- fmap_S_seq, <- list_fmap_compose.
    apply (f_equal (cons _)).
    apply list_fmap_ext. intros k x _. simpl. lia. }
  split; [|done]. by constructor.
Qed.

Lemma foldl_swap_lineup (gw : Z) (ep : list (Z * Q)) (chosen : list (Z * Z * Q))
    (start : list Z) :
  foldl swap_lineup start (swap_actions gw ep chosen) = foldl pair_lineup start chosen.
Proof.
  rewrite swap_actions_imap. generalize 10 as prio. revert start.
  induction chosen as [|[[i o] d] chosen IH]; intros start prio; [done|].
  rewrite imap_cons. cbn [foldl].
  assert (Hshift : imap (swap_action_at gw ep prio ∘ S) chosen
                   = imap (swap_action_at gw ep (prio + 1)) chosen).
  { apply imap_ext. intros k y _. unfold swap_action_at, compose. f_equal. lia. }
  rewrite Hshift. apply IH.
Qed.

(** The swap actions of a returned plan are the actions built from the
    pairs that the greedy selection accepted. *)
Lemma plan_swaps_chosen (M : libm) picks elements teams fixtures_gw gw
    ownership_idx mode (p : plan) (elem_by_id : gmap Z element) :
  plan_gameweek M picks elements teams fixtures_gw gw ownership_idx mode = Some p →
  index_by id elements = Some elem_by_id →
  swaps_of p =
    swap_actions gw (per_player_ep p)
      (choose_pairs (positions_of picks elem_by_id) (current_start p)
         (py_sort (λ t : Z * Z * Q, t.2) true
            (swap_pairs (per_player_ep p)
               (filter (λ pid, pid ∉ current_start p) (optimal_start p))
               (filter (λ pid, pid ∉ optimal_start p) (current_start p))))).
Proof.
  intros Hplan He.
  destruct (plan_gameweek_inv _ _ _ _ _ _ _ _ _ Hplan)
    as (elem_by_id' & team_idx & curr_cap & curr_vc & He' & _ & Hinv).
  rewrite He in He'. injection He' as <-.
  cbv zeta in Hinv. destruct Hinv as (Hep & _ & _ & _ & _ & _ & _ & _ & Hact).
  unfold swaps_of. rewrite Hact, !filter_app.
  rewrite (filter_all _ (swap_actions _ _ _)) by apply swap_actions_are_swaps.
  rewrite (filter_none _ (captaincy_actions _ _ _ _ _ _)).
  2:{ eapply Forall_impl; [apply captaincy_actions_types|]. by intros []. }
  rewrite (filter_none _ [chip_action _])
    by (constructor; [by rewrite chip_action_not_swap|constructor]).
  rewrite !app_nil_r. by rewrite Hep.
Qed.

Lemma is_legal_start_length positions starters :
  is_legal_start positions starters = true → length starters = 11%nat.
Proof.
  unfold is_legal_start. destruct (length starters =? 11)%nat eqn:Hlen; [|done].
  intros _. by apply Nat.eqb_eq.
Qed.

Lemma plan_pairs_facts (M : libm) picks elements teams fixtures_gw gw
    ownership_idx mode (p : plan) (elem_by_id : gmap Z element) :
  plan_gameweek M picks elements teams fixtures_gw gw ownership_idx mode = Some p →
  index_by id elements = Some elem_by_id →
  ∃ chosen,
    swaps_of p = swap_actions gw (per_player_ep p) chosen ∧
    NoDup chosen.*1.*1 ∧ NoDup chosen.*1.*2 ∧
    (∀ t, t ∈ chosen →
       t.1.1 ∈ optimal_start p ∧ (t.1.1 ∉ current_start p) ∧
       t.1.2 ∈ current_start p ∧ (t.1.2 ∉ optimal_start p) ∧
       (20 # 100 <= ep_of (per_player_ep p) t.1.1 - ep_of (per_player_ep p) t.1.2)%Q) ∧
    (chosen ≠ [] →
     is_legal_start (positions_of picks elem_by_id)
       (foldl pair_lineup (current_start p) chosen) = true).
Proof.
  intros Hplan He.
  pose proof (plan_swaps_chosen _ _ _ _ _ _ _ _ _ _ Hplan He) as Hswaps.
  set (pairs := py_sort _ true _) in Hswaps.
  set (chosen := choose_pairs _ _ pairs) in Hswaps.
  destruct (choose_pairs_inv (positions_of picks elem_by_id) (current_start p) pairs)
    as (Hsub & Hndi & Hndo & Hlegal).
  fold chosen in Hsub, Hndi, Hndo, Hlegal.
  exists chosen. split; [done|]. split; [done|]. split; [done|]. split; [|done].
  intros [[i o] d] Ht. cbn [fst snd].
  assert (Hin : (i, o, d) ∈ pairs) by by apply (elem_of_sublist _ _ _ Ht Hsub).
  unfold pairs in Hin. rewrite py_sort_elem_of in Hin.
  apply swap_pairs_elem_of in Hin as (Hi & Ho & -> & Hd).
  apply list_elem_of_filter in Hi as [Hi1 Hi2].
  apply list_elem_of_filter in Ho as [Ho1 Ho2]. done.
Qed.

Lemma swap_actions_elem (gw : Z) (ep : list (Z * Q)) (chosen : list (Z * Z * Q))
    (a : action) :
  a ∈ swap_actions gw ep chosen →
  ∃ t, t ∈ chosen ∧ swap_in a = t.1.1 ∧ swap_out a = t.1.2.
Proof.
  rewrite swap_actions_imap. intros [k Hk]%list_elem_of_lookup.
  rewrite list_lookup_imap in Hk.
  destruct (chosen !! k) as [t|] eqn:Ht; [|done].
  injection Hk as <-. exists t. split; [by apply list_elem_of_lookup_2 in Ht|done].
Qed.

(** X7: the swap actions of a returned plan.  Each swap brings in a player
    of the optimal XI who is not in the current XI, for a player of the
    current XI who is not in the optimal XI, with an EPΔ gain of at least
    0.20, under the bundle id [lineup-<gw>-1]; no player comes in twice or
    goes out twice; the priorities are 10, 11, 12, ... in the order of the
    list. *)
Theorem X7_swap_actions (M : libm) picks elements teams fixtures_gw gw
    ownership_idx mode (p : plan) :
  plan_gameweek M picks elements teams fixtures_gw gw ownership_idx mode = Some p →
  let swaps := swaps_of p in
  let ep := ep_of (per_player_ep p) in
  Forall (λ a, swap_in a ∈ optimal_start p ∧ (swap_in a ∉ current_start p) ∧
               swap_out a ∈ current_start p ∧ (swap_out a ∉ optimal_start p) ∧
               (20 # 100 <= ep (swap_in a) - ep (swap_out a))%Q ∧
               action_bundle_id a = Some ("lineup-" +:+ pretty gw +:+ "-1"))
         swaps ∧
  NoDup (swap_in <$> swaps) ∧ NoDup (swap_out <$> swaps) ∧
  action_priority <$> swaps = (λ k, 10 + Z.of_nat k) <$> seq 0 (length swaps).
Proof.
  intros Hplan swaps ep.
  destruct (plan_gameweek_inv _ _ _ _ _ _ _ _ _ Hplan)
    as (elem_by_id & team_idx & curr_cap & curr_vc & He & _ & _).
  destruct (plan_pairs_facts _ _ _ _ _ _ _ _ _ _ Hplan He)
    as (chosen & Hswaps & Hndi & Hndo & Hmem & _).
  fold swaps in Hswaps.
  destruct (swap_actions_ins_outs gw (per_player_ep p) chosen)
    as (Hins & Houts & Hprio & Hbundle & Hlen).
  rewrite <- Hswaps in Hins, Houts, Hprio, Hbundle, Hlen.
  split; [|by rewrite Hins, Houts, Hprio, Hlen].
  rewrite Forall_forall. intros a Ha.
  assert (Hb : action_bundle_id a = Some ("lineup-" +:+ pretty gw +:+ "-1")).
  { rewrite Forall_forall in Hbundle. by apply Hbundle. }
  rewrite Hswaps in Ha. apply swap_actions_elem in Ha as (t & Ht & Hin & Hout).
  rewrite Hin, Hout. destruct (Hmem t Ht) as (H1 & H2 & H3 & H4 & H5). done.
Qed.

Lemma X7_witness :
  ∃ p,
    plan_gameweek unit_exp mock_picks mock_elements mock_teams mock_fixtures 5
      mock_ownership "safe" = Some p ∧
    swap_in <$> swaps_of p = [15] ∧ swap_out <$> swaps_of p = [506] ∧
    action_priority <$> swaps_of p = [10].
Proof.
  destruct (plan_gameweek unit_exp mock_picks mock_elements mock_teams mock_fixtures 5
              mock_ownership "safe") as [p|] eqn:Hplan; [|by vm_compute in Hplan].
  exists p. split; [reflexivity|].
  destruct (X7_swap_actions _ _ _ _ _ _ _ _ _ Hplan) as (_ & _ & _ & Hprio).
  assert (Hlen : length (swaps_of p) = 1%nat).
  { vm_compute in Hplan. injection Hplan as <-. reflexivity. }
  rewrite Hlen in Hprio. split; [|split; [|exact Hprio]].
  - vm_compute in Hplan. injection Hplan as <-. reflexivity.
  - vm_compute in Hplan. injection Hplan as <-. reflexivity.
Defined.

(** X8: when a returned plan has swaps, carrying all of them out on the
    current XI (each one removes its outgoing player and appends its incoming
    player) gives a lineup that [is_legal_start] accepts: eleven players
    with one goalkeeper and the outfield minima and maxima. *)
Theorem X8_swaps_give_legal_lineup (M : libm) picks elements teams fixtures_gw gw
    ownership_idx mode (p : plan) (elem_by_id : gmap Z element) :
  plan_gameweek M picks elements teams fixtures_gw gw ownership_idx mode = Some p →
  index_by id elements = Some elem_by_id →
  swaps_of p ≠ [] →
  is_legal_start (positions_of picks elem_by_id)
    (foldl swap_lineup (current_start p) (swaps_of p)) = true.
Proof.
  intros Hplan He Hne.
  rewrite (plan_swaps_chosen _ _ _ _ _ _ _ _ _ _ Hplan He) in Hne |- *.
  set (pairs := py_sort _ true _) in *.
  destruct (choose_pairs_inv (positions_of picks elem_by_id) (current_start p) pairs)
    as (_ & _ & _ & Hlegal).
  rewrite foldl_swap_lineup. apply Hlegal.
  intros Hnil. apply Hne. by rewrite Hnil.
Qed.

Lemma X8_witness :
  ∃ p,
    plan_gameweek unit_exp mock_picks mock_elements mock_teams mock_fixtures 5
      mock_ownership "safe" = Some p ∧
    is_legal_start (positions_of mock_picks mock_elem_by_id)
      (foldl swap_lineup (current_start p) (swaps_of p)) = true.
Proof.
  assert (He : index_by id mock_elements = Some mock_elem_by_id)
    by (vm_compute; reflexivity).
  destruct (plan_gameweek unit_exp mock_picks mock_elements mock_teams mock_fixtures 5
              mock_ownership "safe") as [p|] eqn:Hplan; [|by vm_compute in Hplan].
  exists p. split; [reflexivity|].
  apply (X8_swaps_give_legal_lineup _ _ _ _ _ _ _ _ _ _ Hplan He).
  vm_compute in Hplan. injection Hplan as <-. intros Hnil. vm_compute in Hnil.
  discriminate Hnil.
Defined.

(** ** The squad selector on any squad *)

Lemma fill_remaining_spec (positions : gmap Z string) (cands : list (Z * Q))
    (selected : list Z) (counts : gmap string nat)
    (selected' : list Z) (counts' : gmap string nat) :
  fill_remaining positions cands selected counts = Some (selected', counts') →
  ∃ added,
    selected' = selected ++ added ∧ added `sublist_of` cands.*1 ∧
    ((length selected ≤ 11)%nat → (length selected' ≤ 11)%nat) ∧
    ∀ pos c mx, counts !! pos = Some c → MAX_BY_POS !! pos = Some mx →
      (c ≤ mx)%nat →
      ∃ c', counts' !! pos = Some c' ∧
            (c' = c + count_pos positions pos added)%nat ∧ (c' ≤ mx)%nat.
Proof.
  revert selected counts.
  induction cands as [|[pid ep] cands IH]; intros selected counts Hfill.
  - injection Hfill as <- <-. exists []. rewrite app_nil_r.
    split; [done|]. split; [done|]. split; [done|].
    intros pos c mx Hc _ Hle. exists c. by rewrite Nat.add_0_r.
  - cbn [fill_remaining] in Hfill.
    destruct (11 <=? length selected)%nat eqn:Hfull.
    { injection Hfill as <- <-. exists []. rewrite app_nil_r.
      split; [done|]. split; [apply sublist_nil_l|]. split; [done|].
      intros pos c mx Hc _ Hle. exists c. by rewrite Nat.add_0_r. }
    apply Nat.leb_gt in Hfull.
    destruct (positions !! pid) as [pos0|] eqn:Hpid; [|done].
    cbn [mbind option_bind] in Hfill.
    destruct (counts !! pos0) as [c0|] eqn:Hc0; [|done].
    cbn [mbind option_bind] in Hfill.
    destruct (MAX_BY_POS !! pos0) as [mx0|] eqn:Hmx0; [|done].
    cbn [mbind option_bind] in Hfill.
    destruct (c0 <? mx0)%nat eqn:Hlt.
    + apply Nat.ltb_lt in Hlt.
      destruct (IH _ _ Hfill) as (added & -> & Hsub & Hlen & Hcounts).
      exists (pid :: added). split; [by rewrite <- app_assoc|].
      split; [by apply sublist_skip|].
      split.
      { intros _. apply Hlen. rewrite length_app. simpl. lia. }
      intros pos c mx Hc Hmx Hle.
      change (pid :: added) with ([pid] ++ added). rewrite count_pos_app.
      destruct (decide (pos = pos0)) as [->|Hne].
      * rewrite Hc0 in Hc. injection Hc as <-.
        rewrite Hmx0 in Hmx. injection Hmx as <-.
        destruct (Hcounts pos0 (c0 + 1)%nat mx0) as (c' & Hc' & Heq & Hle');
          [by rewrite lookup_insert_eq|done|lia|].
        exists c'. split; [done|]. split; [|done].
        rewrite (count_pos_all _ _ [pid]) by (by constructor). simpl. lia.
      * destruct (Hcounts pos c mx) as (c' & Hc' & Heq & Hle');
          [by rewrite lookup_insert_ne|done|done|].
        exists c'. split; [done|]. split; [|done].
        rewrite (count_pos_other _ pos pos0 [pid]) by (done || by constructor).
        simpl. lia.
    + destruct (IH _ _ Hfill) as (added & -> & Hsub & Hlen & Hcounts).
      exists added. split; [done|]. split; [by apply sublist_cons|].
      split; [done|]. done.
Qed.

Lemma meet_minimum_gen (by_pos : gmap string (list (Z * Q)))
    (selected : list Z) (counts : gmap string nat) (pos : string)
    (need c : nat) (grp : list (Z * Q)) :
  MIN_BY_POS !! pos = Some need → by_pos !! pos = Some grp →
  counts !! pos = Some c →
  Forall (λ pid, pid ∉ selected) grp.*1 →
  meet_minimum by_pos (selected, counts) pos
  = Some (selected ++ take need grp.*1,
          <[ pos := (c + min (length grp) need)%nat ]> counts).
Proof.
  intros Hneed Hgrp Hc Hfree. unfold meet_minimum.
  rewrite Hneed, Hgrp, Hc. cbn [mbind option_bind].
  by rewrite (filter_all _ _ Hfree), length_fmap.
Qed.

(** The sorted group of one position, when every player has a position. *)
Lemma group_facts_gen (ep_by_player : list (Z * Q)) (positions : gmap Z string)
    (k : string) :
  NoDup ep_by_player.*1 →
  (∀ pid, pid ∈ ep_by_player.*1 → is_Some (positions !! pid)) →
  let grp := py_sort snd true
               (filter (λ x : Z * Q, default "MID" (positions !! x.1) = k)
                       ep_by_player) in
  Forall (λ i, positions !! i = Some k) grp.*1 ∧
  length grp = count_pos positions k ep_by_player.*1 ∧
  NoDup grp.*1 ∧
  (∀ i, i ∈ grp.*1 → i ∈ ep_by_player.*1).
Proof.
  intros Hnd Hcov grp.
  assert (Hcls : ∀ x : Z * Q, x ∈ ep_by_player →
            default "MID" (positions !! x.1) = k ↔ positions !! x.1 = Some k).
  { intros x Hx.
    destruct (Hcov x.1) as [s Hs]; [apply list_elem_of_fmap; by exists x|].
    rewrite Hs. simpl. split; congruence. }
  assert (Hperm : grp ≡ₚ filter (λ x : Z * Q, default "MID" (positions !! x.1) = k)
                           ep_by_player) by apply py_sort_perm.
  split; [|split; [|split]].
  - rewrite Forall_forall. intros i (x & -> & Hx)%list_elem_of_fmap.
    rewrite Hperm in Hx. apply list_elem_of_filter in Hx as [Hx Hin].
    by apply Hcls.
  - rewrite Hperm. unfold count_pos. rewrite length_filter_fmap.
    f_equal. by apply filter_ext_in.
  - rewrite Hperm. by apply NoDup_fmap_filter.
  - intros i (x & -> & Hx)%list_elem_of_fmap.
    rewrite Hperm in Hx. apply list_elem_of_filter in Hx as [_ Hin].
    apply list_elem_of_fmap. by exists x.
Qed.

Lemma count_pos_le_length positions pos l :
  (count_pos positions pos l ≤ length l)%nat.
Proof. unfold count_pos. apply length_filter. Qed.

Lemma count_pos_take_all positions pos n l :
  Forall (λ i, positions !! i = Some pos) l →
  count_pos positions pos (take n l) = min n (length l).
Proof.
  intros Hall. rewrite count_pos_all by by apply Forall_take.
  by rewrite length_take.
Qed.

Lemma count_pos_take_other positions pos pos' n l :
  pos ≠ pos' → Forall (λ i, positions !! i = Some pos') l →
  count_pos positions pos (take n l) = 0%nat.
Proof.
  intros Hne Hall. apply (count_pos_other _ _ pos'); [done|by apply Forall_take].
Qed.

Lemma count_pos_sub_other positions pos (l1 l2 : list Z) :
  l1 `sublist_of` l2 → count_pos positions pos l2 = 0%nat →
  count_pos positions pos l1 = 0%nat.
Proof.
  intros Hsub H0. pose proof (count_pos_sublist positions pos _ _ Hsub). lia.
Qed.

Lemma choose_starting_xi_spec (ep_by_player : list (Z * Q))
    (positions : gmap Z string) :
  NoDup ep_by_player.*1 →
  (∀ pid, pid ∈ ep_by_player.*1 → is_Some (positions !! pid)) →
  ∃ start bench,
    choose_starting_xi ep_by_player positions = Some (start, bench) ∧
    selector_result ep_by_player positions start bench.
Proof.
  intros Hnd Hcov.
  destruct (choose_starting_xi_total ep_by_player positions Hcov)
    as [[start bench] Hxi].
  exists start, bench. split; [done|].
  set (grp := λ k : string,
         py_sort snd true
           (filter (λ x : Z * Q, default "MID" (positions !! x.1) = k) ep_by_player)).
  assert (Hby : ∀ k, k ∈ ["GK"; "DEF"; "MID"; "FWD"] →
            (py_sort snd true <$> group_by_pos ep_by_player positions) !! k
            = Some (grp k)).
  { intros k Hk. by rewrite lookup_fmap, group_by_pos_lookup. }
  destruct (group_facts_gen ep_by_player positions "GK" Hnd Hcov)
    as (HG & HGlen & HGnd & HGin).
  destruct (group_facts_gen ep_by_player positions "DEF" Hnd Hcov)
    as (HD & HDlen & HDnd & HDin).
  destruct (group_facts_gen ep_by_player positions "MID" Hnd Hcov)
    as (HM & HMlen & HMnd & HMin).
  destruct (group_facts_gen ep_by_player positions "FWD" Hnd Hcov)
    as (HF & HFlen & HFnd & HFin).
  fold (grp "GK") in HG, HGlen, HGnd, HGin.
  fold (grp "DEF") in HD, HDlen, HDnd, HDin.
  fold (grp "MID") in HM, HMlen, HMnd, HMin.
  fold (grp "FWD") in HF, HFlen, HFnd, HFin.
  unfold choose_starting_xi in Hxi.
  rewrite !Hby in Hxi by list_mem.
  cbn [mbind option_bind] in Hxi.
  pose proof (Hby "DEF" ltac:(list_mem)) as HbyD.
  pose proof (Hby "MID" ltac:(list_mem)) as HbyM.
  pose proof (Hby "FWD" ltac:(list_mem)) as HbyF.
  clear Hby.
  set (by_pos := py_sort snd true <$> group_by_pos ep_by_player positions) in *.
  set (G := grp "GK") in *. set (D := grp "DEF") in *.
  set (Mi := grp "MID") in *. set (F := grp "FWD") in *.
  clearbody by_pos G D Mi F. clear grp.
  (* step A *)
  set (init := match G with [] => _ | _ => _ end) in Hxi.
  assert (Hinit : ∃ counts0,
            init = (take 1 G.*1, counts0) ∧
            counts0 !! "DEF" = Some 0%nat ∧ counts0 !! "MID" = Some 0%nat ∧
            counts0 !! "FWD" = Some 0%nat).
  { unfold init. destruct G as [|[g eg] G']; eexists; by repeat split. }
  destruct Hinit as (counts0 & Hinit & Hc0D & Hc0M & Hc0F).
  clearbody init. subst init.
  pose proof (Forall_take _ 1%nat _ HG) as HtG.
  pose proof (Forall_take _ 3%nat _ HD) as HtD.
  pose proof (Forall_take _ 2%nat _ HM) as HtM.
  pose proof (Forall_take _ 1%nat _ HF) as HtF.
  pose proof (Forall_drop _ 3%nat _ HD) as HdD.
  pose proof (Forall_drop _ 2%nat _ HM) as HdM.
  pose proof (Forall_drop _ 1%nat _ HF) as HdF.
  (* step B *)
  cbn [foldlM] in Hxi.
  rewrite (meet_minimum_gen by_pos _ counts0 "DEF" 3 0 D) in Hxi; [|done..|].
  2:{ rewrite Forall_forall. intros i Hi Hin. revert Hin.
      eapply (not_elem_of_by_pos positions "DEF" "GK"); [done| |done].
      rewrite Forall_forall in HD. by apply HD. }
  cbn [mbind option_bind] in Hxi.
  set (counts1 := <["DEF":=_]> counts0) in Hxi.
  rewrite (meet_minimum_gen by_pos _ counts1 "MID" 2 0 Mi) in Hxi;
    [|done|done|by unfold counts1; rewrite lookup_insert_ne|].
  2:{ rewrite Forall_forall. intros i Hi.
      assert (Him : positions !! i = Some "MID").
      { rewrite Forall_forall in HM. by apply HM. }
      intros [Hin|Hin]%elem_of_app; revert Hin.
      - by eapply (not_elem_of_by_pos positions "MID" "GK").
      - by eapply (not_elem_of_by_pos positions "MID" "DEF"). }
  cbn [mbind option_bind] in Hxi.
  set (counts2 := <["MID":=_]> counts1) in Hxi.
  rewrite (meet_minimum_gen by_pos _ counts2 "FWD" 1 0 F) in Hxi;
    [|done|done|by unfold counts2, counts1; rewrite !lookup_insert_ne|].
  2:{ rewrite Forall_forall. intros i Hi.
      assert (Hif : positions !! i = Some "FWD").
      { rewrite Forall_forall in HF. by apply HF. }
      intros [[Hin|Hin]%elem_of_app|Hin]%elem_of_app; revert Hin.
      - by eapply (not_elem_of_by_pos positions "FWD" "GK").
      - by eapply (not_elem_of_by_pos positions "FWD" "DEF").
      - by eapply (not_elem_of_by_pos positions "FWD" "MID"). }
  cbn [mbind option_bind] in Hxi.
  set (counts3 := <["FWD":=_]> counts2) in Hxi.
  set (sel := ((take 1 G.*1 ++ take 3 D.*1) ++ take 2 Mi.*1) ++ take 1 F.*1) in Hxi.
  set (C := filter (λ x : Z * Q, x.1 ∉ sel) (D ++ Mi ++ F)) in Hxi.
  assert (HC : C = drop 3 D ++ drop 2 Mi ++ drop 1 F).
  { unfold C. rewrite !filter_app. f_equal; [|f_equal].
    - rewrite <- (filter_notin_take fst 3 D HDnd). apply filter_ext_in.
      intros x Hx.
      assert (Hx1 : positions !! x.1 = Some "DEF").
      { rewrite Forall_forall in HD. apply HD, list_elem_of_fmap. by exists x. }
      unfold sel. rewrite !not_elem_of_app. split; [tauto|]. intros Hn.
      repeat split; [|done|..];
        (eapply (not_elem_of_by_pos positions "DEF"); [|exact Hx1|eassumption]; done).
    - rewrite <- (filter_notin_take fst 2 Mi HMnd). apply filter_ext_in.
      intros x Hx.
      assert (Hx1 : positions !! x.1 = Some "MID").
      { rewrite Forall_forall in HM. apply HM, list_elem_of_fmap. by exists x. }
      unfold sel. rewrite !not_elem_of_app. split; [tauto|]. intros Hn.
      repeat split; [| |done|];
        (eapply (not_elem_of_by_pos positions "MID"); [|exact Hx1|eassumption]; done).
    - rewrite <- (filter_notin_take fst 1 F HFnd). apply filter_ext_in.
      intros x Hx.
      assert (Hx1 : positions !! x.1 = Some "FWD").
      { rewrite Forall_forall in HF. apply HF, list_elem_of_fmap. by exists x. }
      unfold sel. rewrite !not_elem_of_app. split; [tauto|]. intros Hn.
      repeat split; [| | |done];
        (eapply (not_elem_of_by_pos positions "FWD"); [|exact Hx1|eassumption]; done). }
  assert (HC1 : C.*1 = drop 3 D.*1 ++ drop 2 Mi.*1 ++ drop 1 F.*1).
  { by rewrite HC, !fmap_app, !fmap_drop. }
  set (C' := py_sort snd true C) in Hxi.
  assert (HC' : C'.*1 ≡ₚ C.*1) by (unfold C'; by rewrite py_sort_perm).
  destruct (fill_remaining positions C' sel counts3) as [[sel4 counts4]|] eqn:Hfill;
    [|done].
  cbn [mbind option_bind] in Hxi. injection Hxi as <- <-.
  destruct (fill_remaining_spec _ _ _ _ _ _ Hfill) as (added & -> & Hsub & Hlen & Hcounts).
  (* counts of the minima *)
  assert (Hsel_count :
            count_pos positions "GK" sel = min 1 (length G) ∧
            count_pos positions "DEF" sel = min 3 (length D) ∧
            count_pos positions "MID" sel = min 2 (length Mi) ∧
            count_pos positions "FWD" sel = min 1 (length F)).
  { unfold sel. rewrite !count_pos_app.
    rewrite (count_pos_take_all _ "GK" 1 G.*1), (count_pos_take_all _ "DEF" 3 D.*1),
      (count_pos_take_all _ "MID" 2 Mi.*1), (count_pos_take_all _ "FWD" 1 F.*1)
      by done.
    rewrite (count_pos_take_other _ "GK" "DEF"), (count_pos_take_other _ "GK" "MID"),
      (count_pos_take_other _ "GK" "FWD"), (count_pos_take_other _ "DEF" "GK"),
      (count_pos_take_other _ "DEF" "MID"), (count_pos_take_other _ "DEF" "FWD"),
      (count_pos_take_other _ "MID" "GK"), (count_pos_take_other _ "MID" "DEF"),
      (count_pos_take_other _ "MID" "FWD"), (count_pos_take_other _ "FWD" "GK"),
      (count_pos_take_other _ "FWD" "DEF"), (count_pos_take_other _ "FWD" "MID") by done.
    rewrite !length_fmap. lia. }
  destruct Hsel_count as (SG & SD & SM & SF).
  assert (HCG : count_pos positions "GK" C'.*1 = 0%nat).
  { rewrite (count_pos_perm _ _ _ _ HC'), HC1, !count_pos_app.
    rewrite (count_pos_other _ "GK" "DEF"), (count_pos_other _ "GK" "MID"),
      (count_pos_other _ "GK" "FWD") by done. done. }
  pose proof (count_pos_sub_other positions "GK" _ _ Hsub HCG) as AG.
  destruct (Hcounts "DEF" (0 + min (length D) 3)%nat 5%nat) as (cD & _ & HcD & HleD);
    [unfold counts3, counts2, counts1;
     by rewrite !lookup_insert_ne, lookup_insert_eq by done
    |done|lia|].
  destruct (Hcounts "MID" (0 + min (length Mi) 2)%nat 5%nat) as (cM & _ & HcM & HleM);
    [unfold counts3, counts2; by rewrite lookup_insert_ne, lookup_insert_eq by done
    |done|lia|].
  destruct (Hcounts "FWD" (0 + min (length F) 1)%nat 3%nat) as (cF & _ & HcF & HleF);
    [unfold counts3; by rewrite lookup_insert_eq|done|lia|].
  assert (Hsel_len : (length sel ≤ 7)%nat).
  { unfold sel. rewrite !length_app, !length_take. lia. }
  assert (Hdisj : ∀ i, i ∈ C'.*1 → i ∉ sel).
  { intros i Hi. rewrite HC' in Hi.
    apply list_elem_of_fmap in Hi as (x & -> & Hx).
    by apply list_elem_of_filter in Hx as [Hx _]. }
  assert (HndC : NoDup C'.*1).
  { rewrite HC'. apply NoDup_fmap_filter. rewrite !fmap_app, app_assoc.
    apply (NoDup_app_by_pos positions "FWD"); [|done| |done].
    - apply (NoDup_app_by_pos positions "MID"); [done|done| |done].
      by apply (Forall_pos_ne _ _ "DEF").
    - apply Forall_app. split.
      + by apply (Forall_pos_ne _ _ "DEF").
      + by apply (Forall_pos_ne _ _ "MID"). }
  assert (Hndsel : NoDup sel).
  { unfold sel.
    apply (NoDup_app_by_pos positions "FWD");
      [|by apply (sublist_NoDup _ F.*1), sublist_take| |done].
    - apply (NoDup_app_by_pos positions "MID");
        [|by apply (sublist_NoDup _ Mi.*1), sublist_take| |done].
      + apply (NoDup_app_by_pos positions "DEF");
          [by apply (sublist_NoDup _ G.*1), sublist_take
          |by apply (sublist_NoDup _ D.*1), sublist_take| |done].
        by apply (Forall_pos_ne _ _ "GK").
      + apply Forall_app. split.
        * by apply (Forall_pos_ne _ _ "GK").
        * by apply (Forall_pos_ne _ _ "DEF").
    - repeat (apply Forall_app; split).
      + by apply (Forall_pos_ne _ _ "GK").
      + by apply (Forall_pos_ne _ _ "DEF").
      + by apply (Forall_pos_ne _ _ "MID"). }
  assert (Hstart_nd : NoDup (sel ++ added)).
  { apply NoDup_app. repeat split; [done| |by apply (sublist_NoDup _ C'.*1)].
    intros i Hi Hi'. apply (Hdisj i); [|done]. by apply (elem_of_sublist _ _ _ Hi' Hsub). }
  assert (Hstart_in : ∀ pid, pid ∈ sel ++ added → pid ∈ ep_by_player.*1).
  { intros pid [Hpid|Hpid]%elem_of_app.
    - unfold sel in Hpid. rewrite !elem_of_app in Hpid.
      destruct Hpid as [[[Hpid|Hpid]|Hpid]|Hpid];
        [apply HGin|apply HDin|apply HMin|apply HFin];
        by apply subseteq_take in Hpid.
    - apply (elem_of_sublist _ _ _ Hpid) in Hsub.
      rewrite HC', HC1, !elem_of_app in Hsub.
      destruct Hsub as [Hp|[Hp|Hp]];
        [apply HDin|apply HMin|apply HFin]; by apply subseteq_drop in Hp. }
  unfold selector_result. cbv zeta.
  split; [done|]. split; [done|].
  split; [apply Hlen; lia|].
  rewrite !count_pos_app, SG, SD, SM, SF, AG, <- HGlen, <- HDlen, <- HMlen, <- HFlen.
  split; [lia|]. split; [lia|]. split; [lia|]. split; [lia|].
  (* the bench *)
  set (rest := filter (λ pid, pid ∉ sel ++ added) ep_by_player.*1).
  set (ob := filter (λ pid, positions !! pid ≠ Some "GK") rest).
  set (gb := filter (λ pid, positions !! pid = Some "GK") rest).
  set (ob' := py_sort (λ pid, default 0%Q (dict_get pid ep_by_player)) false ob).
  assert (Hrest_nd : NoDup rest) by by apply NoDup_filter.
  assert (Hob' : ob' ≡ₚ ob) by apply py_sort_perm.
  exists (take 3 ob'), (take 1 gb).
  split; [done|].
  assert (Hob_in : ∀ pid, pid ∈ take 3 ob' →
            pid ∈ rest ∧ positions !! pid ≠ Some "GK").
  { intros pid Hpid%subseteq_take. rewrite Hob' in Hpid.
    apply list_elem_of_filter in Hpid. tauto. }
  assert (Hgb_in : ∀ pid, pid ∈ take 1 gb →
            pid ∈ rest ∧ positions !! pid = Some "GK").
  { intros pid Hpid%subseteq_take.
    apply list_elem_of_filter in Hpid. tauto. }
  split.
  { apply NoDup_app. split; [|split].
    - apply (sublist_NoDup _ ob'); [|apply sublist_take].
      rewrite Hob'. by apply NoDup_filter.
    - intros pid [_ H1]%Hob_in [_ H2]%Hgb_in. done.
    - apply (sublist_NoDup _ gb); [|apply sublist_take]. by apply NoDup_filter. }
  split.
  { intros pid [[Hpid _]%Hob_in|[Hpid _]%Hgb_in]%elem_of_app;
      apply list_elem_of_filter in Hpid; tauto. }
  split; [rewrite length_take; lia|]. split; [rewrite length_take; lia|].
  split; [rewrite Forall_forall; intros pid Hpid; by apply Hob_in|].
  split; [rewrite Forall_forall; intros pid Hpid; by apply Hgb_in|].
  pose proof (py_sort_asc_sorted (λ pid, default 0%Q (dict_get pid ep_by_player)) ob)
    as Hsorted.
  fold ob' in Hsorted. clear -Hsorted.
  revert Hsorted. generalize 3%nat. induction ob' as [|x l IH]; intros n Hs.
  - rewrite take_nil. constructor.
  - destruct n as [|n]; [constructor|]. cbn [take].
    apply StronglySorted_inv in Hs as [Hs Hx]. constructor; [by apply IH|].
    by apply Forall_take.
Qed.

(** X5: on any squad whose ids are distinct and all have a position (not
    only on a valid 15-player squad) [choose_starting_xi] returns.  The XI
    holds distinct ids of the squad, at most 11; one goalkeeper if the squad
    has one and none otherwise; at least 3 defenders, 2 midfielders and 1
    forward, or all the squad has of them if it has fewer, and at most 5, 5
    and 3.  The bench holds at most three outfield players outside the XI in
    ascending EPΔ order, followed by at most one goalkeeper. *)
Theorem X5_choose_starting_xi_on_any_squad (ep_by_player : list (Z * Q))
    (positions : gmap Z string) :
  NoDup ep_by_player.*1 →
  (∀ pid, pid ∈ ep_by_player.*1 → is_Some (positions !! pid)) →
  ∃ start bench,
    choose_starting_xi ep_by_player positions = Some (start, bench) ∧
    selector_result ep_by_player positions start bench.
Proof. apply choose_starting_xi_spec. Qed.

Lemma X5_witness :
  ∃ start bench,
    choose_starting_xi (take 9 mock_ep) mock_positions = Some (start, bench) ∧
    length start = 9%nat ∧ bench = [].
Proof.
  destruct (X5_choose_starting_xi_on_any_squad (take 9 mock_ep) mock_positions)
    as (start & bench & Hxi & _).
  { apply (bool_decide_unpack _). vm_compute. exact I. }
  { apply Forall_forall. repeat constructor; vm_compute; eexists; reflexivity. }
  exists start, bench. split; [exact Hxi|].
  vm_compute in Hxi. injection Hxi as <- <-. done.
Defined.

(** ** The current lineup of a plan *)

Lemma demote_loop (cs cb gs : list Z) :
  NoDup cs →
  foldl (λ '(cs, cb) g, (list_remove g cs, cb ++ [g])) (cs, cb) gs
  = (filter (λ x, x ∉ gs) cs, cb ++ gs).
Proof.
  revert cs cb. induction gs as [|g gs IH]; intros cs cb Hnd.
  - simpl. rewrite app_nil_r. f_equal. symmetry. apply filter_all, Forall_forall.
    intros x _. apply not_elem_of_nil.
  - cbn [foldl]. rewrite IH.
    + rewrite list_remove_filter by done. rewrite list_filter_filter.
      rewrite <- app_assoc. f_equal. apply list_filter_iff.
      intros x. rewrite not_elem_of_cons. tauto.
    + rewrite list_remove_filter by done. by apply NoDup_filter.
Qed.

Lemma list_remove_perm (x : Z) (l : list Z) :
  x ∈ l → l ≡ₚ x :: list_remove x l.
Proof.
  induction l as [|y l IH]; [by intros ?%elem_of_nil|].
  intros Hx. cbn [list_remove]. case_decide as Hxy; [by subst|].
  apply elem_of_cons in Hx as [->|Hx]; [done|].
  rewrite (IH Hx) at 1. apply Permutation_swap.
Qed.

Lemma promote_first_cases (outfield_bench cs cb : list Z) :
  promote_first outfield_bench cs cb = (cs, cb) ∨
  ∃ pid, pid ∈ outfield_bench ∧ (pid ∉ cs) ∧ (length cs < 11)%nat ∧
         promote_first outfield_bench cs cb = (cs ++ [pid], list_remove pid cb).
Proof.
  induction outfield_bench as [|pid rest IH]; [by left|].
  cbn [promote_first].
  destruct (bool_decide (pid ∉ cs)) eqn:Hpid; cbn [andb].
  - destruct (length cs <? 11)%nat eqn:Hlen.
    + right. exists pid. apply bool_decide_eq_true in Hpid.
      apply Nat.ltb_lt in Hlen. split; [list_mem|done].
    + destruct IH as [IH|(q & Hq & IH)]; [by left|right].
      exists q. split; [by apply list_elem_of_further|done].
  - destruct IH as [IH|(q & Hq & IH)]; [by left|right].
    exists q. split; [by apply list_elem_of_further|done].
Qed.

Lemma repair_current_facts (positions : gmap Z string) (ep_by_player : list (Z * Q))
    (starters benchers : list Z) :
  NoDup (starters ++ benchers) →
  let cur := repair_current positions ep_by_player starters benchers in
  cur.1 ++ cur.2 ≡ₚ starters ++ benchers ∧
  count_pos positions "GK" cur.1 = min 1 (count_pos positions "GK" starters) ∧
  ((count_pos positions "GK" starters ≤ 1)%nat → cur = (starters, benchers)).
Proof.
  intros Hnd. cbv zeta.
  apply NoDup_app in Hnd as (Hnds & Hdisj & Hndb).
  unfold repair_current, count_pos.
  set (gks := filter (λ pid, positions !! pid = Some "GK") starters).
  destruct (1 <? length gks)%nat eqn:Hmany.
  2:{ apply Nat.ltb_ge in Hmany. cbn [fst snd]. fold gks.
      split; [done|]. split; [lia|done]. }
  apply Nat.ltb_lt in Hmany.
  split; [|split; [|lia]].
  - (* the squad is kept *)
    pose proof (py_sort_perm (ep_of ep_by_player) true gks) as Hperm.
    set (sorted := py_sort (ep_of ep_by_player) true gks) in *.
    rewrite demote_loop by done.
    set (gs := drop 1 sorted).
    assert (Hgs_nd : NoDup gs).
    { apply (sublist_NoDup _ sorted); [|apply sublist_drop].
      rewrite Hperm. by apply NoDup_filter. }
    assert (Hgs_in : ∀ x, x ∈ gs → x ∈ starters ∧ positions !! x = Some "GK").
    { intros x Hx%subseteq_drop. rewrite Hperm in Hx.
      apply list_elem_of_filter in Hx. tauto. }
    assert (Hsplit : starters ++ benchers ≡ₚ filter (λ x, x ∉ gs) starters ++ benchers ++ gs).
    { rewrite <- (filter_app_complement (λ x, x ∈ gs) starters) at 1.
      assert (Hin : filter (λ x, x ∈ gs) starters ≡ₚ gs).
      { apply NoDup_Permutation; [by apply NoDup_filter|done|].
        intros x. rewrite list_elem_of_filter. split; [tauto|].
        intros Hx. split; [done|]. by apply Hgs_in. }
      rewrite Hin. rewrite (Permutation_app_comm gs). rewrite <- !app_assoc.
      apply Permutation_app_head. apply Permutation_app_comm. }
    set (cs1 := filter (λ x, x ∉ gs) starters) in *.
    set (cb1 := benchers ++ gs) in *.
    destruct (promote_first_cases
                (py_sort (ep_of ep_by_player) true
                   (filter (λ pid, positions !! pid ≠ Some "GK") cb1)) cs1 cb1)
      as [->|(pid & Hpid & _ & _ & ->)]; cbn [fst snd]; [done|].
    rewrite py_sort_elem_of in Hpid. apply list_elem_of_filter in Hpid as [_ Hpid].
    rewrite Hsplit. fold cb1. rewrite <- app_assoc. apply Permutation_app_head.
    cbn [app]. symmetry. by apply list_remove_perm.
  - (* one goalkeeper *)
    fold gks.
    pose proof (py_sort_perm (ep_of ep_by_player) true gks) as Hperm.
    set (sorted := py_sort (ep_of ep_by_player) true gks) in *.
    rewrite demote_loop by done.
    set (gs := drop 1 sorted).
    assert (Hone : length (filter (λ pid, positions !! pid = Some "GK")
                             (filter (λ x, x ∉ gs) starters)) = 1%nat).
    { rewrite filter_comm. fold gks. rewrite <- Hperm.
      assert (Hsnd : NoDup sorted) by (rewrite Hperm; by apply NoDup_filter).
      assert (Hlen : (1 < length sorted)%nat) by by rewrite Hperm.
      unfold gs. destruct sorted as [|keep rest]; [simpl in Hlen; lia|].
      cbn [drop]. apply NoDup_cons in Hsnd as [Hkeep _].
      rewrite filter_cons_True by done.
      rewrite filter_none; [done|]. apply Forall_forall. intros x Hx Hn. by apply Hn. }
    set (cs1 := filter (λ x, x ∉ gs) starters) in *.
    set (cb1 := benchers ++ gs) in *.
    destruct (promote_first_cases
                (py_sort (ep_of ep_by_player) true
                   (filter (λ pid, positions !! pid ≠ Some "GK") cb1)) cs1 cb1)
      as [->|(pid & Hpid & _ & _ & ->)]; cbn [fst snd];
      [transitivity 1%nat; [exact Hone|lia]|].
    rewrite py_sort_elem_of in Hpid. apply list_elem_of_filter in Hpid as [Hpid _].
    rewrite filter_app, length_app.
    rewrite filter_cons_False by done. rewrite filter_nil. cbn [length].
    transitivity (1 + 0)%nat; [f_equal; exact Hone|lia].
Qed.

Lemma picks_split (picks : list pick) :
  (pick_element <$> filter (λ p, 0 < multiplier p) picks) ++
  (pick_element <$> filter (λ p, multiplier p ≤ 0) picks)
  ≡ₚ pick_element <$> picks.
Proof.
  rewrite <- fmap_app.
  rewrite (list_filter_iff (λ p, multiplier p ≤ 0) (λ p, ¬ 0 < multiplier p))
    by (intros p; lia).
  by rewrite filter_app_complement.
Qed.

(** X10: for picks of distinct players, the current XI and the current
    bench of a returned plan together are a rearrangement of the picked
    ids, the current XI holds one goalkeeper if a goalkeeper is marked as a
    starter and none otherwise, and when at most one goalkeeper starts the
    current XI and bench are the starters and the substitutes as picked, in
    their order. *)
Theorem X10_current_lineup (M : libm) picks elements teams fixtures_gw gw
    ownership_idx mode (p : plan) (elem_by_id : gmap Z element) :
  plan_gameweek M picks elements teams fixtures_gw gw ownership_idx mode = Some p →
  index_by id elements = Some elem_by_id →
  NoDup (pick_element <$> picks) →
  let positions := positions_of picks elem_by_id in
  let starters := pick_element <$> filter (λ p, 0 < multiplier p) picks in
  let benchers := pick_element <$> filter (λ p, multiplier p ≤ 0) picks in
  current_start p ++ current_bench p ≡ₚ pick_element <$> picks ∧
  count_pos positions "GK" (current_start p)
    = min 1 (count_pos positions "GK" starters) ∧
  ((count_pos positions "GK" starters ≤ 1)%nat →
   current_start p = starters ∧ current_bench p = benchers).
Proof.
  intros Hplan He Hnd positions starters benchers.
  destruct (plan_gameweek_inv _ _ _ _ _ _ _ _ _ Hplan)
    as (elem_by_id' & team_idx & curr_cap & curr_vc & He' & _ & Hinv).
  rewrite He in He'. injection He' as <-. cbv zeta in Hinv.
  destruct Hinv as (Hep & Hcs & Hcb & _).
  fold positions starters benchers in Hcs, Hcb.
  destruct (repair_current_facts positions
              (ep_by_player_of M picks elem_by_id team_idx
                 (fixtures_by_team_of fixtures_gw team_idx)) starters benchers
              (starters_benchers_NoDup picks Hnd)) as (Hperm & Hgk & Hsame).
  rewrite <- Hcs, <- Hcb in Hperm. rewrite <- Hcs in Hgk.
  split; [by rewrite Hperm, <- picks_split|]. split; [done|].
  intros Hle. rewrite Hcs, Hcb, (Hsame Hle). done.
Qed.

Lemma X10_witness :
  ∃ p,
    plan_gameweek unit_exp two_gk_picks mock_elements mock_teams mock_fixtures 5
      mock_ownership "safe" = Some p ∧
    current_start p ++ current_bench p ≡ₚ pick_element <$> two_gk_picks ∧
    count_pos (positions_of two_gk_picks mock_elem_by_id) "GK" (current_start p)
    = 1%nat.
Proof.
  assert (He : index_by id mock_elements = Some mock_elem_by_id)
    by (vm_compute; reflexivity).
  assert (Hnd : NoDup (pick_element <$> two_gk_picks))
    by (apply (bool_decide_unpack _); vm_compute; exact I).
  destruct (plan_gameweek unit_exp two_gk_picks mock_elements mock_teams mock_fixtures 5
              mock_ownership "safe") as [p|] eqn:Hplan; [|by vm_compute in Hplan].
  exists p. split; [reflexivity|].
  destruct (X10_current_lineup _ _ _ _ _ _ _ _ _ _ Hplan He Hnd) as (Hperm & Hgk & _).
  split; [exact Hperm|]. rewrite Hgk. vm_compute. reflexivity.
Defined.

(** ** The guardrail on the planner's own plans *)

Lemma sorted_ids_sorted (l : list Z) : StronglySorted Z.le (sorted_ids l).
Proof.
  unfold sorted_ids. apply py_sort_by_sorted; unfold goes_before.
  - intros a b c. lia.
  - intros y x Hlt%Z.ltb_lt. lia.
  - intros y x Hge%Z.ltb_ge. lia.
Qed.

Lemma sorted_ids_perm (l1 l2 : list Z) :
  l1 ≡ₚ l2 → sorted_ids l1 = sorted_ids l2.
Proof.
  intros Hperm. apply (StronglySorted_unique Z.le); [apply sorted_ids_sorted..|].
  unfold sorted_ids. by rewrite !py_sort_by_perm.
Qed.

Lemma sorted_ids_eq_set (s : gset Z) (l : list Z) :
  NoDup l →
  sorted_ids (base.elements s) = sorted_ids l ↔ s = list_to_set l.
Proof.
  intros Hnd. split.
  - intros Heq. rewrite <- (list_to_set_elements_L s).
    rewrite <- (py_sort_by_perm Z.ltb (λ x, x) false (base.elements s)).
    fold (sorted_ids (base.elements s)). rewrite Heq.
    unfold sorted_ids. by rewrite py_sort_by_perm.
  - intros ->. apply sorted_ids_perm. by apply elements_list_to_set.
Qed.

Lemma derive_positions_lookup (elem_by_id : gmap Z element) (pids : list Z) (pid : Z) :
  pid ∈ pids →
  derive_positions elem_by_id pids !! pid =
    Some (position_code
            (int_or 0 (element_type (default no_element (elem_by_id !! pid))))).
Proof.
  unfold derive_positions.
  assert (Hgen : ∀ acc : gmap Z string,
    foldl (λ positions pid,
             let e := default no_element (elem_by_id !! pid) in
             <[ pid := position_code (int_or 0 (element_type e)) ]> positions)
          acc pids !! pid =
    if decide (pid ∈ pids)
    then Some (position_code
                 (int_or 0 (element_type (default no_element (elem_by_id !! pid)))))
    else acc !! pid).
  { induction pids as [|q pids IH]; intros acc.
    - rewrite decide_False; [done|]. by intros ?%elem_of_nil.
    - cbn [foldl]. rewrite IH.
      destruct (decide (pid ∈ pids)) as [Hin|Hout].
      + rewrite decide_True; [done|]. apply elem_of_cons. by right.
      + destruct (decide (pid = q)) as [->|Hne].
        * rewrite decide_True by (apply elem_of_cons; by left).
          by rewrite lookup_insert_eq.
        * rewrite decide_False by (intros [?|?]%elem_of_cons; done).
          by rewrite lookup_insert_ne. }
  intros Hin. by rewrite Hgen, decide_True.
Qed.

Lemma formation_str_ext (ids : list Z) (positions positions' : gmap Z string) :
  (∀ i, i ∈ ids → positions !! i = positions' !! i) →
  formation_str ids positions = formation_str ids positions'.
Proof.
  intros Hext. unfold formation_str, count_pos.
  assert (Hf : ∀ pos, filter (λ i, positions !! i = Some pos) ids
                      = filter (λ i, positions' !! i = Some pos) ids).
  { intros pos. apply filter_ext_in. intros i Hi. by rewrite (Hext i Hi). }
  by rewrite !Hf.
Qed.

Lemma pair_lineup_length (l : list Z) (chosen : list (Z * Z * Q)) :
  NoDup l → NoDup chosen.*1.*1 → NoDup chosen.*1.*2 →
  (∀ t, t ∈ chosen → (t.1.1 ∉ l) ∧ t.1.2 ∈ l) →
  length (foldl pair_lineup l chosen) = length l.
Proof.
  revert l. induction chosen as [|[[i o] d] chosen IH]; intros l Hnd Hi Ho Hmem; [done|].
  cbn [foldl]. rewrite !fmap_cons in Hi, Ho. cbn [fst snd] in Hi, Ho.
  apply NoDup_cons in Hi as [Hi Hins]. apply NoDup_cons in Ho as [Ho Houts].
  destruct (Hmem (i, o, d)) as [Hil Hol]; [list_mem|]. cbn [fst snd] in Hil, Hol.
  assert (Hlen : length (pair_lineup l (i, o, d)) = length l).
  { unfold pair_lineup. cbn [fst snd]. rewrite length_app.
    rewrite <- list_remove_filter by done. rewrite list_remove_length by done.
    simpl. destruct l; [by apply elem_of_nil in Hol|simpl; lia]. }
  rewrite IH; [done| |done|done|].
  - unfold pair_lineup. cbn [fst snd]. apply NoDup_app.
    split; [by apply NoDup_filter|]. split; [|apply NoDup_singleton].
    intros x [_ Hx]%list_elem_of_filter ->%list_elem_of_singleton. done.
  - intros [[i' o'] d'] Ht. cbn [fst snd].
    destruct (Hmem (i', o', d')) as [Hi'l Ho'l]; [by apply list_elem_of_further|].
    cbn [fst snd] in Hi'l, Ho'l.
    assert (i' ≠ i).
    { intros ->. apply Hi. apply list_elem_of_fmap. exists (i, o').
      split; [done|]. apply list_elem_of_fmap. by exists (i, o', d'). }
    assert (o' ≠ o).
    { intros ->. apply Ho. apply list_elem_of_fmap. exists (i', o).
      split; [done|]. apply list_elem_of_fmap. by exists (i', o, d'). }
    unfold pair_lineup. cbn [fst snd].
    rewrite not_elem_of_app, elem_of_app, !list_elem_of_filter, list_elem_of_singleton.
    tauto.
Qed.

Lemma size_swap (start : gset Z) (i o : Z) :
  i ∉ start → o ∈ start → size ({[ i ]} ∪ start ∖ {[ o ]}) = size start.
Proof.
  intros Hi Ho.
  rewrite size_union.
  2:{ intros x Hx1%elem_of_singleton [Hx2 _]%elem_of_difference. by subst. }
  rewrite size_singleton, size_difference.
  2:{ intros x Hx%elem_of_singleton. by subst. }
  rewrite size_singleton.
  assert (size start ≠ 0%nat).
  { intros Hz%size_empty_inv. rewrite (Hz o) in Ho. by apply not_elem_of_empty in Ho. }
  lia.
Qed.

Lemma replay_swaps_ok (swaps : list action) (start bench : gset Z) :
  NoDup (swap_in <$> swaps) → NoDup (swap_out <$> swaps) →
  (∀ a, a ∈ swaps → swap_in a ∈ bench ∧ (swap_in a ∉ start) ∧ swap_out a ∈ start) →
  (swaps ≠ [] → size start = 11%nat) →
  replay_swaps swaps start bench = inr (foldl apply_swap start swaps).
Proof.
  revert start bench.
  induction swaps as [|sw swaps IH]; intros start bench Hi Ho Hmem Hsize; [done|].
  cbn [replay_swaps foldl]. rewrite !fmap_cons in Hi, Ho.
  apply NoDup_cons in Hi as [Hi Hins]. apply NoDup_cons in Ho as [Ho Houts].
  destruct (Hmem sw) as (Hb & Hns & Hs); [apply list_elem_of_here|].
  rewrite bool_decide_eq_false_2 by (intros Hn; by apply Hn).
  rewrite bool_decide_eq_false_2 by (intros Hn; by apply Hn).
  cbn [orb].
  assert (Hsz : size ({[swap_in sw]} ∪ start ∖ {[swap_out sw]}) = 11%nat).
  { rewrite size_swap by done. apply Hsize. discriminate. }
  rewrite Hsz. cbn [Nat.eqb negb]. unfold apply_swap at 2.
  apply IH; [done|done| |by intros _].
  intros a Ha. destruct (Hmem a) as (Hb' & Hns' & Hs'); [by apply list_elem_of_further|].
  assert (Hne1 : swap_in a ≠ swap_in sw).
  { intros Heq. apply Hi. rewrite <- Heq. apply list_elem_of_fmap. by exists a. }
  assert (Hne2 : swap_out a ≠ swap_out sw).
  { intros Heq. apply Ho. rewrite <- Heq. apply list_elem_of_fmap. by exists a. }
  split; [|split].
  - apply elem_of_union. right. apply elem_of_difference. split; [done|].
    by intros ?%elem_of_singleton.
  - intros [?%elem_of_singleton|[? _]%elem_of_difference]%elem_of_union; done.
  - apply elem_of_union. right. apply elem_of_difference. split; [done|].
    by intros ?%elem_of_singleton.
Qed.

(** The optimal XI and bench of a returned plan. *)
Lemma plan_optimal_facts (M : libm) picks elements teams fixtures_gw gw
    ownership_idx mode (p : plan) (elem_by_id : gmap Z element) :
  plan_gameweek M picks elements teams fixtures_gw gw ownership_idx mode = Some p →
  index_by id elements = Some elem_by_id →
  selector_result (per_player_ep p) (positions_of picks elem_by_id)
    (optimal_start p) (optimal_bench p).
Proof.
  intros Hplan He.
  destruct (plan_gameweek_inv _ _ _ _ _ _ _ _ _ Hplan)
    as (elem_by_id' & team_idx & curr_cap & curr_vc & He' & _ & Hinv).
  rewrite He in He'. injection He' as <-. cbv zeta in Hinv.
  destruct Hinv as (Hep & _ & _ & Hxi & _).
  destruct (ep_by_player_of_facts M picks elem_by_id team_idx
              (fixtures_by_team_of fixtures_gw team_idx)) as [Hnd _].
  destruct (choose_starting_xi_spec _ (positions_of picks elem_by_id) Hnd)
    as (start & bench & Hxi' & Hres).
  { intros pid Hpid%ep_by_player_of_keys. by rewrite positions_of_lookup. }
  rewrite Hxi in Hxi'. injection Hxi' as <- <-. by rewrite Hep.
Qed.

(** The validation block on a plan of the planner itself, for picks of
    distinct players: it can only fail at the comparison with the optimal
    XI. *)
Lemma planner_validation_of_plan (M : libm) picks elements teams fixtures_gw gw
    ownership_idx mode (p : plan) :
  plan_gameweek M picks elements teams fixtures_gw gw ownership_idx mode = Some p →
  NoDup (pick_element <$> picks) →
  (replayed_start p = list_to_set (optimal_start p) ∧
   planner_validation elements p = Valid) ∨
  (replayed_start p ≠ list_to_set (optimal_start p) ∧
   planner_validation elements p = Invalid "Swaps do not yield optimal_start").
Proof.
  intros Hplan Hnd.
  destruct (plan_gameweek_inv _ _ _ _ _ _ _ _ _ Hplan)
    as (elem_by_id & team_idx & curr_cap & curr_vc & He & _ & Hinv).
  cbv zeta in Hinv. destruct Hinv as (Hep & Hcs & Hcb & _ & _ & Hform & _).
  destruct (plan_pairs_facts _ _ _ _ _ _ _ _ _ _ Hplan He)
    as (chosen & Hswaps & Hndi & Hndo & Hmem & Hlegal).
  destruct (plan_swaps _ _ _ _ _ _ _ _ _ Hplan) as (swaps & Hfilter & Hsorted & Hprio).
  fold (swaps_of p) in Hfilter. rewrite Hswaps in Hfilter. subst swaps.
  pose proof (plan_optimal_facts _ _ _ _ _ _ _ _ _ _ Hplan He) as Hopt.
  destruct Hopt as (Hos_nd & Hos_in & _).
  destruct (repair_current_facts (positions_of picks elem_by_id)
              (ep_by_player_of M picks elem_by_id team_idx
                 (fixtures_by_team_of fixtures_gw team_idx))
              (pick_element <$> filter (λ p, 0 < multiplier p) picks)
              (pick_element <$> filter (λ p, multiplier p ≤ 0) picks)
              (starters_benchers_NoDup picks Hnd)) as (Hperm & _ & _).
  rewrite <- Hcs, <- Hcb, picks_split in Hperm.
  assert (Hcur_nd : NoDup (current_start p ++ current_bench p)) by by rewrite Hperm.
  apply NoDup_app in Hcur_nd as (Hcs_nd & _ & _).
  destruct (swap_actions_ins_outs gw (per_player_ep p) chosen)
    as (Hins & Houts & _ & _ & _).
  assert (Hreplay :
    replay_swaps (swap_actions gw (per_player_ep p) chosen)
      (list_to_set (current_start p)) (list_to_set (current_bench p))
    = inr (replayed_start p)).
  { unfold replayed_start. rewrite Hprio.
    apply replay_swaps_ok.
    - by rewrite Hins.
    - by rewrite Houts.
    - intros a (t & Ht & -> & ->)%swap_actions_elem.
      destruct (Hmem t Ht) as (H1 & H2 & H3 & _ & _).
      rewrite !elem_of_list_to_set. split; [|done].
      assert (Hpick : t.1.1 ∈ current_start p ++ current_bench p).
      { rewrite Hperm. apply (ep_by_player_of_keys M picks elem_by_id team_idx
                                (fixtures_by_team_of fixtures_gw team_idx)).
        rewrite <- Hep. by apply Hos_in. }
      apply elem_of_app in Hpick as [?|?]; done.
    - intros Hne.
      assert (Hch : chosen ≠ []) by (intros ->; by apply Hne).
      apply Hlegal, is_legal_start_length in Hch.
      rewrite pair_lineup_length in Hch; [|done..|].
      + rewrite size_list_to_set by done. done.
      + intros t Ht. destruct (Hmem t Ht) as (_ & H2 & H3 & _). done. }
  unfold planner_validation. rewrite He.
  fold (swaps_of p). rewrite Hswaps, Hsorted, Hreplay.
  assert (Hformation :
    formation_str (optimal_start p)
      (derive_positions elem_by_id (current_start p ++ optimal_start p))
    = formation_optimal p).
  { rewrite Hform. apply formation_str_ext. intros i Hi.
    rewrite derive_positions_lookup by (apply elem_of_app; by right).
    rewrite positions_of_lookup; [done|].
    apply (ep_by_player_of_keys M picks elem_by_id team_idx
             (fixtures_by_team_of fixtures_gw team_idx)).
    rewrite <- Hep. by apply Hos_in. }
  destruct (decide (replayed_start p = list_to_set (optimal_start p))) as [Heq|Hne].
  - left. split; [done|].
    rewrite bool_decide_eq_false_2.
    2:{ intros Hn. apply Hn. by apply sorted_ids_eq_set. }
    by rewrite bool_decide_eq_false_2 by (intros Hn; by apply Hn).
  - right. split; [done|].
    rewrite bool_decide_eq_true_2; [done|].
    intros Heq. apply Hne. by apply sorted_ids_eq_set in Heq.
Qed.

(** X9: for picks of distinct players, the guardrail of the planner
    endpoint has two outcomes only.  Whenever the handler gets as far as the
    guardrail, it answers with the plan if replaying the swaps on the current
    XI gives the set of the optimal XI, and otherwise with status 500 and
    the detail [Planner validation failed: Swaps do not yield optimal_start].
    The three other checks of the block (swap order, eleven starters after
    each swap, formation string) never fail on a plan of [plan_gameweek]. *)
Theorem X9_guardrail_outcomes (M : libm) picks elements teams fixtures_all gw mode
    (r : response) :
  NoDup (pick_element <$> picks) →
  get_gameweek_planner M picks elements teams fixtures_all gw mode = Some r →
  ∃ ownership p,
    ownership_index elements = Some ownership ∧
    plan_gameweek M picks elements (team_view <$> teams)
      (fixture_view <$> filter (λ f, fx_event f = Some gw) fixtures_all)
      gw ownership mode = Some p ∧
    ((replayed_start p = list_to_set (optimal_start p) ∧ r = Response p) ∨
     (replayed_start p ≠ list_to_set (optimal_start p) ∧
      r = HTTP500 "Planner validation failed: Swaps do not yield optimal_start")).
Proof.
  intros Hnd Hr. unfold get_gameweek_planner in Hr.
  destruct (ownership_index elements) as [ownership|]; [|done].
  cbn [mbind option_bind] in Hr.
  destruct (link_fixtures_for_manager _ _ _ _ _) as [linked|]; [|done].
  cbn [mbind option_bind] in Hr.
  destruct (plan_gameweek _ _ _ _ _ _ _ _) as [p|] eqn:Hplan; [|done].
  cbn [mbind option_bind] in Hr.
  exists ownership, p. split; [done|]. split; [done|].
  destruct (planner_validation_of_plan _ _ _ _ _ _ _ _ _ Hplan Hnd)
    as [[Heq Hval]|[Hne Hval]]; rewrite Hval in Hr; injection Hr as <-.
  - by left.
  - by right.
Qed.

Lemma X9_witness :
  ∃ p,
    get_gameweek_planner unit_exp mock_picks mock_elements mock_raw_teams
      (take 3 mock_raw_fixtures) 5 "safe" = Some (Response p) ∧
    replayed_start p = list_to_set (optimal_start p).
Proof.
  assert (Hnd : NoDup (pick_element <$> mock_picks))
    by (apply (bool_decide_unpack _); vm_compute; exact I).
  destruct (get_gameweek_planner unit_exp mock_picks mock_elements mock_raw_teams
              (take 3 mock_raw_fixtures) 5 "safe") as [r|] eqn:Hr;
    [|by vm_compute in Hr].
  destruct (X9_guardrail_outcomes _ _ _ _ _ _ _ _ Hnd Hr)
    as (ownership & p & _ & _ & [[Heq ->]|[_ ->]]).
  - exists p. split; [reflexivity|exact Heq].
  - exfalso. vm_compute in Hr. discriminate.
Defined.



(** ** Linking the picks, captaincy and template counts *)

Lemma fixtures_by_event_lookup (fixtures : list raw_fixture) (gw : Z) :
  default [] (fixtures_by_event_of fixtures !! gw)
  = filter (λ f, fx_event f = Some gw) fixtures.
Proof.
  unfold fixtures_by_event_of.
  assert (Hgen : ∀ acc : gmap Z (list raw_fixture),
    default [] (foldl (λ by_event f,
                         match fx_event f with
                         | None => by_event
                         | Some ev => setdefault_append ev f by_event
                         end) acc fixtures !! gw)
    = default [] (acc !! gw) ++ filter (λ f, fx_event f = Some gw) fixtures).
  { induction fixtures as [|f fixtures IH]; intros acc.
    - by rewrite filter_nil, app_nil_r.
    - cbn [foldl]. rewrite IH, filter_cons.
      destruct (fx_event f) as [ev|] eqn:Hev.
      + unfold setdefault_append. destruct (decide (ev = gw)) as [->|Hne].
        * rewrite lookup_insert_eq, decide_True by done.
          cbn [default from_option Datatypes.id]. by rewrite <- app_assoc.
        * rewrite lookup_insert_ne by done.
          rewrite decide_False; [done|]. congruence.
      + by rewrite decide_False. }
  rewrite Hgen. by rewrite lookup_empty.
Qed.


Lemma foldlM_snoc_fmap {A B} (g : A → option B) (f : B → A) (l : list A)
    (acc out : list B) :
  foldlM (λ out x, b ← g x; Some (out ++ [b])) acc l = Some out →
  (∀ x b, g x = Some b → f b = x) →
  ∃ more, out = acc ++ more ∧ f <$> more = l ∧ Forall2 (λ x b, g x = Some b) l more.
Proof.
  intros Hfold Hf. revert acc Hfold.
  induction l as [|x l IH]; intros acc Hfold.
  - injection Hfold as <-. exists []. by rewrite app_nil_r.
  - cbn [foldlM] in Hfold. destruct (g x) as [b|] eqn:Hg; [|done].
    cbn [mbind option_bind] in Hfold.
    destruct (IH _ Hfold) as (more & -> & Hmore & Hall).
    exists (b :: more). rewrite <- app_assoc. split; [done|].
    split; [|by constructor]. cbn [fmap list_fmap]. rewrite (Hf x b Hg).
    by rewrite <- Hmore.
Qed.

Lemma foldlM_ext {A B} (f g : B → A → option B) (b : B) (l : list A) :
  (∀ b x, f b x = g b x) → foldlM f b l = foldlM g b l.
Proof.
  intros Hfg. revert b. induction l as [|x l IH]; intros b; [done|].
  cbn [foldlM]. rewrite Hfg. destruct (g b x); [apply IH|done].
Qed.

Lemma link_fixtures_rows (gw : Z) (picks : list pick) (fixtures : list raw_fixture)
    (elements : list element) (teams : list raw_team) :
  link_fixtures_for_manager gw picks fixtures elements teams =
  elem_by_id ← index_by id elements;
  team_strength ← team_strength_of teams;
  foldlM (λ out pick,
            row ← link_row elem_by_id team_strength
                     (filter (λ f, fx_event f = Some gw) fixtures) pick;
            Some (out ++ [row])) [] picks.
Proof.
  unfold link_fixtures_for_manager.
  destruct (index_by id elements) as [elem_by_id|]; [|done].
  cbn [mbind option_bind].
  destruct (team_strength_of teams) as [team_strength|]; [|done].
  cbn [mbind option_bind]. cbv zeta. rewrite fixtures_by_event_lookup.
  apply foldlM_ext. intros out pick. unfold link_row.
  destruct (elem_by_id !! pick_element pick) as [player|]; [|done].
  by destruct (find_fixture _ _) as [[[home opp]|]|].
Qed.

Lemma find_fixture_spec (team_id : Z) (fs : list raw_fixture)
    (found : option (bool * Z)) :
  find_fixture team_id fs = Some found →
  match found with
  | None => plays_in_none team_id fs
  | Some (home, opp) =>
      ∃ before f after th ta,
        fs = before ++ f :: after ∧ plays_in_none team_id before ∧
        get_int (-1) (fx_team_h f) = Some th ∧
        get_int (-1) (fx_team_a f) = Some ta ∧
        if home then team_id = th ∧ opp = ta
        else team_id ≠ th ∧ team_id = ta ∧ opp = th
  end.
Proof.
  revert found. induction fs as [|f fs IH]; intros found Hfind.
  - injection Hfind as <-. constructor.
  - cbn [find_fixture] in Hfind.
    destruct (get_int (-1) (fx_team_h f)) as [th|] eqn:Hth; [|done].
    destruct (get_int (-1) (fx_team_a f)) as [ta|] eqn:Hta; [|done].
    cbn [mbind option_bind] in Hfind.
    destruct (decide (team_id = th)) as [Heq|Hne].
    { injection Hfind as <-. exists [], f, fs, th, ta.
      split; [done|]. split; [constructor|]. done. }
    destruct (decide (team_id = ta)) as [Heq'|Hne'].
    { injection Hfind as <-. exists [], f, fs, th, ta.
      split; [done|]. split; [constructor|]. done. }
    specialize (IH _ Hfind).
    assert (Hf : ∃ th ta, get_int (-1) (fx_team_h f) = Some th ∧
                          get_int (-1) (fx_team_a f) = Some ta ∧
                          team_id ≠ th ∧ team_id ≠ ta) by by exists th, ta.
    destruct found as [[home opp]|].
    + destruct IH as (before & f' & after & th' & ta' & -> & Hbefore & Hrest).
      exists (f :: before), f', after, th', ta'.
      split; [done|]. split; [by constructor|done].
    + by constructor.
Qed.



Lemma link_row_of (gw : Z) (picks : list pick) (fixtures : list raw_fixture)
    (elements : list element) (teams : list raw_team) (linked : list linked_row)
    (row : linked_row) :
  link_fixtures_for_manager gw picks fixtures elements teams = Some linked →
  row ∈ linked →
  ∃ elem_by_id team_strength,
    index_by id elements = Some elem_by_id ∧
    team_strength_of teams = Some team_strength ∧
    lr_pick row ∈ picks ∧
    link_row elem_by_id team_strength
      (filter (λ f, fx_event f = Some gw) fixtures) (lr_pick row) = Some row.
Proof.
  intros Hlink Hrow. rewrite link_fixtures_rows in Hlink.
  destruct (index_by id elements) as [elem_by_id|] eqn:He; [|done].
  cbn [mbind option_bind] in Hlink.
  destruct (team_strength_of teams) as [team_strength|]; [|done].
  cbn [mbind option_bind] in Hlink.
  assert (Hpick : ∀ pick row', link_row elem_by_id team_strength
            (filter (λ f, fx_event f = Some gw) fixtures) pick = Some row' →
            lr_pick row' = pick).
  { intros pick row'. unfold link_row.
    destruct (elem_by_id !! pick_element pick); [|by intros [= <-]].
    destruct (find_fixture _ _); [|done]. by intros [= <-]. }
  apply (foldlM_snoc_fmap _ lr_pick) in Hlink as (more & -> & Hpicks & Hrows);
    [|done].
  rewrite app_nil_l in Hrow. exists elem_by_id, team_strength.
  split; [done|]. split; [done|].
  clear Hpicks. induction Hrows as [|pick row' picks' more' Hr _ IH].
  - by apply elem_of_nil in Hrow.
  - apply elem_of_cons in Hrow as [->|Hrow].
    + rewrite (Hpick _ _ Hr). split; [apply list_elem_of_here|done].
    + destruct (IH Hrow) as [Hin Hlr]. split; [by apply list_elem_of_further|done].
Qed.

(** X12: the fixture row of a linked pick with a player.  If the team of
    the player plays in no fixture of the gameweek, the row is
    [{was_home: False, opponent_team: None, opponent_strength: None}] (a
    blank gameweek).  Otherwise it describes the first fixture of the
    gameweek in which the team plays, also in a double gameweek: the team is
    at home if it is the home team of that fixture, and away only if it is
    not, and the opponent and its strength are those of the other team. *)
Theorem X12_first_fixture_of_the_gameweek (gw : Z) (picks : list pick)
    (fixtures : list raw_fixture) (elements : list element) (teams : list raw_team)
    (linked : list linked_row) (row : linked_row) (player : element) :
  link_fixtures_for_manager gw picks fixtures elements teams = Some linked →
  row ∈ linked →
  lr_player row = Some player →
  let team_id := int_or 0 (team player) in
  let gw_fixtures := filter (λ f, fx_event f = Some gw) fixtures in
  ∃ fx_row,
    lr_fixture_row row = Some fx_row ∧
    ((plays_in_none team_id gw_fixtures ∧
      fx_row = {| was_home := false; opponent_team := None;
                  opponent_strength := None |}) ∨
     (∃ before f after th ta team_strength,
        gw_fixtures = before ++ f :: after ∧
        plays_in_none team_id before ∧
        get_int (-1) (fx_team_h f) = Some th ∧
        get_int (-1) (fx_team_a f) = Some ta ∧
        team_strength_of teams = Some team_strength ∧
        (if was_home fx_row then team_id = th else team_id ≠ th ∧ team_id = ta) ∧
        opponent_team fx_row = Some (if was_home fx_row then ta else th) ∧
        opponent_strength fx_row
        = team_strength !! (if was_home fx_row then ta else th))).
Proof.
  intros Hlink Hrow Hplayer team_id gw_fixtures.
  destruct (link_row_of _ _ _ _ _ _ _ Hlink Hrow)
    as (elem_by_id & team_strength & _ & Hts & _ & Hlr).
  unfold link_row in Hlr.
  destruct (elem_by_id !! pick_element (lr_pick row)) as [player'|].
  2:{ injection Hlr as Hlr. rewrite <- Hlr in Hplayer. done. }
  destruct (find_fixture _ _) as [found|] eqn:Hfind; [|done].
  cbn [mbind option_bind] in Hlr. injection Hlr as Hlr.
  rewrite <- Hlr in Hplayer. cbn [lr_player] in Hplayer.
  injection Hplayer as ->. rewrite <- Hlr. cbn [lr_fixture_row].
  eexists. split; [reflexivity|].
  apply find_fixture_spec in Hfind.
  destruct found as [[home opp]|].
  - right. destruct Hfind as (before & f & after & th & ta & Hsplit & Hbefore
                               & Hth & Hta & Hcase).
    exists before, f, after, th, ta, team_strength.
    cbn [was_home opponent_team opponent_strength].
    destruct home.
    + destruct Hcase as [Hteam ->]. done.
    + destruct Hcase as (Hne & Hteam & ->). done.
  - by left.
Qed.

Lemma X12_witness :
  ∃ row fx_row,
    lr_player row = Some (mock_element 1 1 1 45 2.7 4.0 270 10.0) ∧
    lr_fixture_row row = Some fx_row ∧
    was_home fx_row = true ∧ opponent_team fx_row = Some 2.
Proof.
  pose (linked := default [] (link_fixtures_for_manager 5 mock_picks mock_raw_fixtures
                                mock_elements mock_raw_teams)).
  pose (row := default {| lr_pick := mock_pick true 0; lr_player := None;
                          lr_fixture_row := None |} (head linked)).
  assert (Hlink : link_fixtures_for_manager 5 mock_picks mock_raw_fixtures
                    mock_elements mock_raw_teams = Some linked) by by vm_compute.
  assert (Hrow : row ∈ linked) by (vm_compute; apply list_elem_of_here).
  assert (Hplayer : lr_player row = Some (mock_element 1 1 1 45 2.7 4.0 270 10.0))
    by by vm_compute.
  destruct (X12_first_fixture_of_the_gameweek _ _ _ _ _ _ _ _ Hlink Hrow Hplayer)
    as (fx_row & Hfx & Hcases).
  exists row, fx_row. split; [done|]. split; [done|].
  vm_compute in Hfx. injection Hfx as <-. done.
Defined.

Lemma captain_scores_acc (M : libm) (rows : list pick_row) (own : gmap Z Q)
    (mode : string) (acc : list (Z * Q)) :
  foldl (λ scored row,
           if bool_decide (row_multiplier row ≤ 0) then scored
           else
             match row_player row, row_fixture row with
             | Some player, Some fx_row =>
                 let pid := row_element row in
                 let own := default 0%Q (own !! pid) in
                 scored ++ [(pid, captain_score M player fx_row own mode)]
             | _, _ => scored
             end) acc rows
  = acc ++ captain_scores M rows own mode.
Proof.
  unfold captain_scores. revert acc.
  induction rows as [|row rows IH]; intros acc.
  - by rewrite app_nil_r.
  - cbn [foldl]. rewrite IH. symmetry. rewrite IH. symmetry.
    destruct (bool_decide _); [done|].
    destruct (row_player row); [|done].
    destruct (row_fixture row); [|done].
    by rewrite <- app_assoc.
Qed.

Lemma recommend_captain_best (M : libm) (rows : list pick_row) (own : gmap Z Q)
    (mode : string) :
  recommend_captain M rows own mode = best_score (captain_scores M rows own mode).
Proof.
  unfold recommend_captain, best_score. generalize (0, 0%Q).
  induction rows as [|row rows IH]; intros [be bs]; [done|].
  unfold captain_scores. cbn [foldl]. rewrite captain_scores_acc, IH.
  destruct (bool_decide _); [done|].
  destruct (row_player row); [|done].
  destruct (row_fixture row); [|done].
  done.
Qed.

Lemma captain_scores_elem (M : libm) (rows : list pick_row) (own : gmap Z Q)
    (mode : string) (pid : Z) (score : Q) :
  (pid, score) ∈ captain_scores M rows own mode →
  ∃ row player fx_row,
    row ∈ rows ∧ row_element row = pid ∧ 0 < row_multiplier row ∧
    row_player row = Some player ∧ row_fixture row = Some fx_row ∧
    score = captain_score M player fx_row (default 0%Q (own !! pid)) mode.
Proof.
  induction rows as [|row rows IH]; [by intros ?%elem_of_nil|].
  unfold captain_scores. cbn [foldl]. rewrite captain_scores_acc.
  intros [Hhead|Htail]%elem_of_app.
  - destruct (bool_decide _) eqn:Hm; [by apply elem_of_nil in Hhead|].
    apply bool_decide_eq_false in Hm.
    destruct (row_player row) as [player|] eqn:Hp; [|by apply elem_of_nil in Hhead].
    destruct (row_fixture row) as [fx_row|] eqn:Hf; [|by apply elem_of_nil in Hhead].
    apply list_elem_of_singleton in Hhead. injection Hhead as -> ->.
    exists row, player, fx_row. split; [apply list_elem_of_here|].
    split; [done|]. split; [lia|done].
  - destruct (IH Htail) as (row' & player & fx_row & Hin & Hrest).
    exists row', player, fx_row. split; [by apply list_elem_of_further|done].
Qed.

Lemma best_score_spec (scores : list (Z * Q)) (be : Z) (bs : Q) :
  let r := foldl (λ '(best_elem, best_score) '(pid, score),
                    if fltb best_score score then (pid, score)
                    else (best_elem, best_score)) (be, bs) scores in
  (r = (be, bs) ∧ Forall (λ t, (t.2 <= bs)%Q) scores) ∨
  ((bs < r.2)%Q ∧
   ∃ before after, scores = before ++ r :: after ∧
     Forall (λ t, (t.2 < r.2)%Q) before ∧ Forall (λ t, (t.2 <= r.2)%Q) after).
Proof.
  revert be bs. induction scores as [|[pid score] scores IH]; intros be bs r.
  - left. by split.
  - subst r. cbn [foldl].
    destruct (fltb bs score) eqn:Hlt; float_cmp.
    + right. destruct (IH pid score) as [[-> Hall]|(Hs & before & after & Heq & Hb & Ha)].
      * split; [done|]. exists [], scores. split; [done|]. split; [constructor|done].
      * split; [by apply Qlt_trans with score|].
        exists ((pid, score) :: before), after.
        split; [by rewrite Heq at 1|]. split; [by constructor|done].
    + destruct (IH be bs) as [[-> Hall]|(Hs & before & after & Heq & Hb & Ha)].
      * left. split; [done|]. by constructor.
      * right. split; [done|].
        exists ((pid, score) :: before), after.
        split; [by rewrite Heq at 1|]. split; [|done].
        constructor; [|done]. by apply Qle_lt_trans with bs.
Qed.

(** X13: [recommend_captain] returns the first of the scored starters
    with the highest captain score, when that score is above 0, and
    [(0, 0.0)] when no scored starter has a score above 0. *)
Theorem X13_recommended_captain_is_first_best (M : libm) (rows : list pick_row)
    (own : gmap Z Q) (mode : string) :
  let scores := captain_scores M rows own mode in
  let r := recommend_captain M rows own mode in
  (r = (0, 0%Q) ∧ Forall (λ t, (t.2 <= 0)%Q) scores) ∨
  ((0 < r.2)%Q ∧
   ∃ before after, scores = before ++ r :: after ∧
     Forall (λ t, (t.2 < r.2)%Q) before ∧ Forall (λ t, (t.2 <= r.2)%Q) after).
Proof.
  intros scores r. subst r. rewrite recommend_captain_best.
  apply (best_score_spec scores 0 0).
Qed.

Lemma captain_score_aggressive_pos (M : libm) (player : element)
    (fx_row : fixture_row) (own_pct : Q) :
  (0 < captain_score M player fx_row own_pct "aggressive")%Q →
  (own_pct < (if was_home fx_row then 105 # 10 else 10))%Q.
Proof.
  unfold captain_score. rewrite decide_False by done. rewrite decide_True by done.
  cbn [_nz].
  pose proof (epd_range M player (int_or 3 (opponent_strength fx_row))
                (py_min (_nz (minutes player) 0) 180)) as [Hlo _].
  set (base := expected_points_delta _ _ _ _) in *. clearbody base.
  intros Hpos.
  assert (Hfactor : (0 < 1 + (0 - (10 # 100) * own_pct)
                        + (if was_home fx_row then 5 # 100 else 0))%Q).
  { destruct (Qlt_le_dec 0 (1 + (0 - (10 # 100) * own_pct)
                        + (if was_home fx_row then 5 # 100 else 0))) as [?|Hle]; [done|].
    exfalso. apply (Qlt_not_le _ _ Hpos).
    set (factor := (1 + _ + _)%Q) in *. clearbody factor. nra. }
  destruct (was_home fx_row); lra.
Qed.

(** X14: in aggressive mode [recommend_captain] never recommends a player
    who is owned by 10.5% or more (10% or more for an away fixture): the
    result is [(0, 0.0)] or a starter below that ownership.  So when every
    starter is owned by at least 10.5% the result is [(0, 0.0)], the id of
    no player. *)
Theorem X14_aggressive_captain_is_a_differential (M : libm) (rows : list pick_row)
    (own : gmap Z Q) :
  let r := recommend_captain M rows own "aggressive" in
  (r = (0, 0%Q) ∨
   ∃ row player fx_row,
     row ∈ rows ∧ row_element row = r.1 ∧ 0 < row_multiplier row ∧
     row_player row = Some player ∧ row_fixture row = Some fx_row ∧
     (0 < r.2)%Q ∧
     (default 0%Q (own !! r.1) < (if was_home fx_row then 105 # 10 else 10))%Q) ∧
  ((∀ row, row ∈ rows → 0 < row_multiplier row →
      (105 # 10 <= default 0%Q (own !! row_element row))%Q) →
   r = (0, 0%Q)).
Proof.
  intros r.
  assert (Hfirst : r = (0, 0%Q) ∨
    ∃ row player fx_row,
      row ∈ rows ∧ row_element row = r.1 ∧ 0 < row_multiplier row ∧
      row_player row = Some player ∧ row_fixture row = Some fx_row ∧
      (0 < r.2)%Q ∧
      (default 0%Q (own !! r.1) < (if was_home fx_row then 105 # 10 else 10))%Q).
  { subst r. rewrite recommend_captain_best.
    destruct (best_score_spec (captain_scores M rows own "aggressive") 0 0)
      as [[Hr _]|(Hpos & before & after & Hsplit & _)]; [by left|right].
    fold (best_score (captain_scores M rows own "aggressive")) in Hpos, Hsplit.
    destruct (best_score _) as [e s]. cbn [fst snd] in *.
    assert (Hin : (e, s) ∈ captain_scores M rows own "aggressive").
    { rewrite Hsplit. apply elem_of_app. right. apply list_elem_of_here. }
    apply captain_scores_elem in Hin
      as (row & player & fx_row & Hrow & Hpid & Hmult & Hp & Hf & Hs).
    exists row, player, fx_row. repeat (split; [done|]).
    apply (captain_score_aggressive_pos M player). by rewrite <- Hs. }
  split; [done|]. intros Hown.
  destruct Hfirst as [?|(row & player & fx_row & Hrow & Hpid & Hmult & _ & _ & _ & Hlt)];
    [done|].
  specialize (Hown row Hrow Hmult). rewrite Hpid in Hown.
  exfalso. destruct (was_home fx_row); lra.
Qed.

Lemma first_max_unique {A} (key : A → Q) (l1 l2 l1' l2' : list A) (x x' : A) :
  l1 ++ x :: l2 = l1' ++ x' :: l2' →
  Forall (λ y, (key y < key x)%Q) l1 → Forall (λ y, (key y <= key x)%Q) l2 →
  Forall (λ y, (key y < key x')%Q) l1' → Forall (λ y, (key y <= key x')%Q) l2' →
  x = x'.
Proof.
  revert l1'. induction l1 as [|a l1 IH]; intros l1' Heq H1 H2 H1' H2'.
  - destruct l1' as [|a' l1'].
    + by injection Heq.
    + injection Heq as <- ->. apply Forall_cons in H1' as [Hlt _].
      apply Forall_app in H2 as [_ Hx']. apply Forall_cons in Hx' as [Hle _].
      exfalso. by apply (Qlt_not_le _ _ Hlt).
  - destruct l1' as [|a' l1'].
    + injection Heq as -> <-. apply Forall_cons in H1 as [Hlt _].
      apply Forall_app in H2' as [_ Hx]. apply Forall_cons in Hx as [Hle _].
      exfalso. by apply (Qlt_not_le _ _ Hlt).
    + injection Heq as -> Heq. apply Forall_cons in H1 as [_ H1].
      apply Forall_cons in H1' as [_ H1']. by apply (IH l1').
Qed.

(** X15: the captain candidates of the summary endpoint are at most three
    scored starters in descending order of their safe captain score, and
    when the first of them has a score above 0 it is the captain that
    [recommend_captain] returns in safe mode on the same rows. *)
Theorem X15_summary_candidates_agree_with_safe_captain (M : libm)
    (linked : list linked_row) (own : gmap Z Q) :
  let cands := summary_captain_candidates M linked own in
  (length cands ≤ 3)%nat ∧
  StronglySorted (λ a b, (b.2 <= a.2)%Q) cands ∧
  (∀ t, t ∈ cands → t ∈ captain_scores M (as_pick_row <$> linked) own "safe") ∧
  ∀ e s rest, cands = (e, s) :: rest → (0 < s)%Q →
    recommend_captain M (as_pick_row <$> linked) own "safe" = (e, s).
Proof.
  intros cands. subst cands. unfold summary_captain_candidates.
  set (scores := captain_scores M (as_pick_row <$> linked) own "safe").
  split; [rewrite length_take; lia|].
  split.
  { pose proof (py_sort_desc_sorted snd scores) as Hsorted.
    rewrite <- (take_drop 3 (py_sort snd true scores)) in Hsorted.
    by apply StronglySorted_app_1_l in Hsorted. }
  split.
  { intros t Ht. apply (py_sort_elem_of snd true).
    by apply (elem_of_sublist _ _ _ Ht), sublist_take. }
  intros e s rest Hcands Hpos.
  assert (Hhead : ∃ rest', py_sort snd true scores = (e, s) :: rest').
  { destruct (py_sort snd true scores) as [|t rest']; [done|].
    cbn [take] in Hcands. injection Hcands as -> _. by exists rest'. }
  destruct Hhead as [rest' Hhead].
  apply py_sort_desc_head in Hhead as (l1 & l2 & Hsplit & Hl1 & Hl2).
  rewrite recommend_captain_best. fold scores.
  destruct (best_score_spec scores 0 0)
    as [[_ Hall]|(_ & before & after & Hsplit' & Hb & Ha)].
  - exfalso. rewrite Hsplit in Hall. apply Forall_app in Hall as [_ Hall].
    apply Forall_cons in Hall as [Hle _]. cbn [snd] in Hle.
    by apply (Qlt_not_le _ _ Hpos).
  - fold (best_score scores) in Hsplit', Hb, Ha. rewrite Hsplit in Hsplit' at 1.
    symmetry. by apply (first_max_unique snd _ _ _ _ _ _ Hsplit').
Qed.

Lemma X15_witness :
  ∃ e s rest,
    summary_captain_candidates unit_exp
      (default [] (link_fixtures_for_manager 5 mock_picks mock_raw_fixtures
                     mock_elements mock_raw_teams)) mock_ownership = (e, s) :: rest ∧
    recommend_captain unit_exp
      (as_pick_row <$>
         default [] (link_fixtures_for_manager 5 mock_picks mock_raw_fixtures
                       mock_elements mock_raw_teams)) mock_ownership "safe" = (e, s).
Proof.
  set (linked := default [] _).
  destruct (summary_captain_candidates unit_exp linked mock_ownership)
    as [|[e s] rest] eqn:Hc; [by vm_compute in Hc|].
  exists e, s, rest. split; [done|].
  destruct (X15_summary_candidates_agree_with_safe_captain unit_exp linked mock_ownership)
    as (_ & _ & _ & Hagree).
  apply (Hagree e s rest Hc).
  vm_compute in Hc. by injection Hc as <- <- _.
Defined.


(** ** The transfer advisor and the baseline picks *)










Lemma dedup_suggestions_facts (compact : list transfer_suggestion) :
  let dedup := dedup_suggestions compact in
  dedup `sublist_of` compact ∧
  NoDup (in_element <$> dedup) ∧
  Forall (λ s, (MIN_GAIN <= epdelta_gain s)%Q) dedup ∧
  ∀ s, s ∈ compact → (MIN_GAIN <= epdelta_gain s)%Q →
       in_element s ∈ in_element <$> dedup.
Proof.
  unfold dedup_suggestions.
  assert (Hgen : ∀ (rest : list transfer_suggestion) (seen_in : gset Z)
                   (dedup0 done_ : list transfer_suggestion),
    seen_in = list_to_set (in_element <$> dedup0) →
    dedup0 `sublist_of` done_ →
    NoDup (in_element <$> dedup0) →
    Forall (λ s, (MIN_GAIN <= epdelta_gain s)%Q) dedup0 →
    (∀ s, s ∈ done_ → (MIN_GAIN <= epdelta_gain s)%Q →
          in_element s ∈ in_element <$> dedup0) →
    let dedup :=
      (foldl (λ '(seen_in, dedup) s,
                if fltb (epdelta_gain s) MIN_GAIN || bool_decide (in_element s ∈ seen_in)
                then (seen_in, dedup)
                else ({[ in_element s ]} ∪ seen_in, dedup ++ [s]))
             (seen_in, dedup0) rest).2 in
    dedup `sublist_of` done_ ++ rest ∧
    NoDup (in_element <$> dedup) ∧
    Forall (λ s, (MIN_GAIN <= epdelta_gain s)%Q) dedup ∧
    ∀ s, s ∈ done_ ++ rest → (MIN_GAIN <= epdelta_gain s)%Q →
         in_element s ∈ in_element <$> dedup).
  { induction rest as [|s rest IH];
      intros seen_in dedup0 done_ Hseen Hsub Hnd Hgain Hall.
    - cbn [foldl snd]. rewrite app_nil_r. done.
    - cbn [foldl].
      replace (done_ ++ s :: rest) with ((done_ ++ [s]) ++ rest)
        by by rewrite <- app_assoc.
      destruct (fltb (epdelta_gain s) MIN_GAIN) eqn:Hlt; float_cmp.
      { cbn [orb]. apply IH; [done| |done|done|].
        - by apply sublist_inserts_r.
        - intros s' [Hs'|Hs']%elem_of_app Hge; [by apply Hall|].
          apply list_elem_of_singleton in Hs' as ->.
          exfalso. by apply (Qlt_not_le _ _ Hlt). }
      cbn [orb]. case_bool_decide as Hin.
      { apply IH; [done| |done|done|].
        - by apply sublist_inserts_r.
        - intros s' [Hs'|Hs']%elem_of_app Hge; [by apply Hall|].
          apply list_elem_of_singleton in Hs' as ->.
          rewrite Hseen in Hin. by apply elem_of_list_to_set in Hin. }
      apply IH.
      + rewrite fmap_app, list_to_set_app_L, Hseen.
        cbn [fmap list_fmap list_to_set]. rewrite (right_id_L ∅ (∪)).
        apply (comm_L (∪)).
      + by apply sublist_app.
      + rewrite fmap_app. apply NoDup_app. split; [done|].
        split; [|apply NoDup_singleton].
        intros i Hi ->%list_elem_of_singleton. apply Hin. rewrite Hseen.
        by apply elem_of_list_to_set.
      + apply Forall_app. split; [done|]. by repeat constructor.
      + intros s' [Hs'|Hs']%elem_of_app Hge; rewrite fmap_app; apply elem_of_app.
        * left. by apply Hall.
        * apply list_elem_of_singleton in Hs' as ->. right. apply list_elem_of_here. }
  apply (Hgen compact ∅ [] []); [done|done|constructor|constructor|].
  by intros s ?%elem_of_nil.
Qed.

(** X18: the transfer suggestions of the planner endpoint.  They are
    suggestions of [suggest_transfers] for the bank of the entry (or its
    override) and an allowance of 4 when a hit is allowed; no incoming
    player occurs twice; every gain is the rounded EPΔ difference of its
    suggestion and at least 0.5; and every incoming player of a raw
    suggestion with a gain of at least 0.5 is kept. *)
Theorem X18_planner_transfer_suggestions (M : libm) (linked : list linked_row)
    (elements : list element) (ownership : gmap Z Q) (mode : string)
    (entry_bank bank_override : option Z) (allow_hit : bool)
    (out : list transfer_suggestion) :
  planner_transfer_suggestions M linked elements ownership mode entry_bank
    bank_override allow_hit = Some out →
  ∃ raw,
    suggest_transfers M (as_pick_row <$> linked) elements ownership mode
      (match bank_override with Some b => b | None => int_or 0 entry_bank end)
      (if allow_hit then 4 else 0) = Some raw ∧
    (length out ≤ length raw)%nat ∧
    NoDup (in_element <$> out) ∧
    (∀ t, t ∈ out →
       (5 # 10 <= epdelta_gain t)%Q ∧
       ∃ s, s ∈ raw ∧ out_element t = sug_out s ∧ in_element t = sug_in s ∧
            epdelta_gain t = round2 (epdelta_in s - epdelta_out s)) ∧
    (∀ s, s ∈ raw → (5 # 10 <= epdelta_in s - epdelta_out s)%Q →
          sug_in s ∈ in_element <$> out).
Proof.
  unfold planner_transfer_suggestions. intros Hout.
  destruct (suggest_transfers _ _ _ _ _ _ _) as [raw|]; [|done].
  cbn [mbind option_bind] in Hout. injection Hout as <-.
  exists raw. split; [done|].
  destruct (dedup_suggestions_facts (compact_suggestions raw))
    as (Hsub & Hnd & Hgain & Hall).
  set (dedup := dedup_suggestions (compact_suggestions raw)) in *. clearbody dedup.
  assert (Hin : in_element <$> (round_gain <$> dedup) = in_element <$> dedup).
  { rewrite <- list_fmap_compose. by apply list_fmap_ext. }
  split.
  { apply sublist_length in Hsub. unfold compact_suggestions in Hsub.
    rewrite length_fmap in Hsub. by rewrite length_fmap. }
  split; [by rewrite Hin|].
  split.
  - intros t (d & -> & Hd)%list_elem_of_fmap. rewrite Forall_forall in Hgain.
    split.
    + cbn [round_gain epdelta_gain].
      assert (H50 : (inject_Z 50 / 100 == 5 # 10)%Q) by done.
      rewrite <- H50. apply (round2_lower 50). rewrite H50. apply (Hgain d Hd).
    + apply (elem_of_sublist _ _ _ Hd) in Hsub.
      apply list_elem_of_fmap in Hsub as (s & -> & Hs). by exists s.
  - intros s Hs Hge. rewrite Hin.
    apply (Hall {| out_element := sug_out s; in_element := sug_in s;
                   epdelta_gain := (epdelta_in s - epdelta_out s)%Q |}); [|done].
    unfold compact_suggestions. apply list_elem_of_fmap. by exists s.
Qed.

Lemma X18_witness :
  ∃ raw,
    suggest_transfers unit_exp (as_pick_row <$> twin_linked) twin_elements ∅ "safe" 0 0
    = Some raw ∧
    sug_in <$> raw = [3; 3] ∧
    NoDup (in_element <$>
             default [] (planner_transfer_suggestions unit_exp twin_linked twin_elements
                           ∅ "safe" None None false)).
Proof.
  destruct (planner_transfer_suggestions unit_exp twin_linked twin_elements
              ∅ "safe" None None false) as [out|] eqn:Hout; [|by vm_compute in Hout].
  destruct (X18_planner_transfer_suggestions _ _ _ _ _ _ _ _ _ Hout)
    as (raw & Hraw & _ & Hnd & _).
  exists raw. split; [exact Hraw|]. split; [|exact Hnd].
  vm_compute in Hraw. by injection Hraw as <-.
Defined.

Lemma foldl_max_spec (x : Z) (xs : list Z) :
  foldl Z.max x xs ∈ x :: xs ∧ ∀ y, y ∈ x :: xs → y ≤ foldl Z.max x xs.
Proof.
  revert x. induction xs as [|a xs IH]; intros x.
  - cbn [foldl]. split; [apply list_elem_of_here|].
    intros y ->%list_elem_of_singleton. lia.
  - cbn [foldl]. destruct (IH (Z.max x a)) as [Hin Hmax]. split.
    + apply elem_of_cons in Hin as [Hin|Hin].
      * rewrite Hin. destruct (Z.max_spec x a) as [[_ ->]|[_ ->]].
        -- apply list_elem_of_further, list_elem_of_here.
        -- apply list_elem_of_here.
      * by do 2 apply list_elem_of_further.
    + intros y Hy. pose proof (Hmax (Z.max x a) (list_elem_of_here _ _)) as Hhead.
      apply elem_of_cons in Hy as [Hy|Hy]; [lia|].
      apply elem_of_cons in Hy as [Hy|Hy]; [lia|].
      apply Hmax. by apply list_elem_of_further.
Qed.

Lemma last_live_of_spec (events : list event) (last_live : Z) :
  last_live_of events = Some (Some last_live) →
  (∃ e, e ∈ events ∧ event_is_current e || event_finished e = true ∧
        event_id e = Some last_live) ∧
  ∀ e i, e ∈ events → event_is_current e || event_finished e = true →
         event_id e = Some i → i ≤ last_live.
Proof.
  unfold last_live_of.
  destruct (mapM event_id _) as [ids|] eqn:Hids; [|done].
  cbn [mbind option_bind]. apply mapM_Some in Hids.
  destruct ids as [|x xs]; [done|]. intros [= <-].
  destruct (foldl_max_spec x xs) as [Hin Hmax]. split.
  - apply list_elem_of_lookup in Hin as [k Hk].
    destruct (Forall2_lookup_r _ _ _ _ _ Hids Hk) as (e & He & Hid).
    apply list_elem_of_lookup_2 in He. apply list_elem_of_filter in He as [Hlive He].
    by exists e.
  - intros e i He Hlive Hid. apply Hmax.
    assert (Hf : e ∈ filter (λ e, event_is_current e || event_finished e = true) events)
      by by apply list_elem_of_filter.
    apply list_elem_of_lookup in Hf as [k Hk].
    destruct (Forall2_lookup_l _ _ _ _ _ Hids Hk) as (i' & Hi' & Hid').
    apply list_elem_of_lookup_2 in Hi'. congruence.
Qed.

Lemma latest_picks_returned {A} (manager_picks : Z → Z → outcome A) (tid : Z)
    (cur : nat) (mp : A) (used : Z) :
  latest_picks manager_picks tid cur = Returned (mp, used) →
  1 ≤ used ≤ Z.of_nat cur ∧ manager_picks tid used = Returned mp ∧
  ∀ g, used < g ≤ Z.of_nat cur → ∃ detail, manager_picks tid g = HTTPException 404 detail.
Proof.
  induction cur as [|cur IH]; [done|].
  cbn [latest_picks].
  destruct (manager_picks tid (Z.of_nat (S cur))) as [mp'|status detail|] eqn:Hmp;
    [| |done].
  - intros [= -> <-]. split; [lia|]. split; [done|]. intros g Hg. lia.
  - destruct (decide (status = 404)) as [->|]; [|done].
    intros Hrec. destruct (IH Hrec) as (Hrange & Hused & Hlater).
    split; [lia|]. split; [done|]. intros g Hg.
    destruct (decide (g = Z.of_nat (S cur))) as [->|Hne]; [by exists detail|].
    apply Hlater. lia.
Qed.

(** X19: the baseline picks of the planner endpoint under the [latest]
    strategy.  When picks are found, they are those of the highest gameweek
    from the last live one downwards for which the upstream has picks:
    every gameweek above it, up to the last live one (the highest id among
    the current and finished events), answered 404.  The target gameweek
    plays no part: any other positive [gw] gives the same picks. *)
Theorem X19_latest_baseline_picks {A} (manager_picks : Z → Z → outcome A)
    (tid gw : Z) (events : list event) (mp : A) (used : Z) :
  baseline_picks manager_picks tid gw "latest" events = Returned (mp, used) →
  0 < tid ∧ 0 < gw ∧
  (∃ last_live,
     (∃ e, e ∈ events ∧ event_is_current e || event_finished e = true ∧
           event_id e = Some last_live) ∧
     (∀ e i, e ∈ events → event_is_current e || event_finished e = true →
             event_id e = Some i → i ≤ last_live) ∧
     1 ≤ used ≤ last_live ∧
     ∀ g, used < g ≤ last_live →
          ∃ detail, manager_picks tid g = HTTPException 404 detail) ∧
  manager_picks tid used = Returned mp ∧
  ∀ gw', 0 < gw' →
    baseline_picks manager_picks tid gw' "latest" events = Returned (mp, used).
Proof.
  unfold baseline_picks. intros Hres.
  case_bool_decide as Htid; [done|]. case_bool_decide as Hgw; [done|].
  cbn [orb] in Hres. rewrite decide_False in Hres by done.
  split; [lia|]. split; [lia|].
  destruct (last_live_of events) as [[last_live|]|] eqn:Hll; [| |done].
  2:{ by cbn [truthy] in Hres. }
  unfold truthy in Hres. destruct (decide (last_live = 0)) as [|Hnz]; [done|].
  assert (Hres' := Hres).
  apply latest_picks_returned in Hres as (Hrange & Hused & Hlater).
  apply last_live_of_spec in Hll as Hspec. destruct Hspec as [Hex Hmax].
  split.
  { exists last_live. split; [done|]. split; [done|].
    split; [lia|]. intros g Hg. apply Hlater. lia. }
  split; [done|]. intros gw' Hgw'.
  rewrite !bool_decide_eq_false_2 by lia. cbn [orb].
  rewrite decide_False by done. unfold truthy. by rewrite decide_False.
Qed.

Lemma X19_witness :
  baseline_picks mock_manager_picks 77 9 "latest" mock_events = Returned (2, 2) ∧
  ∀ gw', 0 < gw' →
    baseline_picks mock_manager_picks 77 gw' "latest" mock_events = Returned (2, 2).
Proof.
  assert (Hres : baseline_picks mock_manager_picks 77 9 "latest" mock_events
                 = Returned (2, 2)) by by vm_compute.
  split; [exact Hres|].
  by destruct (X19_latest_baseline_picks _ _ _ _ _ _ Hres) as (_ & _ & _ & _ & Hany).
Defined.

Lemma latest_picks_all_404 {A} (manager_picks : Z → Z → outcome A) (tid : Z)
    (cur : nat) :
  (∀ g, 1 ≤ g ≤ Z.of_nat cur → ∃ detail, manager_picks tid g = HTTPException 404 detail) →
  latest_picks manager_picks tid cur
  = HTTPException 404 "Could not load any baseline picks for this team".
Proof.
  induction cur as [|cur IH]; intros Hall; [done|].
  cbn [latest_picks]. destruct (Hall (Z.of_nat (S cur))) as [detail ->]; [lia|].
  rewrite decide_True by done. apply IH. intros g Hg. apply Hall. lia.
Qed.

(** X20: the other outcomes of the baseline.  A [tid] or [gw] that is not
    positive gives 422 before anything else; the [exact] strategy passes on
    what the upstream answers for the target gameweek; without a current or
    finished event the [latest] strategy gives 502; and when every gameweek
    from the last live one down to 1 answers 404 it gives 404 with the
    detail [Could not load any baseline picks for this team]. *)
Theorem X20_baseline_picks_errors {A} (manager_picks : Z → Z → outcome A)
    (tid gw : Z) (picks_strategy : string) (events : list event) :
  (tid ≤ 0 ∨ gw ≤ 0 →
   baseline_picks manager_picks tid gw picks_strategy events
   = HTTPException 422 "Invalid tid/gw") ∧
  (0 < tid → 0 < gw →
   baseline_picks manager_picks tid gw "exact" events
   = match manager_picks tid gw with
     | Returned mp => Returned (mp, gw)
     | HTTPException status_code detail => HTTPException status_code detail
     | OtherException => OtherException
     end) ∧
  (0 < tid → 0 < gw → picks_strategy ≠ "exact" →
   (∀ e, e ∈ events → event_is_current e || event_finished e = false) →
   baseline_picks manager_picks tid gw picks_strategy events
   = HTTPException 502 "Cannot determine last live GW from bootstrap") ∧
  (0 < tid → 0 < gw → picks_strategy ≠ "exact" →
   ∀ last_live, last_live_of events = Some (Some last_live) → last_live ≠ 0 →
     (∀ g, 1 ≤ g ≤ last_live →
           ∃ detail, manager_picks tid g = HTTPException 404 detail) →
     baseline_picks manager_picks tid gw picks_strategy events
     = HTTPException 404 "Could not load any baseline picks for this team").
Proof.
  unfold baseline_picks. repeat split.
  - intros [Htid|Hgw].
    + by rewrite bool_decide_eq_true_2.
    + rewrite (bool_decide_eq_true_2 (gw ≤ 0)) by done. by rewrite orb_true_r.
  - intros Htid Hgw. rewrite !bool_decide_eq_false_2 by lia. cbn [orb].
    by rewrite decide_True.
  - intros Htid Hgw Hstrategy Hnone. rewrite !bool_decide_eq_false_2 by lia.
    cbn [orb]. rewrite decide_False by done.
    unfold last_live_of.
    assert (Hfilter : filter (λ e, event_is_current e || event_finished e = true) events
                      = []).
    { apply filter_none, Forall_forall. intros e He Hlive.
      by rewrite (Hnone e He) in Hlive. }
    rewrite Hfilter. done.
  - intros Htid Hgw Hstrategy last_live Hll Hnz Hall.
    rewrite !bool_decide_eq_false_2 by lia. cbn [orb].
    rewrite decide_False by done. rewrite Hll. unfold truthy.
    rewrite decide_False by done. apply latest_picks_all_404.
    intros g Hg. apply Hall. lia.
Qed.
